(** * Particle planet: gesture pipeline, smoothing, particle layout and
      repulsion shader of [script.js]

    The JavaScript of the repository is embedded once, generically over the
    arithmetic of its numbers ([Arith], [Trig]).  Two instances are given:

    - [R_arith] / [R_trig]: exact real arithmetic, in which the properties
      are proved;
    - [F_arith]: IEEE-754 binary64 (the kernel's primitive floats), which is
      what a JavaScript engine computes with; the embedding runs on it with
      [vm_compute] and the examples at the end of each part pin the values
      the program really produces.

    The second script of the repository, the build on the legacy
    MediaPipe Hands API, shares [updateInteraction], the gesture logic,
    [animate], [createParticles] and the shader with script.js; its frame
    loop and its pointer handlers live in [Module Legacy], its error
    overlay, fallback and camera start-up in [Module LegacyPage]. *)

From Stdlib Require Import ZArith Reals Lra Lia Bool Sorted.
From Stdlib Require PrimFloat Uint63.
From stdpp Require Import base list strings pretty.

Set Default Proof Using "Type".

(** ** Numbers *)

(** The operations of JavaScript numbers (and of GLSL floats) the program
    uses.  [dec n d] is the decimal literal whose value is [n/d]: [0.8] is
    [dec 8 10], [25] is [dec 25 1]. *)
Class Arith (num : Type) : Type := {
  dec : Z -> Z -> num;
  jadd : num -> num -> num;
  jsub : num -> num -> num;
  jmul : num -> num -> num;
  jdiv : num -> num -> num;
  jneg : num -> num;
  (** [a < b], [a <= b] *)
  jlt : num -> num -> bool;
  jle : num -> num -> bool;
  (** [a === b] *)
  jsame : num -> num -> bool;
  (** [Math.max(a, b)], [Math.min(a, b)] *)
  jmax : num -> num -> num;
  jmin : num -> num -> num;
  (** [Math.sqrt(a)], [Math.hypot(a, b)], [Math.PI] *)
  jsqrt : num -> num;
  jhypot : num -> num -> num;
  jpi : num
}.

(** [Math.sin], [Math.cos], [Math.acos] (GLSL: [sin], [cos]). *)
Class Trig (num : Type) : Type := {
  jsin : num -> num;
  jcos : num -> num;
  jacos : num -> num
}.

Arguments dec {num _} (n d)%_Z.

Declare Scope js_scope.
Delimit Scope js_scope with js.
Declare Scope jsm_scope.
Delimit Scope jsm_scope with jsm.
Notation "x + y" := (jadd x y) : js_scope.
Notation "x - y" := (jsub x y) : js_scope.
Notation "x * y" := (jmul x y) : js_scope.
Notation "x / y" := (jdiv x y) : js_scope.
Notation "- x" := (jneg x) : js_scope.
Notation "x <? y" := (jlt x y) (at level 70, no associativity) : js_scope.
Notation "x >? y" := (jlt y x) (at level 70, no associativity) : js_scope.
Notation "x >=? y" := (jle y x) (at level 70, no associativity) : js_scope.
Notation "x !== y" := (negb (jsame x y)) (at level 70, no associativity) : js_scope.

(** *** Exact reals *)

Definition Rlt_bool (a b : R) : bool := if Rlt_dec a b then true else false.
Definition Rle_bool (a b : R) : bool := if Rle_dec a b then true else false.
Definition Req_bool (a b : R) : bool := if Req_dec_T a b then true else false.

#[export] Instance R_arith : Arith R := {|
  dec n d := (IZR n / IZR d)%R;
  jadd := Rplus;
  jsub := Rminus;
  jmul := Rmult;
  jdiv := Rdiv;
  jneg := Ropp;
  jlt := Rlt_bool;
  jle := Rle_bool;
  jsame := Req_bool;
  jmax := Rmax;
  jmin := Rmin;
  jsqrt := sqrt;
  jhypot a b := sqrt (a * a + b * b)%R;
  jpi := PI
|}.

#[export] Instance R_trig : Trig R := {|
  jsin := sin;
  jcos := cos;
  jacos := acos
|}.

(** *** Powers *)

(** GLSL [pow(x, y)]. *)
Class Pow (num : Type) : Type := { jpow : num -> num -> num }.

(** Over the reals [pow(x, y)] is [exp(y ln x)] for [x > 0] and [0] at
    [x = 0] (for [y > 0]); GLSL leaves it undefined for [x < 0], where it
    is taken as [0] here. *)
#[export] Instance R_pow : Pow R := {|
  jpow x y := if Rlt_dec 0 x then Rpower x y else 0%R
|}.

(** *** Binary64 *)

(** [Math.max] and [Math.min] return [NaN] when an argument is [NaN] and
    order [-0] below [+0]. *)
Definition is_neg_zero (a : PrimFloat.float) : bool :=
  match PrimFloat.classify a with FloatClass.NZero => true | _ => false end.

Definition F_max (a b : PrimFloat.float) : PrimFloat.float :=
  if PrimFloat.is_nan a || PrimFloat.is_nan b then PrimFloat.nan
  else if PrimFloat.ltb a b then b
  else if PrimFloat.ltb b a then a
  else if is_neg_zero a then b else a.

Definition F_min (a b : PrimFloat.float) : PrimFloat.float :=
  if PrimFloat.is_nan a || PrimFloat.is_nan b then PrimFloat.nan
  else if PrimFloat.ltb a b then a
  else if PrimFloat.ltb b a then b
  else if is_neg_zero a then a else b.

(** A decimal literal is the binary64 nearest to its value, which is what
    the correctly rounded quotient of two exactly represented integers
    gives.  [Math.hypot] is only required to approximate the root; it is
    taken as the rounded root of the rounded sum of squares.  [Math.PI] is
    [0x1.921fb54442d18p+1], that is 7074237752028440 / 2^51. *)
#[export] Instance F_arith : Arith PrimFloat.float := {|
  dec n d := PrimFloat.div (PrimFloat.of_uint63 (Uint63.of_Z n))
                           (PrimFloat.of_uint63 (Uint63.of_Z d));
  jadd := PrimFloat.add;
  jsub := PrimFloat.sub;
  jmul := PrimFloat.mul;
  jdiv := PrimFloat.div;
  jneg := PrimFloat.opp;
  jlt := PrimFloat.ltb;
  jle := PrimFloat.leb;
  jsame := PrimFloat.eqb;
  jmax := F_max;
  jmin := F_min;
  jsqrt := PrimFloat.sqrt;
  jhypot a b := PrimFloat.sqrt (PrimFloat.add (PrimFloat.mul a a) (PrimFloat.mul b b));
  jpi := PrimFloat.div (PrimFloat.of_uint63 (Uint63.of_Z 7074237752028440))
                       (PrimFloat.of_uint63 (Uint63.of_Z 2251799813685248))
|}.

(** ** Data *)

(** A JavaScript completion: a value, or a thrown error. *)
Inductive completion (A : Type) : Type :=
| Normal (a : A)
| Throw (e : string).
Arguments Normal {A} a.
Arguments Throw {A} e.

Section Program.
Context {num : Type} `{Arith num}.

Local Open Scope js_scope.

(** A loop counter used as a number. *)
Definition num_of_nat (i : nat) : num := dec (Z.of_nat i) 1.

(** THREE.Vector2, THREE.Vector3 (GLSL: vec3). *)
Record Vector2 : Type := vec2 { x2 : num; y2 : num }.
Record Vector3 : Type := vec3 { x3 : num; y3 : num; z3 : num }.

(** One hand landmark in normalised image coordinates.  The provider also
    reports a depth, which the program never reads. *)
Record Landmark : Type := landmark { lx : num; ly : num }.

(** What the landmark provider hands to [onResults]: [results.landmarks] is
    undefined ([None]) or an array of hands, a hand being an array of
    landmarks. *)
Record Results : Type := mkResults { landmarks : option (list (list Landmark)) }.

(** The calls the program makes on the 2D context of the preview canvas. *)
Inductive CanvasOp : Type :=
| CSave
| CRestore
| CClearRect (x y w h : num)
| CFont (s : string)
| CFillStyle (s : string)
| CStrokeStyle (s : string)
| CLineWidth (n : num)
| CFillText (s : string) (x y : num)
| CBeginPath
| CArc (x y r a0 a1 : num)
| CFill
| CMoveTo (x y : num)
| CLineTo (x y : num)
| CStroke.

(** The functions the program hands to [requestAnimationFrame]. *)
Inductive Callback : Type := CbPredictWebcam | CbAnimate | CbSendFrame.

(** The mutable state of the page: the shader uniforms, the gesture targets
    and their smoothed values (globals on [window]), the camera and the
    particle rotation, the preview canvas, and the state of the frame loop.
    [detectLog] is not a variable of the program: it records the calls made
    to the landmark provider. *)
Record World : Type := mkWorld {
  (** material.uniforms.uTime.value *)
  uTime : num;
  (** material.uniforms.uMouse.value *)
  uMouse : Vector3;
  (** material.uniforms.uHover.value *)
  uHover : num;
  (** the module-level [mouse] *)
  mouse : Vector2;
  (** window.targetZoom ([None]: undefined) *)
  targetZoom : option num;
  (** window.currentZoom *)
  currentZoom : option num;
  (** window.targetRotationSpeed *)
  targetRotationSpeed : option num;
  (** window.currentRotationSpeed *)
  currentRotationSpeed : option num;
  (** camera.position *)
  cameraPosition : Vector3;
  (** particles.rotation.y *)
  rotationY : num;
  (** the calls made on canvasCtx, oldest first *)
  canvas : list CanvasOp;
  (** whether handLandmarker is defined *)
  handLandmarker : bool;
  (** webcamRunning *)
  webcamRunning : bool;
  (** lastVideoTime *)
  lastVideoTime : num;
  (** callbacks handed to requestAnimationFrame, oldest first *)
  rafQueue : list Callback;
  (** video times at which detection was invoked, oldest first *)
  detectLog : list num;
  (** console.error messages, oldest first *)
  console : list string
}.

Definition set_uTime (v : num) (w : World) : World :=
  mkWorld v (uMouse w) (uHover w) (mouse w) (targetZoom w) (currentZoom w)
    (targetRotationSpeed w) (currentRotationSpeed w) (cameraPosition w)
    (rotationY w) (canvas w) (handLandmarker w) (webcamRunning w)
    (lastVideoTime w) (rafQueue w) (detectLog w) (console w).

Definition set_uMouse (v : Vector3) (w : World) : World :=
  mkWorld (uTime w) v (uHover w) (mouse w) (targetZoom w) (currentZoom w)
    (targetRotationSpeed w) (currentRotationSpeed w) (cameraPosition w)
    (rotationY w) (canvas w) (handLandmarker w) (webcamRunning w)
    (lastVideoTime w) (rafQueue w) (detectLog w) (console w).

Definition set_uHover (v : num) (w : World) : World :=
  mkWorld (uTime w) (uMouse w) v (mouse w) (targetZoom w) (currentZoom w)
    (targetRotationSpeed w) (currentRotationSpeed w) (cameraPosition w)
    (rotationY w) (canvas w) (handLandmarker w) (webcamRunning w)
    (lastVideoTime w) (rafQueue w) (detectLog w) (console w).

Definition set_mouse (v : Vector2) (w : World) : World :=
  mkWorld (uTime w) (uMouse w) (uHover w) v (targetZoom w) (currentZoom w)
    (targetRotationSpeed w) (currentRotationSpeed w) (cameraPosition w)
    (rotationY w) (canvas w) (handLandmarker w) (webcamRunning w)
    (lastVideoTime w) (rafQueue w) (detectLog w) (console w).

Definition set_targetZoom (v : option num) (w : World) : World :=
  mkWorld (uTime w) (uMouse w) (uHover w) (mouse w) v (currentZoom w)
    (targetRotationSpeed w) (currentRotationSpeed w) (cameraPosition w)
    (rotationY w) (canvas w) (handLandmarker w) (webcamRunning w)
    (lastVideoTime w) (rafQueue w) (detectLog w) (console w).

Definition set_currentZoom (v : option num) (w : World) : World :=
  mkWorld (uTime w) (uMouse w) (uHover w) (mouse w) (targetZoom w) v
    (targetRotationSpeed w) (currentRotationSpeed w) (cameraPosition w)
    (rotationY w) (canvas w) (handLandmarker w) (webcamRunning w)
    (lastVideoTime w) (rafQueue w) (detectLog w) (console w).

Definition set_targetRotationSpeed (v : option num) (w : World) : World :=
  mkWorld (uTime w) (uMouse w) (uHover w) (mouse w) (targetZoom w) (currentZoom
    w) v (currentRotationSpeed w) (cameraPosition w) (rotationY w) (canvas
    w) (handLandmarker w) (webcamRunning w) (lastVideoTime w) (rafQueue w)
    (detectLog w) (console w).

Definition set_currentRotationSpeed (v : option num) (w : World) : World :=
  mkWorld (uTime w) (uMouse w) (uHover w) (mouse w) (targetZoom w) (currentZoom
    w) (targetRotationSpeed w) v (cameraPosition w) (rotationY w) (canvas
    w) (handLandmarker w) (webcamRunning w) (lastVideoTime w) (rafQueue w)
    (detectLog w) (console w).

Definition set_cameraPosition (v : Vector3) (w : World) : World :=
  mkWorld (uTime w) (uMouse w) (uHover w) (mouse w) (targetZoom w) (currentZoom
    w) (targetRotationSpeed w) (currentRotationSpeed w) v (rotationY w)
    (canvas w) (handLandmarker w) (webcamRunning w) (lastVideoTime w)
    (rafQueue w) (detectLog w) (console w).

Definition set_rotationY (v : num) (w : World) : World :=
  mkWorld (uTime w) (uMouse w) (uHover w) (mouse w) (targetZoom w) (currentZoom
    w) (targetRotationSpeed w) (currentRotationSpeed w) (cameraPosition w)
    v (canvas w) (handLandmarker w) (webcamRunning w) (lastVideoTime w)
    (rafQueue w) (detectLog w) (console w).

Definition set_canvas (v : list CanvasOp) (w : World) : World :=
  mkWorld (uTime w) (uMouse w) (uHover w) (mouse w) (targetZoom w) (currentZoom
    w) (targetRotationSpeed w) (currentRotationSpeed w) (cameraPosition w)
    (rotationY w) v (handLandmarker w) (webcamRunning w) (lastVideoTime w)
    (rafQueue w) (detectLog w) (console w).

Definition set_lastVideoTime (v : num) (w : World) : World :=
  mkWorld (uTime w) (uMouse w) (uHover w) (mouse w) (targetZoom w) (currentZoom
    w) (targetRotationSpeed w) (currentRotationSpeed w) (cameraPosition w)
    (rotationY w) (canvas w) (handLandmarker w) (webcamRunning w) v
    (rafQueue w) (detectLog w) (console w).

Definition set_rafQueue (v : list Callback) (w : World) : World :=
  mkWorld (uTime w) (uMouse w) (uHover w) (mouse w) (targetZoom w) (currentZoom
    w) (targetRotationSpeed w) (currentRotationSpeed w) (cameraPosition w)
    (rotationY w) (canvas w) (handLandmarker w) (webcamRunning w)
    (lastVideoTime w) v (detectLog w) (console w).

Definition set_detectLog (v : list num) (w : World) : World :=
  mkWorld (uTime w) (uMouse w) (uHover w) (mouse w) (targetZoom w) (currentZoom
    w) (targetRotationSpeed w) (currentRotationSpeed w) (cameraPosition w)
    (rotationY w) (canvas w) (handLandmarker w) (webcamRunning w)
    (lastVideoTime w) (rafQueue w) v (console w).

Definition set_console (v : list string) (w : World) : World :=
  mkWorld (uTime w) (uMouse w) (uHover w) (mouse w) (targetZoom w) (currentZoom
    w) (targetRotationSpeed w) (currentRotationSpeed w) (cameraPosition w)
    (rotationY w) (canvas w) (handLandmarker w) (webcamRunning w)
    (lastVideoTime w) (rafQueue w) (detectLog w) v.

(** Statements that read and write the page and may throw. *)
Definition JS (A : Type) : Type := World -> completion A * World.

Definition ret {A : Type} (a : A) : JS A := fun w => (Normal a, w).

Definition bind {A B : Type} (m : JS A) (k : A -> JS B) : JS B :=
  fun w =>
    match m w with
    | (Normal a, w') => k a w'
    | (Throw e, w') => (Throw e, w')
    end.

Definition throw {A : Type} (e : string) : JS A := fun w => (Throw e, w).

Definition modify (f : World -> World) : JS unit := fun w => (Normal tt, f w).

Definition gets {A : Type} (f : World -> A) : JS A := fun w => (Normal (f w), w).

(** [try { m } catch (err) { handler(err) }] *)
Definition try_catch (m : JS unit) (handler : string -> JS unit) : JS unit :=
  fun w =>
    match m w with
    | (Normal a, w') => (Normal a, w')
    | (Throw e, w') => handler e w'
    end.

(** [if (c) { m }] with no else branch. *)
Definition when (c : bool) (m : JS unit) : JS unit := if c then m else ret tt.

(** [for (const a of l) { body(a) }] *)
Fixpoint for_of {A : Type} (l : list A) (body : A -> JS unit) : JS unit :=
  match l with
  | [] => ret tt
  | a :: l' => bind (body a) (fun _ => for_of l' body)
  end.

Notation "x ← m ; k" := (bind m (fun x => k))
  (at level 20, m at level 100, k at level 200, only parsing) : jsm_scope.
Notation "m ;; k" := (bind m (fun _ => k))
  (at level 100, k at level 200, only parsing, right associativity) : jsm_scope.

(** Reading a property of a value that may be [undefined]: [o.f] throws a
    TypeError when [o] is undefined. *)
Definition prop {A B : Type} (f : A -> B) (o : option A) : JS B :=
  match o with
  | Some a => ret (f a)
  | None => throw "TypeError: Cannot read properties of undefined"
  end.

(** Calls on [canvasCtx], in order. *)
Definition draw (ops : list CanvasOp) : JS unit :=
  modify (fun w => set_canvas (canvas w ++ ops) w).

Definition requestAnimationFrame (cb : Callback) (w : World) : World :=
  set_rafQueue (rafQueue w ++ [cb]) w.

Definition console_error (msg : string) (w : World) : World :=
  set_console (console w ++ [msg]) w.

(** ** The renderer's ray and plane (three.js)

    [updateInteraction] calls into three.js, which is not part of the
    repository.  The ray the raycaster builds from the camera stays a
    parameter ([setFromCamera] below); the intersection of a ray with a
    plane is three.js' [Ray.intersectPlane], [Ray.distanceToPlane],
    [Ray.at] and [Plane.distanceToPoint]. *)

Record Ray : Type := mkRay { origin : Vector3; direction : Vector3 }.
Record Plane : Type := mkPlane { normal : Vector3; constant : num }.

Definition Vector3_dot (a b : Vector3) : num :=
  x3 a * x3 b + y3 a * y3 b + z3 a * z3 b.

Definition Plane_distanceToPoint (pl : Plane) (point : Vector3) : num :=
  Vector3_dot (normal pl) point + constant pl.

(** [null] is [None]. *)
Definition Ray_distanceToPlane (ray : Ray) (pl : Plane) : option num :=
  let denominator := Vector3_dot (normal pl) (direction ray) in
  if jsame denominator (dec 0 1) then
    if jsame (Plane_distanceToPoint pl (origin ray)) (dec 0 1)
    then Some (dec 0 1) else None
  else
    let t := - (Vector3_dot (origin ray) (normal pl) + constant pl) / denominator in
    if t >=? dec 0 1 then Some t else None.

Definition Ray_at (ray : Ray) (t : num) : Vector3 :=
  vec3 (x3 (origin ray) + x3 (direction ray) * t)
       (y3 (origin ray) + y3 (direction ray) * t)
       (z3 (origin ray) + z3 (direction ray) * t).

(** [ray.intersectPlane(plane, target)]: the value returned ([null], or
    [target] once the point is written into it) and the content of
    [target] after the call. *)
Definition Ray_intersectPlane (ray : Ray) (pl : Plane) (target : Vector3)
  : option Vector3 * Vector3 :=
  match Ray_distanceToPlane ray pl with
  | None => (None, target)
  | Some t => (Some (Ray_at ray t), Ray_at ray t)
  end.

(** What the program takes from its collaborators and from the page. *)
Record Externals : Type := mkExternals {
  (** [HandLandmarker.HAND_CONNECTIONS]: undefined, or pairs of landmark
      indices *)
  HAND_CONNECTIONS : option (list (nat * nat));
  (** [raycaster.setFromCamera(mouse, camera)], then [raycaster.ray], for
      the camera at a position *)
  setFromCamera : Vector2 -> Vector3 -> Ray;
  (** [handLandmarker.detectForVideo(videoElement, startTimeMs)] while the
      video shows the frame of a given time *)
  detectForVideo : num -> num -> completion Results;
  (** [canvasElement.width], [canvasElement.height] *)
  canvasWidth : num;
  canvasHeight : num
}.

Variable ext : Externals.

Local Open Scope jsm_scope.

(** ** Interaction ([updateInteraction], script.js 190-206) *)

(** [const plane = new THREE.Plane(new THREE.Vector3(0, 0, 1), 0)] *)
Definition plane : Plane := mkPlane (vec3 (dec 0 1) (dec 0 1) (dec 1 1)) (dec 0 1).

(** [if (target)] on an object reference: every object is truthy. *)
Definition truthy_object {A : Type} (o : A) : bool := true.

Definition updateInteraction (x y : num) (w : World) : World :=
  let w := set_mouse (vec2 x y) w in
  let ray := setFromCamera ext (mouse w) (cameraPosition w) in
  let target := vec3 (dec 0 1) (dec 0 1) (dec 0 1) in
  let target := snd (Ray_intersectPlane ray plane target) in
  if truthy_object target then
    set_uHover (dec 1 1) (set_uMouse target w)
  else
    set_uHover (dec 0 1) w.

(** ** Preview canvas ([drawStatusIndicator], [drawHand]) *)

Definition drawStatusIndicator (status : string) (message : option string)
  : list CanvasOp :=
  [CSave; CFont "16px Arial"; CFillStyle "white"] ++
  (if String.eqb status "loading" then
     [CFillStyle "yellow";
      CFillText "Status: Memuat Model AI..." (dec 10 1) (dec 470 1)]
   else if String.eqb status "active" then
     [CFillStyle "cyan";
      CFillText "Status: Mencari Tangan..." (dec 10 1) (dec 470 1)]
   else if String.eqb status "tracking" then
     [CFillStyle "lime";
      CFillText "Status: Tangan Terdeteksi!" (dec 10 1) (dec 470 1);
      CBeginPath;
      CArc (dec 20 1) (dec 20 1) (dec 5 1) (dec 0 1) (dec 2 1 * jpi);
      CFill]
   else if String.eqb status "error" then
     [CFillStyle "red";
      CFillText ("Status Error: " +:+ default "undefined" message)
                (dec 10 1) (dec 470 1)]
   else []) ++
  [CRestore].

Definition drawHand (landmarks : list Landmark) : JS unit :=
  match HAND_CONNECTIONS ext with
  | Some connections =>
      draw [CStrokeStyle "#00FF00"; CLineWidth (dec 2 1)];;
      for_of connections (fun connection =>
        let start := landmarks !! fst connection in
        let end_ := landmarks !! snd connection in
        draw [CBeginPath];;
        sx ← prop lx start;
        sy ← prop ly start;
        draw [CMoveTo (sx * canvasWidth ext) (sy * canvasHeight ext)];;
        ex ← prop lx end_;
        ey ← prop ly end_;
        draw [CLineTo (ex * canvasWidth ext) (ey * canvasHeight ext)];;
        draw [CStroke])
  | None => ret tt
  end;;
  draw [CFillStyle "#FF0000"];;
  for_of landmarks (fun landmark =>
    draw [CBeginPath;
          CArc (lx landmark * canvasWidth ext) (ly landmark * canvasHeight ext)
               (dec 2 1) (dec 0 1) (dec 2 1 * jpi);
          CFill]).

(** ** Gestures ([onResults], script.js 240-297) *)

(** [const dist = (p1, p2) => Math.hypot(p1.x - p2.x, p1.y - p2.y)] *)
Definition dist (p1 p2 : option Landmark) : JS num :=
  p1x ← prop lx p1;
  p2x ← prop lx p2;
  p1y ← prop ly p1;
  p2y ← prop ly p2;
  ret (jhypot (p1x - p2x) (p1y - p2y)).

(** The body of [for (const landmarks of results.landmarks)]. *)
Definition onHand (landmarks : list Landmark) : JS unit :=
  drawHand landmarks;;
  (* 1. Repulsion *)
  let indexTip := landmarks !! 8%nat in
  tipx ← prop lx indexTip;
  let x := tipx * dec 2 1 - dec 1 1 in
  tipy ← prop ly indexTip;
  let y := - (tipy * dec 2 1 - dec 1 1) in
  modify (updateInteraction x y);;
  (* 2. Zoom *)
  let wrist := landmarks !! 0%nat in
  let middleTip := landmarks !! 12%nat in
  let indexMcp := landmarks !! 5%nat in
  currentDist ← dist wrist middleTip;
  refScale ← dist wrist indexMcp;
  let ratio := if refScale >? dec 0 1 then currentDist / refScale else dec 0 1 in
  let zoom := (ratio - dec 8 10) / (dec 18 10 - dec 8 10) in
  let zoom := jmax (dec 0 1) (jmin (dec 1 1) zoom) in
  modify (set_targetZoom (Some zoom));;
  (* 3. Rotation *)
  tipx ← prop lx indexTip;
  if tipx <? dec 2 10 then
    modify (set_targetRotationSpeed (Some (- dec 5 100)))
  else if tipx >? dec 8 10 then
    modify (set_targetRotationSpeed (Some (dec 5 100)))
  else
    modify (set_targetRotationSpeed (Some (dec 2 1000))).

Definition onResults (results : Results) : JS unit :=
  draw [CSave; CClearRect (dec 0 1) (dec 0 1) (canvasWidth ext) (canvasHeight ext)];;
  let currentStatus := "active" in
  match landmarks results with
  | Some (hand :: hands) =>
      let currentStatus := "tracking" in
      draw (drawStatusIndicator currentStatus None);;
      for_of (hand :: hands) onHand
  | _ =>
      (* No hand detected *)
      modify (set_uHover (dec 0 1));;
      modify (set_targetRotationSpeed (Some (dec 2 1000)));;
      draw (drawStatusIndicator currentStatus None)
  end;;
  draw [CRestore].

(** ** Frame loop ([predictWebcam], script.js 364-382)

    One run of the callback, while [videoElement.currentTime] is
    [currentTime] and [performance.now()] returns [now]. *)

Definition detect (currentTime startTimeMs : num) : JS Results :=
  fun w => (detectForVideo ext currentTime startTimeMs,
            set_detectLog (detectLog w ++ [currentTime]) w).

Definition predictWebcam (currentTime now : num) : JS unit :=
  running ← gets webcamRunning;
  when running (modify (requestAnimationFrame CbPredictWebcam));;
  last ← gets lastVideoTime;
  when (currentTime !== last) (
    modify (set_lastVideoTime currentTime);;
    let startTimeMs := now in
    loaded ← gets handLandmarker;
    when loaded (
      try_catch
        (results ← detect currentTime startTimeMs;
         onResults results)
        (fun err => modify (console_error ("Detection error: " +:+ err))))).

(** ** Pointer fallback (the [mousemove] listener, script.js 387-394) *)

(** A pointer position, with [window.innerWidth] and [window.innerHeight]
    as they are when the event is handled. *)
Record PointerInput : Type := mkPointer {
  clientX : num;
  clientY : num;
  innerWidth : num;
  innerHeight : num
}.

Definition mousemove (event : PointerInput) (w : World) : World :=
  let x := (clientX event / innerWidth event) * dec 2 1 - dec 1 1 in
  let y := - (clientY event / innerHeight event) * dec 2 1 + dec 1 1 in
  updateInteraction x y w.

(** ** Smoothing ([animate], script.js 406-434)

    One render tick, [clock.getElapsedTime()] returning [elapsedTime].
    [if (window.v === undefined) window.v = d] followed by reads of
    [window.v] is a read with default [d] and a write back.  No statement
    of [animate] reads a variable that an earlier one has written, except
    through the locals below, so the new values are computed first and
    the writes follow in the order of the source.  [animate] below is the
    function up to its write of [camera.position.z] (lines 406-429), the
    part that decides the zoom and the rotation; [animateFrame] is the
    function to its end, with [controls.update()] and
    [renderer.render(scene, camera)]. *)

Definition animate (elapsedTime : num) (w : World) : World :=
  (* Rotation Logic *)
  let targetSpeed := default (dec 2 1000) (targetRotationSpeed w) in
  let currentSpeed := default (dec 2 1000) (currentRotationSpeed w) in
  let currentSpeed := currentSpeed + (targetSpeed - currentSpeed) * dec 5 100 in
  (* Zoom Logic *)
  let '(target, current) :=
    match targetZoom w with
    | None => (dec 0 1, Some (dec 0 1))
    | Some t => (t, currentZoom w)
    end in
  let current := default (dec 0 1) current in
  let current := current + (target - current) * dec 1 10 in
  let minZ := dec 8 1 in
  let maxZ := dec 25 1 in
  let newZ := maxZ - (current * (maxZ - minZ)) in
  set_cameraPosition
    (vec3 (x3 (cameraPosition w)) (y3 (cameraPosition w)) newZ)
    (set_currentZoom (Some current)
       (set_targetZoom (Some target)
          (set_rotationY (rotationY w + currentSpeed)
             (set_currentRotationSpeed (Some currentSpeed)
                (set_targetRotationSpeed (Some targetSpeed)
                   (set_uTime elapsedTime
                      (requestAnimationFrame CbAnimate w))))))).

(** [animate()] to its end (script.js 406-434).  [controls.update()] is
    three.js code: it moves the camera from where it stands to where the
    orbit input and the damping pending in the controls put it, which is
    [update] of the position it finds, the identity when nothing is
    pending.  It runs after the write of [camera.position.z], so it has
    the last word on the camera.  [renderer.render(scene, camera)] writes
    none of the variables of the page. *)
Definition animateFrame (update : Vector3 -> Vector3) (elapsedTime : num)
  (w : World) : World :=
  let w := animate elapsedTime w in
  (* controls.update() *)
  set_cameraPosition (update (cameraPosition w)) w.

End Program.

Arguments Vector2 : clear implicits.
Arguments Vector3 : clear implicits.
Arguments Landmark : clear implicits.
Arguments Results : clear implicits.
Arguments CanvasOp : clear implicits.
Arguments World : clear implicits.
Arguments JS : clear implicits.
Arguments Ray : clear implicits.
Arguments Plane : clear implicits.
Arguments Externals : clear implicits.
Arguments PointerInput : clear implicits.

(** ** Particle layout and the vertex shader *)

Section Particles.
Context {num : Type} `{Arith num} `{Trig num}.

Local Open Scope js_scope.

(** [CONFIG] (the colour, which no computation reads, is left out). *)
Record Config : Type := mkConfig {
  particleCountSphere : Z;
  particleCountRing : Z;
  planetRadius : num;
  ringInnerRadius : num;
  ringOuterRadius : num;
  mouseRepulsionRadius : num;
  mouseRepulsionStrength : num
}.

Definition CONFIG : Config := {|
  particleCountSphere := 20000;
  particleCountRing := 15000;
  planetRadius := dec 5 1;
  ringInnerRadius := dec 7 1;
  ringOuterRadius := dec 12 1;
  mouseRepulsionRadius := dec 4 1;
  mouseRepulsionStrength := dec 3 1
|}.

(** The two [Float32Array]s under construction and the number of
    [Math.random()] calls made so far.  A cell holds the number written to
    it; the rounding to single precision is not modelled. *)
Record Buffers : Type := mkBuffers {
  positions : list num;
  randoms : list num;
  drawn : nat
}.

(** [for (let i = 0; i < n; i++) body(i)] *)
Fixpoint for_loop {S : Type} (n : nat) (body : nat -> S -> S) (s : S) : S :=
  match n with
  | O => s
  | S n' => body n' (for_loop n' body s)
  end.

(** The values [Math.random()] returns, in the order of the calls. *)
Variable rand : nat -> num.

Definition random (b : Buffers) : num * Buffers :=
  (rand (drawn b), mkBuffers (positions b) (randoms b) (S (drawn b))).

(** [positions[idx] = v], [randoms[idx] = v]: a typed array ignores a write
    past its end. *)
Definition set_position (idx : nat) (v : num) (b : Buffers) : Buffers :=
  mkBuffers (<[idx := v]> (positions b)) (randoms b) (drawn b).

Definition set_random (idx : nat) (v : num) (b : Buffers) : Buffers :=
  mkBuffers (positions b) (<[idx := v]> (randoms b)) (drawn b).

(** [randoms[idx] = Math.random(); randoms[idx + 1] = Math.random();
    randoms[idx + 2] = Math.random();] *)
Definition fill_randoms (idx : nat) (b : Buffers) : Buffers :=
  let '(r, b) := random b in
  let b := set_random idx r b in
  let '(r, b) := random b in
  let b := set_random (idx + 1) r b in
  let '(r, b) := random b in
  set_random (idx + 2) r b.

(** The body of the first loop of [createParticles] (script.js 112-130). *)
Definition sphereParticle (cfg : Config) (i : nat) (b : Buffers) : Buffers :=
  let count := dec (particleCountSphere cfg) 1 in
  let phi := jacos (- dec 1 1 + (dec 2 1 * num_of_nat i) / count) in
  let theta := jsqrt (count * jpi) * phi in
  let r := planetRadius cfg in
  let x := r * jcos theta * jsin phi in
  let y := r * jsin theta * jsin phi in
  let z := r * jcos phi in
  let idx := (i * 3)%nat in
  let b := set_position idx x b in
  let b := set_position (idx + 1) y b in
  let b := set_position (idx + 2) z b in
  fill_randoms idx b.

(** The body of the second loop (script.js 134-154). *)
Definition ringParticle (cfg : Config) (ringOffset : nat) (i : nat) (b : Buffers)
  : Buffers :=
  let '(u, b) := random b in
  let angle := u * jpi * dec 2 1 in
  let innerR2 := ringInnerRadius cfg * ringInnerRadius cfg in
  let outerR2 := ringOuterRadius cfg * ringOuterRadius cfg in
  let '(u, b) := random b in
  let r := jsqrt (u * (outerR2 - innerR2) + innerR2) in
  let x := r * jcos angle in
  let '(u, b) := random b in
  let y := (u - dec 5 10) * dec 2 10 in
  let z := r * jsin angle in
  let idx := (ringOffset + i * 3)%nat in
  let b := set_position idx x b in
  let b := set_position (idx + 1) y b in
  let b := set_position (idx + 2) z b in
  fill_randoms idx b.

(** [createParticles()]: the [position] and [aRandom] attributes of the
    geometry it returns. *)
Definition createParticles (cfg : Config) : Buffers :=
  let sphere := Z.to_nat (particleCountSphere cfg) in
  let ring := Z.to_nat (particleCountRing cfg) in
  let totalParticles := (sphere + ring)%nat in
  let b := mkBuffers (replicate (totalParticles * 3) (dec 0 1))
                     (replicate (totalParticles * 3) (dec 0 1)) 0 in
  let b := for_loop sphere (sphereParticle cfg) b in
  let ringOffset := (sphere * 3)%nat in
  for_loop ring (ringParticle cfg ringOffset) b.

(** *** Vertex shader ([vertexShader], script.js 38-85) *)

(** GLSL [a - b], [distance(a, b)], [normalize(v)] and [v * s] on [vec3].
    GLSL leaves [normalize] of the zero vector undefined; here it is what
    the componentwise quotient gives. *)
Definition vec3_sub (a b : Vector3 num) : Vector3 num :=
  vec3 (x3 a - x3 b) (y3 a - y3 b) (z3 a - z3 b).

Definition vec3_add (a b : Vector3 num) : Vector3 num :=
  vec3 (x3 a + x3 b) (y3 a + y3 b) (z3 a + z3 b).

Definition vec3_scale (v : Vector3 num) (s : num) : Vector3 num :=
  vec3 (x3 v * s) (y3 v * s) (z3 v * s).

Definition vec3_length (v : Vector3 num) : num :=
  jsqrt (x3 v * x3 v + y3 v * y3 v + z3 v * z3 v).

Definition distance (a b : Vector3 num) : num := vec3_length (vec3_sub a b).

Definition normalize (v : Vector3 num) : Vector3 num :=
  vec3 (x3 v / vec3_length v) (y3 v / vec3_length v) (z3 v / vec3_length v).

(** Step 1 of [main]: the position after the idle noise. *)
Definition jitter (uTime : num) (position aRandom : Vector3 num) : Vector3 num :=
  let noiseFreq := dec 5 10 in
  let noiseAmp := dec 5 100 in
  vec3 (x3 position + jsin (uTime * noiseFreq + x3 aRandom * dec 10 1) * noiseAmp)
       (y3 position + jcos (uTime * noiseFreq + y3 aRandom * dec 10 1) * noiseAmp)
       (z3 position + jsin (uTime * noiseFreq + z3 aRandom * dec 10 1) * noiseAmp).

(** Step 2 of [main]: the repulsion applied to a position [pos]. *)
Definition repel (uMouse : Vector3 num) (uHover : num) (pos : Vector3 num) : Vector3 num :=
  let dist := distance pos uMouse in
  let radius := dec 4 1 in
  let force := dec 3 1 in
  if dist <? radius then
    let dir := normalize (vec3_sub pos uMouse) in
    let influence := dec 1 1 - dist / radius in
    vec3_add pos (vec3_scale (vec3_scale (vec3_scale dir influence) force) uHover)
  else pos.

(** [pos] at the end of step 2 of [main]; the rest of [main] (projection,
    point size, shading) reads [pos] and no longer changes it. *)
Definition vertexShader (uTime : num) (uMouse : Vector3 num) (uHover : num)
  (position aRandom : Vector3 num) : Vector3 num :=
  repel uMouse uHover (jitter uTime position aRandom).

End Particles.

Arguments Config : clear implicits.
Arguments Buffers : clear implicits.

(** ** The legacy build

    The second script of the repository drives the older MediaPipe Hands
    API.  [updateInteraction], the gesture logic, [animate],
    [createParticles] and the shader are the same text as above; what
    differs is the particle counts, the frame loop and the pointer
    handlers. *)

Module Legacy.
Section Program.
Context {num : Type} `{Arith num}.
Variable ext : Externals num.

Local Open Scope js_scope.

(** [const isMobile = window.innerWidth < 768] *)
Definition isMobile (innerWidth : num) : bool := innerWidth <? dec 768 1.

Definition CONFIG (innerWidth : num) : Config num := {|
  particleCountSphere := if isMobile innerWidth then 7000 else 20000;
  particleCountRing := if isMobile innerWidth then 5000 else 15000;
  planetRadius := dec 5 1;
  ringInnerRadius := dec 7 1;
  ringOuterRadius := dec 12 1;
  mouseRepulsionRadius := dec 4 1;
  mouseRepulsionStrength := dec 3 1
|}.

(** [sendFrame] (the loop started by [startCamera]): one run, while
    [videoElement.readyState] is [readyState] and the video shows the frame
    of time [currentTime].  [hands.send] starts a detection on that frame;
    its result comes back later through the [onResults] callback. *)
Definition sendFrame (readyState : Z) (currentTime : num) (w : World num) : World num :=
  let w :=
    if (2 <=? readyState)%Z
    then set_detectLog (detectLog w ++ [currentTime]) w
    else w in
  requestAnimationFrame CbSendFrame w.

Definition handleInput (x y : num) (w : World num) : World num :=
  updateInteraction ext x y w.

Definition mousemove (event : PointerInput num) (w : World num) : World num :=
  let x := (clientX event / innerWidth event) * dec 2 1 - dec 1 1 in
  let y := - (clientY event / innerHeight event) * dec 2 1 + dec 1 1 in
  handleInput x y w.

(** [onTouch], the [touchmove] and [touchstart] listener; [touches] is
    [event.touches], each touch with the window size read when it is
    handled. *)
Definition onTouch (touches : list (PointerInput num)) (w : World num) : World num :=
  match touches with
  | touch :: _ =>
      let x := (clientX touch / innerWidth touch) * dec 2 1 - dec 1 1 in
      let y := - (clientY touch / innerHeight touch) * dec 2 1 + dec 1 1 in
      handleInput x y w
  | [] => w
  end.

End Program.
End Legacy.

(** ** Start-up ([createHandLandmarker], [enableCam], script.js 325-362) *)

Section Startup.
Context {num : Type} `{Arith num}.

Definition set_handLandmarker (v : bool) (w : World num) : World num :=
  mkWorld (uTime w) (uMouse w) (uHover w) (mouse w) (targetZoom w) (currentZoom w)
    (targetRotationSpeed w) (currentRotationSpeed w) (cameraPosition w)
    (rotationY w) (canvas w) v (webcamRunning w)
    (lastVideoTime w) (rafQueue w) (detectLog w) (console w).

Definition set_webcamRunning (v : bool) (w : World num) : World num :=
  mkWorld (uTime w) (uMouse w) (uHover w) (mouse w) (targetZoom w) (currentZoom w)
    (targetRotationSpeed w) (currentRotationSpeed w) (cameraPosition w)
    (rotationY w) (canvas w) (handLandmarker w) v
    (lastVideoTime w) (rafQueue w) (detectLog w) (console w).

(** The value a promise is rejected with: how [console.error] prints it,
    and its [message] property, undefined on a value that is no [Error]. *)
Record Reason : Type := mkReason { printed : string; message : option string }.

Inductive Settled : Type :=
| Fulfilled
| Rejected (reason : Reason).

(** How the promises of the start-up settle, and whether
    [navigator.mediaDevices && navigator.mediaDevices.getUserMedia] is
    truthy. *)
Record Startup : Type := mkStartup {
  forVisionTasks : Settled;
  createFromOptions : Settled;
  mediaDevices : bool;
  getUserMedia : Settled
}.

(** The page with what the start-up touches besides: the [console.log]
    messages, whether [videoElement.srcObject] is set, and the listeners of
    the video's [loadeddata] event. *)
Record Page : Type := mkPage {
  world : World num;
  consoleLog : list string;
  srcObject : bool;
  loadeddata : list Callback
}.

Definition on_world (f : World num -> World num) (p : Page) : Page :=
  mkPage (f (world p)) (consoleLog p) (srcObject p) (loadeddata p).

Definition console_log (msg : string) (p : Page) : Page :=
  mkPage (world p) (consoleLog p ++ [msg]) (srcObject p) (loadeddata p).

(** [drawStatusIndicator(canvasCtx, status, message)] as a statement. *)
Definition showStatus (status : string) (msg : option string) (w : World num) : World num :=
  set_canvas (canvas w ++ drawStatusIndicator status msg) w.

(** [enableCam()], with the promise of [getUserMedia] settled. *)
Definition enableCam (env : Startup) (p : Page) : Page :=
  if negb (handLandmarker (world p)) then p
  else if mediaDevices env then
    match getUserMedia env with
    | Fulfilled =>
        let p := mkPage (world p) (consoleLog p) true (loadeddata p) in
        let p := mkPage (world p) (consoleLog p) (srcObject p)
                        (loadeddata p ++ [CbPredictWebcam]) in
        on_world (set_webcamRunning true) p
    | Rejected err =>
        let p := on_world (console_error ("Camera access denied: " +:+ printed err)) p in
        on_world (showStatus "error" (Some "Camera denied")) p
    end
  else p.

(** [createHandLandmarker()], with its promises settled: the body of the
    [try] up to the first rejection, then the [catch]. *)
Definition createHandLandmarker (env : Startup) (p : Page) : Page :=
  let catch error p :=
    let p := on_world (console_error ("Error creating HandLandmarker: " +:+ printed error)) p in
    on_world (showStatus "error" (message error)) p in
  let p := on_world (showStatus "loading" None) p in
  match forVisionTasks env with
  | Rejected error => catch error p
  | Fulfilled =>
      match createFromOptions env with
      | Rejected error => catch error p
      | Fulfilled =>
          let p := on_world (set_handLandmarker true) p in
          let p := console_log "HandLandmarker created successfully!" p in
          enableCam env p
      end
  end.

(** The page as the top level of script.js leaves it. *)
Definition freshPage (w : World num) : Page := mkPage w [] false [].

End Startup.

Arguments Page : clear implicits.

(** ** The rest of the shaders

    What [main] of the vertex shader computes after the position, and
    the fragment shader. *)

Section Shading.
Context {num : Type} `{Arith num} `{Trig num} `{Pow num}.
Local Open Scope js_scope.

Record Vector4 : Type := vec4 { x4 : num; y4 : num; z4 : num; w4 : num }.

(** A [mat4], by its rows. *)
Record Matrix4 : Type := mat4 { row1 : Vector4; row2 : Vector4; row3 : Vector4; row4 : Vector4 }.

Definition vec4_dot (a b : Vector4) : num :=
  x4 a * x4 b + y4 a * y4 b + z4 a * z4 b + w4 a * w4 b.

(** GLSL [m * v]. *)
Definition mat4_mul (m : Matrix4) (v : Vector4) : Vector4 :=
  vec4 (vec4_dot (row1 m) v) (vec4_dot (row2 m) v) (vec4_dot (row3 m) v)
       (vec4_dot (row4 m) v).

(** GLSL [max(x, y)]: [y] if [x < y], otherwise [x]. *)
Definition glsl_max (x y : num) : num := if x <? y then y else x.

(** What the vertex shader hands on. *)
Record VertexOutput : Type := mkVertexOutput {
  gl_Position : Vector4;
  gl_PointSize : num;
  vAlpha : num
}.

(** [main] of the vertex shader, whole: steps 1 and 2 are [vertexShader],
    then the point size and the shading (script.js 72-84). *)
Definition vertexMain (modelViewMatrix projectionMatrix : Matrix4)
  (uTime : num) (uMouse : Vector3 num) (uHover : num)
  (position aRandom : Vector3 num) : VertexOutput :=
  let pos := vertexShader uTime uMouse uHover position aRandom in
  (* 3. Size Attenuation *)
  let mvPosition := mat4_mul modelViewMatrix (vec4 (x3 pos) (y3 pos) (z3 pos) (dec 1 1)) in
  let gl_PointSize := dec 30 1 / - z4 mvPosition in
  let lightDir := normalize (vec3 (dec 1 1) (dec 1 1) (dec 1 1)) in
  let normal := normalize pos in
  let light := glsl_max (dec 2 10) (Vector3_dot normal lightDir) in
  let vAlpha := light in
  mkVertexOutput (mat4_mul projectionMatrix mvPosition) gl_PointSize vAlpha.

(** GLSL [distance] on [vec2]. *)
Definition distance2 (a b : Vector2 num) : num :=
  jsqrt ((x2 a - x2 b) * (x2 a - x2 b) + (y2 a - y2 b) * (y2 a - y2 b)).

(** [main] of the fragment shader (script.js 87-102): [gl_FragColor], or
    [None] when the fragment is discarded. *)
Definition fragmentMain (uColor : Vector3 num) (vAlpha : num)
  (gl_PointCoord : Vector2 num) : option Vector4 :=
  let r := distance2 gl_PointCoord (vec2 (dec 5 10) (dec 5 10)) in
  if r >? dec 5 10 then None
  else
    let glow := dec 1 1 - (r * dec 2 1) in
    let glow := jpow glow (dec 15 10) in
    Some (vec4 (x3 uColor) (y3 uColor) (z3 uColor) (vAlpha * glow)).

End Shading.

Arguments Vector4 : clear implicits.
Arguments Matrix4 : clear implicits.
Arguments VertexOutput : clear implicits.

(** ** The legacy build: the page around the gestures

    The error overlay, the hand-tracking fallback and the camera start-up
    of the legacy script act on a few elements of the document, which are
    modelled by what the script reads and writes of them. *)

Module LegacyPage.

(** The character [U+0022]. *)
Definition quote : string := String (Ascii.ascii_of_nat 34) EmptyString.

(** The character [U+002F], the separator of a path. *)
Definition slash : Ascii.ascii := Ascii.ascii_of_nat 47.

(** [s.split(sep)] for a separator of one character: never empty. *)
Fixpoint split (sep : Ascii.ascii) (s : string) : list string :=
  match s with
  | EmptyString => [EmptyString]
  | String c s' =>
      if Ascii.eqb c sep then EmptyString :: split sep s'
      else match split sep s' with
           | segment :: segments => String c segment :: segments
           | [] => [String c EmptyString]
           end
  end.

(** [`${a.pop()}`] of an array of strings: the last one, or the text of
    [undefined]. *)
Definition pop (segments : list string) : string :=
  default "undefined" (last segments).

(** The toast the fallback shows: the style properties it sets, in order,
    and its text. *)
Record Toast : Type := mkToast {
  toastStyle : list (string * string);
  innerText : string
}.

(** The callbacks handed to [setTimeout]: the fallback itself, and the
    removal of the toast created as number [id]. *)
Inductive Timeout : Type :=
| TimeoutFallback
| TimeoutRemoveToast (id : nat).

(** What the script reads and writes of the document:
    [style.display] of [#error-overlay] and [innerHTML] of
    [#error-message] ([None]: no such element), the toasts in
    [document.body] with the number each was created as, the
    [setTimeout] calls made with their delays, [handTrackingActive], the
    [console.warn] messages, and the video's [srcObject] and [play()]. *)
Record Dom : Type := mkDom {
  overlayDisplay : option string;
  messageHTML : option string;
  toasts : list (nat * Toast);
  created : nat;
  timeouts : list (Timeout * Z);
  handTrackingActive : bool;
  warnings : list string;
  videoSource : bool;
  videoPlaying : bool
}.

Section Program.
Context {num : Type} `{Arith num}.
Variable ext : Externals num.

(** [drawConnectors(canvasCtx, landmarks, HAND_CONNECTIONS, ...)] and
    [drawLandmarks(canvasCtx, landmarks, ...)] of MediaPipe's drawing
    utilities: the calls each makes on the canvas. *)
Variable drawConnectors : list (Landmark num) -> list (CanvasOp num).
Variable drawLandmarks : list (Landmark num) -> list (CanvasOp num).

Local Open Scope js_scope.
Local Open Scope jsm_scope.

Local Notation "x ← m ; k" := (bind m (fun x => k))
  (at level 20, m at level 100, k at level 200, only parsing) : jsm_scope.
Local Notation "m ;; k" := (bind m (fun _ => k))
  (at level 100, k at level 200, only parsing, right associativity) : jsm_scope.

(** What the legacy provider hands to [onResults]. *)
Record Results : Type := mkResults {
  multiHandLandmarks : option (list (list (Landmark num)))
}.

(** The body of [for (const landmarks of results.multiHandLandmarks)]. *)
Definition onHand (landmarks : list (Landmark num)) : JS num unit :=
  draw (drawConnectors landmarks);;
  draw (drawLandmarks landmarks);;
  (* 1. Repulsion *)
  let indexTip := landmarks !! 8%nat in
  tipx ← prop lx indexTip;
  let x := tipx * dec 2 1 - dec 1 1 in
  tipy ← prop ly indexTip;
  let y := - (tipy * dec 2 1 - dec 1 1) in
  modify (updateInteraction ext x y);;
  (* 2. Zoom *)
  let wrist := landmarks !! 0%nat in
  let middleTip := landmarks !! 12%nat in
  let indexMcp := landmarks !! 5%nat in
  currentDist ← dist wrist middleTip;
  refScale ← dist wrist indexMcp;
  let ratio := if refScale >? dec 0 1 then currentDist / refScale else dec 0 1 in
  let zoom := (ratio - dec 8 10) / (dec 18 10 - dec 8 10) in
  let zoom := jmax (dec 0 1) (jmin (dec 1 1) zoom) in
  modify (set_targetZoom (Some zoom));;
  (* 3. Rotation *)
  tipx ← prop lx indexTip;
  if tipx <? dec 2 10 then
    modify (set_targetRotationSpeed (Some (- dec 5 100)))
  else if tipx >? dec 8 10 then
    modify (set_targetRotationSpeed (Some (dec 5 100)))
  else
    modify (set_targetRotationSpeed (Some (dec 2 1000))).

(** [onResults] of the legacy script (part_000 226-284). *)
Definition onResults (results : Results) : JS num unit :=
  draw [CSave; CClearRect (dec 0 1) (dec 0 1) (canvasWidth ext) (canvasHeight ext)];;
  match multiHandLandmarks results with
  | Some (hand :: hands) => for_of (hand :: hands) onHand
  | _ =>
      (* No hand detected *)
      modify (set_uHover (dec 0 1));;
      modify (set_targetRotationSpeed (Some (dec 2 1000)))
  end;;
  draw [CRestore].

(** The page: the state the render loop reads, and the document. *)
Record Page : Type := mkPage { state : World num; dom : Dom }.

Definition on_state (f : World num -> World num) (p : Page) : Page :=
  mkPage (f (state p)) (dom p).

Definition on_dom (f : Dom -> Dom) (p : Page) : Page :=
  mkPage (state p) (f (dom p)).

Definition set_overlayDisplay (v : string) (d : Dom) : Dom :=
  mkDom (Some v) (messageHTML d) (toasts d) (created d) (timeouts d)
        (handTrackingActive d) (warnings d) (videoSource d) (videoPlaying d).

Definition set_messageHTML (v : string) (d : Dom) : Dom :=
  mkDom (overlayDisplay d) (Some v) (toasts d) (created d) (timeouts d)
        (handTrackingActive d) (warnings d) (videoSource d) (videoPlaying d).

Definition set_handTrackingActive (v : bool) (d : Dom) : Dom :=
  mkDom (overlayDisplay d) (messageHTML d) (toasts d) (created d) (timeouts d)
        v (warnings d) (videoSource d) (videoPlaying d).

Definition console_warn (msg : string) (d : Dom) : Dom :=
  mkDom (overlayDisplay d) (messageHTML d) (toasts d) (created d) (timeouts d)
        (handTrackingActive d) (warnings d ++ [msg]) (videoSource d) (videoPlaying d).

(** [document.body.appendChild(toast)] for a toast just created. *)
Definition appendToast (toast : Toast) (d : Dom) : Dom :=
  mkDom (overlayDisplay d) (messageHTML d) (toasts d ++ [(created d, toast)])
        (S (created d)) (timeouts d)
        (handTrackingActive d) (warnings d) (videoSource d) (videoPlaying d).

Definition setTimeout (callback : Timeout) (delay : Z) (d : Dom) : Dom :=
  mkDom (overlayDisplay d) (messageHTML d) (toasts d) (created d)
        (timeouts d ++ [(callback, delay)])
        (handTrackingActive d) (warnings d) (videoSource d) (videoPlaying d).

(** [toast.remove()] *)
Definition removeToast (id : nat) (d : Dom) : Dom :=
  mkDom (overlayDisplay d) (messageHTML d)
        (filter (fun entry => fst entry <> id) (toasts d)) (created d) (timeouts d)
        (handTrackingActive d) (warnings d) (videoSource d) (videoPlaying d).


(** [window.onerror] (part_000 2-11): the value returned and the page. *)
Definition onerror (msg url : string) (line : N) (p : Page) : bool * Page :=
  let p :=
    match overlayDisplay (dom p), messageHTML (dom p) with
    | Some _, Some _ =>
        let p := on_dom (set_overlayDisplay "block") p in
        on_dom (set_messageHTML
          ("Error: " +:+ msg +:+ "<br><br><small>(" +:+ pop (split slash url) +:+ ":" +:+
           pretty line +:+
           ")</small><br><br><button onclick=" +:+ quote +:+
           "document.getElementById('error-overlay').style.display='none'" +:+ quote +:+
           ">Dismiss / Try Anyway</button>")) p
    | _, _ => p
    end in
  let p := on_state (console_error
             ("Global Error: " +:+ msg +:+ " " +:+ url +:+ " " +:+ pretty line)) p in
  (false, p).

(** The callback given to [hands.onResults] (part_000 301-304). *)
Definition resultsListener (results : Results) (p : Page) : completion unit * Page :=
  let p := on_dom (set_handTrackingActive true) p in
  let '(c, w) := onResults results (state p) in
  (c, mkPage w (dom p)).

(** The toast of the fallback. *)
Definition fallbackToast : Toast :=
  mkToast [("position", "fixed"); ("bottom", "20px"); ("left", "50%");
           ("transform", "translateX(-50%)");
           ("background", "rgba(255, 100, 0, 0.8)"); ("color", "white");
           ("padding", "10px 20px"); ("borderRadius", "5px"); ("zIndex", "200");
           ("fontFamily", "sans-serif")]
          "Hand Tracking Slow/Failed. Touch & Mouse Enabled.".

(** The callback of the 10 s timeout (part_000 307-335). *)
Definition fallback (d : Dom) : Dom :=
  if negb (handTrackingActive d) then
    let d := console_warn
      "Hand tracking timed out. Switching to mouse/touch interaction." d in
    let d :=
      match overlayDisplay d with
      | Some display =>
          if String.eqb display "block" then set_overlayDisplay "none" d else d
      | None => d
      end in
    let id := created d in
    let d := appendToast fallbackToast d in
    setTimeout (TimeoutRemoveToast id) 5000 d
  else d.

(** A timeout firing. *)
Definition fire (callback : Timeout) (d : Dom) : Dom :=
  match callback with
  | TimeoutFallback => fallback d
  | TimeoutRemoveToast id => removeToast id d
  end.


(** The document as the script finds it, with the fallback pending. *)
Definition initialDom (overlay message : option string) : Dom :=
  mkDom overlay message [] 0 [(TimeoutFallback, 10000%Z)] false [] false false.

End Program.

Arguments Results : clear implicits.
Arguments Page : clear implicits.

End LegacyPage.

(** ** Runs of the program

    The page as the script leaves it when it has loaded, the loops that
    call [animate], [predictWebcam] and [sendFrame] once per tick, and
    sample collaborators and hands to run them on. *)

Section Runs.
Context {num : Type} `{Arith num}.

Local Open Scope js_scope.

(** The state after the top level of script.js has run: the uniforms of
    [material], [camera.position.set(0, 5, 15)], no global on [window] yet,
    [handLandmarker = undefined], [webcamRunning = false],
    [lastVideoTime = -1]. *)
Definition initialWorld : World num := {|
  uTime := dec 0 1;
  uMouse := vec3 (dec 9999 1) (dec 9999 1) (dec 9999 1);
  uHover := dec 0 1;
  mouse := vec2 (dec 0 1) (dec 0 1);
  targetZoom := None;
  currentZoom := None;
  targetRotationSpeed := None;
  currentRotationSpeed := None;
  cameraPosition := vec3 (dec 0 1) (dec 5 1) (dec 15 1);
  rotationY := dec 0 1;
  canvas := [];
  handLandmarker := false;
  webcamRunning := false;
  lastVideoTime := - dec 1 1;
  rafQueue := [];
  detectLog := [];
  console := []
|}.

(** The same page once [createHandLandmarker] and [enableCam] have
    succeeded. *)
Definition startedWorld : World num :=
  mkWorld (uTime initialWorld) (uMouse initialWorld) (uHover initialWorld)
    (mouse initialWorld) (targetZoom initialWorld) (currentZoom initialWorld)
    (targetRotationSpeed initialWorld) (currentRotationSpeed initialWorld)
    (cameraPosition initialWorld) (rotationY initialWorld) (canvas initialWorld)
    true true
    (lastVideoTime initialWorld) (rafQueue initialWorld) (detectLog initialWorld)
    (console initialWorld).

(** Render ticks: [animate] once per element of [times], the values of
    [clock.getElapsedTime()]. *)
Fixpoint ticks (times : list num) (w : World num) : World num :=
  match times with
  | [] => w
  | t :: times' => ticks times' (animate t w)
  end.

(** The frame loop of script.js: [predictWebcam] once per element of
    [frames], a pair of [videoElement.currentTime] and [performance.now()]. *)
Fixpoint frameLoop (ext : Externals num) (frames : list (num * num)) (w : World num) : World num :=
  match frames with
  | [] => w
  | (currentTime, now) :: frames' =>
      frameLoop ext frames' (snd (predictWebcam ext currentTime now w))
  end.

(** The frame loop of the legacy build: [sendFrame] once per element of
    [frames], a pair of [videoElement.readyState] and the time of the frame
    the video shows. *)
Fixpoint legacyFrameLoop (frames : list (Z * num)) (w : World num) : World num :=
  match frames with
  | [] => w
  | (readyState, currentTime) :: frames' =>
      legacyFrameLoop frames' (Legacy.sendFrame readyState currentTime w)
  end.

(** The hand connections MediaPipe publishes: 21 pairs over the landmark
    indices 0..20. *)
Definition handConnections : list (nat * nat) :=
  [(0, 1); (1, 2); (2, 3); (3, 4); (0, 5); (5, 6); (6, 7); (7, 8); (5, 9);
   (9, 10); (10, 11); (11, 12); (9, 13); (13, 14); (14, 15); (15, 16);
   (13, 17); (0, 17); (17, 18); (18, 19); (19, 20)]%nat.

(** A hand of 21 landmarks with the four the gestures read at their
    indices (0, 5, 8, 12) and the wrist repeated everywhere else. *)
Definition sampleHand (wrist indexMcp indexTip middleTip : Landmark num) : list (Landmark num) :=
  [wrist; wrist; wrist; wrist; wrist; indexMcp; wrist; wrist; indexTip;
   wrist; wrist; wrist; middleTip; wrist; wrist; wrist; wrist; wrist; wrist;
   wrist; wrist].

(** A hand whose middle fingertip is [ratio] reference lengths from the
    wrist, with the index fingertip at [tip]: the wrist at (0.25, 0.5), the
    index MCP at (0.5, 0.5). *)
Definition handWithRatio (ratio : num) (tip : Landmark num) : list (Landmark num) :=
  sampleHand (landmark (dec 25 100) (dec 5 10))
             (landmark (dec 5 10) (dec 5 10))
             tip
             (landmark (dec 25 100 + dec 25 100 * ratio) (dec 5 10)).

(** A stand-in for the raycaster: the ray from the camera position through
    the pointer, looking down the z axis ([towards = -1]) or away from the
    plane ([towards = 1]). *)
Definition castRay (towards : num) (m : Vector2 num) (cam : Vector3 num) : Ray num :=
  mkRay cam (vec3 (x2 m) (y2 m) towards).

(** Collaborators to run the program with: MediaPipe's connections, the
    stand-in raycaster, a provider that answers with [provider], and the
    640 x 480 preview canvas. *)
Definition sampleExternals (towards : num)
  (provider : num -> num -> completion (Results num)) : Externals num :=
  mkExternals (Some handConnections) (castRay towards) provider
              (dec 640 1) (dec 480 1).

(** A hand closing at a constant rate: the ratio at step [k] of [n], from
    1.8 at step 0 to 0.8 at step [n]. *)
Definition closingRatio (n k : nat) : num :=
  dec 18 10 - (dec 18 10 - dec 8 10) * (num_of_nat k / num_of_nat n).

(** [k] render ticks of a hand closing over [n] ticks: before tick [i] the
    provider reports the hand at ratio [closingRatio n i], then [animate]
    runs (at 60 ticks per second). *)
Fixpoint closingRun (ext : Externals num) (n k : nat) (w : World num) : World num :=
  match k with
  | O => w
  | S k' =>
      let w := closingRun ext n k' w in
      let frame := mkResults (Some [handWithRatio (closingRatio n k)
                                      (landmark (dec 5 10) (dec 3 10))]) in
      let w := snd (onResults ext frame w) in
      animate (num_of_nat k / dec 60 1) w
  end.

End Runs.

(** ** Events of the page *)

Section Events.
Context {num : Type} `{Arith num}.

(** What can happen to the page once it has loaded: the writes of a
    render tick ([animate]), a run of the frame-loop callback, a pointer
    move, [controls.update()] leaving the camera where the orbit controls
    put it (at the end of a render tick, or from the controls' own
    listeners), and the start-up settling (its effect on the state the
    loops read).  A whole render tick, [animateFrame], is [EvAnimate]
    followed by [EvControls]. *)
Inductive Event : Type :=
| EvAnimate (elapsedTime : num)
| EvPredictWebcam (currentTime now : num)
| EvMouseMove (event : PointerInput num)
| EvControls (position : Vector3 num)
| EvStartup (env : Startup).

Definition step (ext : Externals num) (e : Event) (w : World num) : World num :=
  match e with
  | EvAnimate elapsedTime => animate elapsedTime w
  | EvPredictWebcam currentTime now => snd (predictWebcam ext currentTime now w)
  | EvMouseMove event => mousemove ext event w
  | EvControls position => set_cameraPosition position w
  | EvStartup env => world (createHandLandmarker env (freshPage w))
  end.

Fixpoint run (ext : Externals num) (events : list Event) (w : World num) : World num :=
  match events with
  | [] => w
  | e :: events' => run ext events' (step ext e w)
  end.

(** Saves minus restores among calls on the 2D context: the growth of
    the context's state stack. *)
Fixpoint canvasDepth (ops : list (CanvasOp num)) : Z :=
  match ops with
  | [] => 0
  | CSave :: ops' => 1 + canvasDepth ops'
  | CRestore :: ops' => canvasDepth ops' - 1
  | _ :: ops' => canvasDepth ops'
  end.

End Events.

Arguments Event : clear implicits.

Section MoreRuns.
Context {num : Type} `{Arith num}.
Local Open Scope js_scope.

(** The same hand seen [k] times larger around the image origin and moved
    by [(dx, dy)]. *)
Definition resizeHand (k dx dy : num) (hand : list (Landmark num)) : list (Landmark num) :=
  map (fun p => landmark (k * lx p + dx) (k * ly p + dy)) hand.

(** A model-view matrix to run the shader with: the view from a camera on
    the z axis at height [z], looking down the axis. *)
Definition viewFrom (z : num) : Matrix4 num :=
  mat4 (vec4 (dec 1 1) (dec 0 1) (dec 0 1) (dec 0 1))
       (vec4 (dec 0 1) (dec 1 1) (dec 0 1) (dec 0 1))
       (vec4 (dec 0 1) (dec 0 1) (dec 1 1) (- z))
       (vec4 (dec 0 1) (dec 0 1) (dec 0 1) (dec 1 1)).

End MoreRuns.

(** ** The specification's formulas

    Written from the specification's words over the reals, to compare the
    program with. *)

Module Spec.
Local Open Scope R_scope.

(** Planar distance between two landmarks. *)
Definition dist (a b : Landmark R) : R :=
  sqrt ((lx a - lx b) ^ 2 + (ly a - ly b) ^ 2).

Definition clamp (v lo hi : R) : R :=
  if Rlt_dec v lo then lo else if Rlt_dec hi v then hi else v.

(** [ratio = d1/d2] (guarded: [0] if [d2 = 0]). *)
Definition ratio (wrist middleTip indexMcp : Landmark R) : R :=
  if Req_dec_T (dist wrist indexMcp) 0 then 0
  else dist wrist middleTip / dist wrist indexMcp.

(** [zoom = clamp((ratio - 0.8) / (1.8 - 0.8), 0, 1)] *)
Definition zoomOfRatio (r : R) : R := clamp ((r - 0.8) / (1.8 - 0.8)) 0 1.

Definition zoom (wrist middleTip indexMcp : Landmark R) : R :=
  zoomOfRatio (ratio wrist middleTip indexMcp).

(** [<0.2 -> -0.05], [>0.8 -> +0.05], else [0.002]. *)
Definition rotation (x : R) : R :=
  if Rlt_dec x 0.2 then -0.05 else if Rlt_dec 0.8 x then 0.05 else 0.002.

(** [(1 - distance/radius) * strength * uHover] inside the radius, nothing
    outside. *)
Definition falloff (d uHover : R) : R :=
  if Rlt_dec d 4.0 then (1 - d / 4.0) * 3.0 * uHover else 0.

(** [distance = maxZ - currentZoom * (maxZ - minZ)], [minZ = 8],
    [maxZ = 25]. *)
Definition cameraDistance (currentZoom : R) : R := 25 - currentZoom * (25 - 8).

(** Euclidean norm of a vector. *)
Definition norm (v : Vector3 R) : R :=
  sqrt (x3 v ^ 2 + y3 v ^ 2 + z3 v ^ 2).

(** Sphere particle [i]: [phi = acos(-1 + 2i/Ns)],
    [theta = sqrt(Ns * pi) * phi], then the point of the sphere of radius
    [R] at these angles. *)
Definition spherePoint (cfg : Config R) (i : nat) : R * R * R :=
  let count := IZR (particleCountSphere cfg) in
  let phi := acos (- 1 + (2 * INR i) / count) in
  let theta := sqrt (count * PI) * phi in
  (planetRadius cfg * cos theta * sin phi,
   planetRadius cfg * sin theta * sin phi,
   planetRadius cfg * cos phi).

(** A ring particle from three uniform draws: the angle, the radius whose
    square is uniform between [Ri^2] and [Ro^2], the vertical offset. *)
Definition ringPoint (cfg : Config R) (u1 u2 u3 : R) : R * R * R :=
  let angle := u1 * PI * 2 in
  let r := sqrt (u2 * (ringOuterRadius cfg * ringOuterRadius cfg -
                       ringInnerRadius cfg * ringInnerRadius cfg)
                 + ringInnerRadius cfg * ringInnerRadius cfg) in
  (r * cos angle, (u3 - 0.5) * 0.2, r * sin angle).

End Spec.

(** ** Vocabulary of the proofs *)

(** [drawHand] reads both ends of every connection: the hand is drawable
    when they all exist. *)
Definition drawable {num : Type} (ext : Externals num) (hand : list (Landmark num)) : bool :=
  match HAND_CONNECTIONS ext with
  | None => true
  | Some connections =>
      forallb (fun c => (fst c <? length hand)%nat && (snd c <? length hand)%nat)
              connections
  end.

(** A frame in which the provider reports no hand. *)
Definition noHand {num : Type} (results : Results num) : bool :=
  match landmarks results with
  | Some (_ :: _) => false
  | _ => true
  end.

(** Three consecutive writes into a buffer, as both loops of
    [createParticles] make them. *)
Definition write3 (idx : nat) (x y z : R) (l : list R) : list R :=
  <[(idx + 2)%nat := z]> (<[(idx + 1)%nat := y]> (<[idx := x]> l)).

(** A statement that returns normally and only calls the canvas. *)
Definition draws_only (m : JS R unit) : Prop :=
  forall w, exists ops, m w = (Normal tt, set_canvas (canvas w ++ ops) w).

(** Collaborators over the reals: the raycaster looks down the z axis and
    hits the plane, or looks away from it and misses; the provider reports
    no hand. *)
Definition hitExternals : Externals R :=
  sampleExternals (-1)%R (fun _ _ => Normal (mkResults None)).

Definition missExternals : Externals R :=
  sampleExternals 1%R (fun _ _ => Normal (mkResults None)).

(** A statement, or a function on pages, that leaves the variables of the
    frame loop as they are. *)
Definition keeps_loop_state {A : Type} (m : JS R A) : Prop :=
  forall w,
    detectLog (snd (m w)) = detectLog w /\
    lastVideoTime (snd (m w)) = lastVideoTime w /\
    rafQueue (snd (m w)) = rafQueue w /\
    handLandmarker (snd (m w)) = handLandmarker w /\
    webcamRunning (snd (m w)) = webcamRunning w /\
    console (snd (m w)) = console w.

Definition keeps_loop_state_fun (f : World R -> World R) : Prop :=
  forall w,
    detectLog (f w) = detectLog w /\
    lastVideoTime (f w) = lastVideoTime w /\
    rafQueue (f w) = rafQueue w /\
    handLandmarker (f w) = handLandmarker w /\
    webcamRunning (f w) = webcamRunning w /\
    console (f w) = console w.

(** No two consecutive entries of a log are equal. *)
Definition noRepeat (l : list R) : Prop :=
  forall i a b, l !! i = Some a -> l !! S i = Some b -> a <> b.

(** The times of successive frames never go back, starting from [t0]. *)
Fixpoint nondecreasing_from (t0 : R) (times : list R) : Prop :=
  match times with
  | [] => True
  | t :: times' => (t0 <= t)%R /\ nondecreasing_from t times'
  end.

(** Collaborators over binary64: the provider reports, for the frame of
    time [t], a hand at ratio 1.3 whose index fingertip is at [x = t]. *)
Definition hitExternals64 : Externals PrimFloat.float :=
  sampleExternals (jneg (dec 1 1))
    (fun t _ => Normal (mkResults (Some [handWithRatio (dec 13 10)
                                           (landmark t (dec 3 10))]))).

Definition missExternals64 : Externals PrimFloat.float :=
  sampleExternals (dec 1 1) (fun _ _ => Normal (mkResults None)).

(** The targets [onResults] writes, in binary64, for the sample hand at
    ratio [r] with the index fingertip at [x]. *)
Definition targets64 (r x : PrimFloat.float)
  : option PrimFloat.float * option PrimFloat.float :=
  let w := snd (onResults hitExternals64
                  (mkResults (Some [handWithRatio r (landmark x (dec 3 10))]))
                  initialWorld) in
  (targetZoom w, targetRotationSpeed w).

(** [lo < x < hi] on a value that may be undefined. *)
Definition within64 (lo hi : PrimFloat.float) (x : option PrimFloat.float) : bool :=
  match x with
  | Some v => PrimFloat.ltb lo v && PrimFloat.ltb v hi
  | None => false
  end.

(** [n] render ticks at elapsed time 0. *)
Definition idle64 (n : nat) : list PrimFloat.float := replicate n (dec 0 1).

(** A page in the middle of a gesture: zoom target 1 with the smoothed
    zoom at 0, rotation target 0.05 with the smoothed speed at 0.002. *)
Definition smoothingStart : World R :=
  set_currentRotationSpeed (Some 0.002%R)
    (set_targetRotationSpeed (Some 0.05%R)
       (set_currentZoom (Some 0%R) (set_targetZoom (Some 1%R) initialWorld))).

(** The message of the TypeError a read through [undefined] throws. *)
Definition TypeError : string := "TypeError: Cannot read properties of undefined".

(** A hand [onResults] gets through: every connection end exists and so do
    the landmarks 0, 5, 8 and 12. *)
Definition complete {num : Type} (ext : Externals num) (hand : list (Landmark num)) : bool :=
  drawable ext hand && (12 <? length hand)%nat.

(** Every state a statement ends in is related to the one it starts in. *)
Definition steps_in (Rel : World R -> World R -> Prop) {A : Type} (m : JS R A) : Prop :=
  forall w, Rel w (snd (m w)).

Definition in_unit (o : option R) : Prop :=
  match o with Some z => (0 <= z <= 1)%R | None => True end.

Definition speed_ok (o : option R) : Prop :=
  match o with Some s => (-0.05 <= s <= 0.05)%R | None => True end.

Definition zone_speed (s : R) : Prop := (s = -0.05 \/ s = 0.002 \/ s = 0.05)%R.

Definition target_speed_ok (o : option R) : Prop :=
  match o with Some s => zone_speed s | None => True end.

(** What holds of the page in every state the events can lead to. *)
Definition page_inv (w : World R) : Prop :=
  in_unit (targetZoom w) /\ in_unit (currentZoom w) /\
  target_speed_ok (targetRotationSpeed w) /\ speed_ok (currentRotationSpeed w) /\
  ((uHover w = 0 /\ (uMouse w = vec3 9999 9999 9999 \/ z3 (uMouse w) = 0)) \/
   (uHover w = 1 /\ z3 (uMouse w) = 0))%R.

(** A statement appends calls to the canvas that leave the depth of its
    state stack where it was. *)
Definition appends_level (w w' : World R) : Prop :=
  exists ops, canvas w' = canvas w ++ ops /\ canvasDepth ops = 0%Z.

(** The gesture state: the variables a hand writes. *)
Definition same_gestures (w w' : World R) : Prop :=
  targetZoom w = targetZoom w' /\ targetRotationSpeed w = targetRotationSpeed w' /\
  mouse w = mouse w' /\ uMouse w = uMouse w' /\ uHover w = uHover w'.

Definition same_rest (w w' : World R) : Prop :=
  uTime w = uTime w' /\ currentZoom w = currentZoom w' /\
  currentRotationSpeed w = currentRotationSpeed w' /\
  cameraPosition w = cameraPosition w' /\ rotationY w = rotationY w' /\
  handLandmarker w = handLandmarker w' /\ webcamRunning w = webcamRunning w' /\
  lastVideoTime w = lastVideoTime w' /\ rafQueue w = rafQueue w' /\
  detectLog w = detectLog w' /\ console w = console w'.

(** Every promise of the start-up is fulfilled and the browser has
    [getUserMedia]. *)
Definition startsCamera (env : Startup) : bool :=
  match forVisionTasks env, createFromOptions env, getUserMedia env with
  | Fulfilled, Fulfilled, Fulfilled => mediaDevices env
  | _, _, _ => false
  end.

(** The model has loaded. *)
Definition loadsModel (env : Startup) : bool :=
  match forVisionTasks env, createFromOptions env with
  | Fulfilled, Fulfilled => true
  | _, _ => false
  end.



(** * Proofs over the reals *)

Section RealArithmetic.
Local Open Scope R_scope.

Lemma Rlt_bool_true (a b : R) : a < b -> Rlt_bool a b = true.
Proof.
  intros Hab. unfold Rlt_bool.
  destruct (Rlt_dec a b); [reflexivity | contradiction].
Qed.

Lemma Rlt_bool_false (a b : R) : b <= a -> Rlt_bool a b = false.
Proof.
  intros Hab. unfold Rlt_bool.
  destruct (Rlt_dec a b); [lra | reflexivity].
Qed.

Lemma Rle_bool_true (a b : R) : a <= b -> Rle_bool a b = true.
Proof.
  intros Hab. unfold Rle_bool.
  destruct (Rle_dec a b); [reflexivity | contradiction].
Qed.

Lemma Rle_bool_false (a b : R) : b < a -> Rle_bool a b = false.
Proof.
  intros Hab. unfold Rle_bool.
  destruct (Rle_dec a b); [lra | reflexivity].
Qed.

Lemma Req_bool_true (a : R) : Req_bool a a = true.
Proof. unfold Req_bool. destruct (Req_dec_T a a); [reflexivity | contradiction]. Qed.

Lemma Req_bool_false (a b : R) : a <> b -> Req_bool a b = false.
Proof. intros Hab. unfold Req_bool. destruct (Req_dec_T a b); [contradiction | reflexivity]. Qed.

(** [Math.max(0, Math.min(1, v))] is the clamp of [v] to [0, 1]. *)
Lemma clamp_code (v : R) : Rmax 0 (Rmin 1 v) = Spec.clamp v 0 1.
Proof.
  unfold Spec.clamp, Rmax, Rmin.
  destruct (Rlt_dec v 0), (Rlt_dec 1 v), (Rle_dec 1 v);
    try destruct (Rle_dec 0 1); try destruct (Rle_dec 0 v); lra.
Qed.

Lemma clamp_bounds (v : R) : 0 <= Spec.clamp v 0 1 <= 1.
Proof. unfold Spec.clamp. destruct (Rlt_dec v 0), (Rlt_dec 1 v); lra. Qed.

Lemma hypot_dist (a b : Landmark R) :
  jhypot (lx a - lx b)%js (ly a - ly b)%js = Spec.dist a b.
Proof. cbn. unfold Spec.dist. f_equal. ring. Qed.

Lemma dist_nonneg (a b : Landmark R) : 0 <= Spec.dist a b.
Proof. apply sqrt_pos. Qed.

(** The guard [refScale > 0] of the program is the guard [d2 = 0] of the
    specification, a distance being non-negative. *)
Lemma ratio_code (wrist m c : Landmark R) :
  (if Rlt_bool 0 (Spec.dist wrist c)
   then Spec.dist wrist m / Spec.dist wrist c else 0)
  = Spec.ratio wrist m c.
Proof.
  unfold Spec.ratio. pose proof (dist_nonneg wrist c).
  destruct (Req_dec_T (Spec.dist wrist c) 0) as [E|E].
  - rewrite Rlt_bool_false; [reflexivity | lra].
  - rewrite Rlt_bool_true; [reflexivity | lra].
Qed.

Lemma zoom_code (wrist m c : Landmark R) :
  jmax (dec 0 1)
    (jmin (dec 1 1)
       (((if jhypot (lx wrist - lx c) (ly wrist - ly c) >? dec 0 1
          then jhypot (lx wrist - lx m) (ly wrist - ly m) /
               jhypot (lx wrist - lx c) (ly wrist - ly c)
          else dec 0 1) - dec 8 10) / (dec 18 10 - dec 8 10))%js)
  = Spec.zoom wrist m c.
Proof.
  rewrite !hypot_dist. cbn.
  replace (0 / 1) with 0 by lra. replace (1 / 1) with 1 by lra.
  rewrite ratio_code, clamp_code. unfold Spec.zoom, Spec.zoomOfRatio.
  f_equal; lra.
Qed.

Lemma rotation_code (x : R) :
  (if Rlt_bool x (2 / 10) then - (5 / 100)
   else if Rlt_bool (8 / 10) x then 5 / 100 else 2 / 1000)
  = Spec.rotation x.
Proof.
  unfold Spec.rotation, Rlt_bool.
  destruct (Rlt_dec x (2 / 10)), (Rlt_dec x 0.2); try lra;
    destruct (Rlt_dec (8 / 10) x), (Rlt_dec 0.8 x); lra.
Qed.

Lemma rotation_run (x : R) (w : World R) :
  (if (x <? dec 2 10)%js
   then modify (set_targetRotationSpeed (Some (- dec 5 100)%js))
   else if (x >? dec 8 10)%js
        then modify (set_targetRotationSpeed (Some (dec 5 100)))
        else modify (set_targetRotationSpeed (Some (dec 2 1000)))) w
  = (Normal tt, set_targetRotationSpeed (Some (Spec.rotation x)) w).
Proof.
  rewrite <- rotation_code. cbn.
  destruct (Rlt_bool x (2 / 10)); [reflexivity|].
  destruct (Rlt_bool (8 / 10) x); reflexivity.
Qed.

(** *** Statements that only draw *)

Lemma draws_only_ret : draws_only (ret tt).
Proof.
  intros w. exists []. unfold ret. f_equal.
  destruct w; unfold set_canvas; simpl. by rewrite app_nil_r.
Qed.

Lemma draws_only_draw (ops : list (CanvasOp R)) : draws_only (draw ops).
Proof. intros w. by exists ops. Qed.

Lemma draws_only_bind (m k : JS R unit) :
  draws_only m -> draws_only k -> draws_only (bind m (fun _ => k)).
Proof.
  intros Hm Hk w. destruct (Hm w) as [o1 E1].
  destruct (Hk (set_canvas (canvas w ++ o1) w)) as [o2 E2].
  exists (o1 ++ o2). unfold bind. rewrite E1, E2. cbn. by rewrite app_assoc.
Qed.

Lemma draws_only_for_of {A : Type} (l : list A) (body : A -> JS R unit) :
  Forall (fun a => draws_only (body a)) l -> draws_only (for_of l body).
Proof.
  induction 1 as [|a l Ha _ IH]; cbn.
  - apply draws_only_ret.
  - by apply draws_only_bind.
Qed.

Lemma draws_only_prop {A : Type} (f : A -> R) (o : option A) (a : A)
  (k : R -> JS R unit) :
  o = Some a -> draws_only (k (f a)) -> draws_only (bind (prop f o) k).
Proof. intros -> Hk w. exact (Hk w). Qed.

Lemma drawHand_draws_only (ext : Externals R) (hand : list (Landmark R)) :
  drawable ext hand = true -> draws_only (drawHand ext hand).
Proof.
  unfold drawable, drawHand. intros Hd.
  apply draws_only_bind; [|apply draws_only_bind; [apply draws_only_draw|]].
  - destruct (HAND_CONNECTIONS ext) as [cs|]; [|apply draws_only_ret].
    apply draws_only_bind; [apply draws_only_draw|].
    apply draws_only_for_of.
    apply Forall_forall. intros [i j] Hin.
    rewrite forallb_forall in Hd.
    specialize (Hd (i, j)). rewrite <- list_elem_of_In in Hd.
    apply Hd, andb_true_iff in Hin as [Hi Hj].
    apply Nat.ltb_lt, lookup_lt_is_Some_2 in Hi as [a Ha].
    apply Nat.ltb_lt, lookup_lt_is_Some_2 in Hj as [b Hb].
    cbn [fst snd].
    apply draws_only_bind; [apply draws_only_draw|].
    do 2 (eapply draws_only_prop; [exact Ha|]).
    apply draws_only_bind; [apply draws_only_draw|].
    do 2 (eapply draws_only_prop; [exact Hb|]).
    apply draws_only_bind; apply draws_only_draw.
  - apply draws_only_for_of, Forall_forall. intros a _. apply draws_only_draw.
Qed.

(** *** Equality of pages, field by field *)

Lemma world_ext (w w' : World R) :
  uTime w = uTime w' -> uMouse w = uMouse w' -> uHover w = uHover w' ->
  mouse w = mouse w' -> targetZoom w = targetZoom w' ->
  currentZoom w = currentZoom w' ->
  targetRotationSpeed w = targetRotationSpeed w' ->
  currentRotationSpeed w = currentRotationSpeed w' ->
  cameraPosition w = cameraPosition w' -> rotationY w = rotationY w' ->
  canvas w = canvas w' -> handLandmarker w = handLandmarker w' ->
  webcamRunning w = webcamRunning w' -> lastVideoTime w = lastVideoTime w' ->
  rafQueue w = rafQueue w' -> detectLog w = detectLog w' ->
  console w = console w' -> w = w'.
Proof. destruct w, w'; simpl; intros; subst; reflexivity. Qed.

(** *** One hand through [onResults] *)

Lemma onHand_run (ext : Externals R) (hand : list (Landmark R)) (w : World R)
  (wrist c m tip : Landmark R) :
  drawable ext hand = true ->
  hand !! 0%nat = Some wrist -> hand !! 5%nat = Some c ->
  hand !! 12%nat = Some m -> hand !! 8%nat = Some tip ->
  exists ops,
    onHand ext hand w =
    (Normal tt,
     set_targetRotationSpeed (Some (Spec.rotation (lx tip)))
       (set_targetZoom (Some (Spec.zoom wrist m c))
          (updateInteraction ext (lx tip * 2 - 1) (- (ly tip * 2 - 1))
             (set_canvas (canvas w ++ ops) w)))).
Proof.
  intros Hd H0 H5 H12 H8.
  destruct (drawHand_draws_only ext hand Hd w) as [ops Hops].
  exists ops. unfold onHand, bind at 1. rewrite Hops.
  unfold dist, bind, prop, ret. rewrite H0, H5, H12, H8.
  rewrite zoom_code. unfold modify at 1 2.
  rewrite rotation_run.
  do 4 f_equal; cbn; lra.
Qed.

Lemma onResults_hand_run (ext : Externals R) (hand : list (Landmark R))
  (w : World R) (wrist c m tip : Landmark R) :
  drawable ext hand = true ->
  hand !! 0%nat = Some wrist -> hand !! 5%nat = Some c ->
  hand !! 12%nat = Some m -> hand !! 8%nat = Some tip ->
  exists ops,
    onResults ext (mkResults (Some [hand])) w =
    (Normal tt,
     set_canvas (canvas w ++ ops)
       (set_targetRotationSpeed (Some (Spec.rotation (lx tip)))
          (set_targetZoom (Some (Spec.zoom wrist m c))
             (updateInteraction ext (lx tip * 2 - 1) (- (ly tip * 2 - 1)) w)))).
Proof.
  intros Hd H0 H5 H12 H8.
  unfold onResults. cbn [landmarks for_of].
  unfold bind at 1. unfold draw at 1, modify at 1.
  unfold bind at 1. unfold bind at 1. unfold draw at 1, modify at 1.
  unfold bind at 1.
  match goal with |- context [onHand ext hand ?w0] =>
    destruct (onHand_run ext hand w0 wrist c m tip Hd H0 H5 H12 H8) as [ops Hops];
    rewrite Hops end.
  unfold ret, draw, modify.
  eexists. f_equal.
  apply world_ext; try reflexivity.
  lazy [canvas set_canvas set_targetRotationSpeed set_targetZoom updateInteraction
          set_uHover set_uMouse set_mouse truthy_object].
  rewrite <- !app_assoc. reflexivity.
Qed.

Lemma sqrt_of_square (a b : R) : 0 <= b -> a = b * b -> sqrt a = b.
Proof. intros Hb ->. by apply sqrt_square. Qed.

(** The sample hand has the ratio it is built for. *)
Lemma handWithRatio_ratio (r : R) :
  0 <= r ->
  Spec.ratio (landmark (dec 25 100) (dec 5 10))
             (landmark (dec 25 100 + dec 25 100 * r)%js (dec 5 10))
             (landmark (dec 5 10) (dec 5 10)) = r.
Proof.
  intros Hr. unfold Spec.ratio, Spec.dist. cbn.
  rewrite (sqrt_of_square _ 0.25) by lra.
  rewrite (sqrt_of_square _ (0.25 * r)) by lra.
  destruct (Req_dec_T 0.25 0); lra.
Qed.

End RealArithmetic.

(** ** Gestures: what [onResults] writes *)

Section Gestures.
Local Open Scope R_scope.

(** C1.  For a frame with one hand whose wrist, middle fingertip and index
    MCP are [wrist], [m] and [c], [onResults] returns normally and writes
    [clamp((ratio - 0.8) / (1.8 - 0.8), 0, 1)] to [targetZoom], [ratio]
    being [dist(wrist, m) / dist(wrist, c)], or [0] when [dist(wrist, c)]
    is [0] (and then the zoom is [0]).  Ratio 0.8 gives 0, ratio 1.8 gives
    1, ratio 1.3 gives 0.5, ratios below 0.8 give 0 and ratios above 1.8
    give 1; the zoom is always in [0, 1]. *)
Theorem onResults_targetZoom (ext : Externals R) (hand : list (Landmark R))
  (w : World R) (wrist m c tip : Landmark R) :
  drawable ext hand = true ->
  hand !! 0%nat = Some wrist -> hand !! 12%nat = Some m ->
  hand !! 5%nat = Some c -> hand !! 8%nat = Some tip ->
  let result := onResults ext (mkResults (Some [hand])) w in
  let ratio := Spec.ratio wrist m c in
  let zoom := targetZoom (snd result) in
  fst result = Normal tt /\
  zoom = Some (Spec.clamp ((ratio - 0.8) / (1.8 - 0.8)) 0 1) /\
  (Spec.dist wrist c <> 0 -> ratio = Spec.dist wrist m / Spec.dist wrist c) /\
  (Spec.dist wrist c = 0 -> ratio = 0 /\ zoom = Some 0) /\
  (ratio = 0.8 -> zoom = Some 0) /\
  (ratio = 1.8 -> zoom = Some 1) /\
  (ratio = 1.3 -> zoom = Some 0.5) /\
  (ratio <= 0.8 -> zoom = Some 0) /\
  (1.8 <= ratio -> zoom = Some 1) /\
  (exists z, zoom = Some z /\ 0 <= z <= 1).
Proof.
  intros Hd H0 H12 H5 H8 result ratio zoom.
  destruct (onResults_hand_run ext hand w wrist c m tip Hd H0 H5 H12 H8)
    as [ops Hrun].
  assert (Hz : zoom = Some (Spec.clamp ((ratio - 0.8) / (1.8 - 0.8)) 0 1)).
  { subst zoom result. rewrite Hrun. reflexivity. }
  assert (Hc : forall r v, ratio = r -> Spec.clamp ((r - 0.8) / (1.8 - 0.8)) 0 1 = v ->
                           zoom = Some v).
  { intros r v -> <-. exact Hz. }
  assert (Hlo : forall r, r <= 0.8 -> Spec.clamp ((r - 0.8) / (1.8 - 0.8)) 0 1 = 0).
  { intros r Hr. unfold Spec.clamp.
    destruct (Rlt_dec ((r - 0.8) / (1.8 - 0.8)) 0); [reflexivity|].
    destruct (Rlt_dec 1 ((r - 0.8) / (1.8 - 0.8))); lra. }
  assert (Hhi : forall r, 1.8 <= r -> Spec.clamp ((r - 0.8) / (1.8 - 0.8)) 0 1 = 1).
  { intros r Hr. unfold Spec.clamp.
    destruct (Rlt_dec ((r - 0.8) / (1.8 - 0.8)) 0); [lra|].
    destruct (Rlt_dec 1 ((r - 0.8) / (1.8 - 0.8))); lra. }
  repeat split.
  - subst result. rewrite Hrun. reflexivity.
  - exact Hz.
  - intros Hne. subst ratio. unfold Spec.ratio.
    destruct (Req_dec_T (Spec.dist wrist c) 0); [contradiction | reflexivity].
  - subst ratio. unfold Spec.ratio.
    destruct (Req_dec_T (Spec.dist wrist c) 0); [reflexivity | contradiction].
  - apply (Hc 0); [|apply Hlo; lra].
    subst ratio. unfold Spec.ratio.
    destruct (Req_dec_T (Spec.dist wrist c) 0); [reflexivity | contradiction].
  - intros Hr. apply (Hc 0.8 0 Hr), Hlo. lra.
  - intros Hr. apply (Hc 1.8 1 Hr), Hhi. lra.
  - intros Hr. apply (Hc 1.3 0.5 Hr). unfold Spec.clamp.
    destruct (Rlt_dec ((1.3 - 0.8) / (1.8 - 0.8)) 0); [lra|].
    destruct (Rlt_dec 1 ((1.3 - 0.8) / (1.8 - 0.8))); lra.
  - intros Hr. apply (Hc ratio 0 eq_refl), Hlo, Hr.
  - intros Hr. apply (Hc ratio 1 eq_refl), Hhi, Hr.
  - eexists. split; [exact Hz | apply clamp_bounds].
Qed.

Lemma onResults_targetZoom_witness :
  targetZoom
    (snd (onResults hitExternals
            (mkResults (Some [handWithRatio 1.3 (landmark 0.5 0.3)]))
            initialWorld)) = Some 0.5.
Proof.
  refine (proj1 (proj2 (proj2 (proj2 (proj2 (proj2 (proj2
    (onResults_targetZoom hitExternals
       (handWithRatio 1.3 (landmark 0.5 0.3)) initialWorld
       _ _ _ _ eq_refl eq_refl eq_refl eq_refl eq_refl))))))) _).
  apply handWithRatio_ratio. lra.
Defined.

(** C2.  For a frame with one hand, the rotation target [onResults] writes
    depends on the x coordinate of the index fingertip alone, in three
    zones: [-0.05] when [x < 0.2], [0.05] when [x > 0.8], [0.002]
    otherwise, the boundaries [x = 0.2] and [x = 0.8] included in the
    middle zone. *)
Theorem onResults_targetRotationSpeed (ext : Externals R)
  (hand : list (Landmark R)) (w : World R) (wrist m c tip : Landmark R) :
  drawable ext hand = true ->
  hand !! 0%nat = Some wrist -> hand !! 12%nat = Some m ->
  hand !! 5%nat = Some c -> hand !! 8%nat = Some tip ->
  let result := onResults ext (mkResults (Some [hand])) w in
  let x := lx tip in
  let speed := targetRotationSpeed (snd result) in
  fst result = Normal tt /\
  speed = Some (Spec.rotation x) /\
  (x < 0.2 -> speed = Some (-0.05)) /\
  (0.8 < x -> speed = Some 0.05) /\
  (0.2 <= x <= 0.8 -> speed = Some 0.002) /\
  (x = 0.2 -> speed = Some 0.002) /\
  (x = 0.8 -> speed = Some 0.002).
Proof.
  intros Hd H0 H12 H5 H8 result x speed.
  destruct (onResults_hand_run ext hand w wrist c m tip Hd H0 H5 H12 H8)
    as [ops Hrun].
  assert (Hs : speed = Some (Spec.rotation x)).
  { subst speed result. rewrite Hrun. reflexivity. }
  assert (Hmid : 0.2 <= x <= 0.8 -> speed = Some 0.002).
  { intros Hx. rewrite Hs. unfold Spec.rotation.
    destruct (Rlt_dec x 0.2); [lra|]. destruct (Rlt_dec 0.8 x); [lra|reflexivity]. }
  repeat split.
  - subst result. rewrite Hrun. reflexivity.
  - exact Hs.
  - intros Hx. rewrite Hs. unfold Spec.rotation.
    destruct (Rlt_dec x 0.2); [reflexivity|lra].
  - intros Hx. rewrite Hs. unfold Spec.rotation.
    destruct (Rlt_dec x 0.2); [lra|]. destruct (Rlt_dec 0.8 x); [reflexivity|lra].
  - exact Hmid.
  - intros Hx. apply Hmid. lra.
  - intros Hx. apply Hmid. lra.
Qed.

Lemma onResults_targetRotationSpeed_witness :
  targetRotationSpeed
    (snd (onResults hitExternals
            (mkResults (Some [handWithRatio 1.3 (landmark 0.2 0.3)]))
            initialWorld)) = Some 0.002.
Proof.
  refine (proj1 (proj2 (proj2 (proj2 (proj2 (proj2
    (onResults_targetRotationSpeed hitExternals
       (handWithRatio 1.3 (landmark 0.2 0.3)) initialWorld
       _ _ _ _ eq_refl eq_refl eq_refl eq_refl eq_refl)))))) _).
  reflexivity.
Defined.

(** C6.  On a frame with no hand ([results.landmarks] undefined or empty),
    [onResults] returns normally, sets [uHover] to [0] and
    [targetRotationSpeed] to [0.002], and leaves [targetZoom] and every
    other variable of the page but the canvas as it was. *)
Theorem onResults_no_hand (ext : Externals R) (results : Results R) (w : World R) :
  noHand results = true ->
  let result := onResults ext results w in
  let w' := snd result in
  fst result = Normal tt /\
  uHover w' = 0 /\
  targetRotationSpeed w' = Some 0.002 /\
  targetZoom w' = targetZoom w /\
  currentZoom w' = currentZoom w /\
  currentRotationSpeed w' = currentRotationSpeed w /\
  uMouse w' = uMouse w /\
  mouse w' = mouse w /\
  uTime w' = uTime w /\
  cameraPosition w' = cameraPosition w /\
  rotationY w' = rotationY w /\
  lastVideoTime w' = lastVideoTime w /\
  handLandmarker w' = handLandmarker w /\
  webcamRunning w' = webcamRunning w /\
  rafQueue w' = rafQueue w /\
  detectLog w' = detectLog w /\
  console w' = console w.
Proof.
  intros Hno result w'.
  assert (Hrun : result =
    (Normal tt,
     set_canvas (canvas w ++
                 [CSave; CClearRect 0 0 (canvasWidth ext) (canvasHeight ext)] ++
                 drawStatusIndicator "active" None ++ [CRestore])
       (set_targetRotationSpeed (Some 0.002) (set_uHover 0 w)))).
  { subst result. unfold onResults, noHand in *.
    destruct (landmarks results) as [[|hand hands]|]; try discriminate;
      unfold bind, draw, modify; cbn [fst snd]; f_equal;
      apply world_ext; try reflexivity; cbn; try lra;
      try (f_equal; lra);
      rewrite <- !app_assoc; cbn; repeat f_equal; lra. }
  subst w'. rewrite Hrun. cbn [fst snd].
  repeat split; reflexivity.
Qed.

Lemma onResults_no_hand_witness :
  uHover (snd (onResults hitExternals (mkResults (Some [])) initialWorld)) = 0.
Proof.
  exact (proj1 (proj2 (onResults_no_hand hitExternals (mkResults (Some []))
                         initialWorld eq_refl))).
Defined.

End Gestures.

(** ** Interaction: [updateInteraction] never turns the repulsion off *)

Section Interaction.
Local Open Scope R_scope.

Lemma updateInteraction_run (ext : Externals R) (x y : R) (w : World R) :
  updateInteraction ext x y w =
  set_uHover 1
    (set_uMouse
       (snd (Ray_intersectPlane (setFromCamera ext (vec2 x y) (cameraPosition w))
               plane (vec3 0 0 0)))
       (set_mouse (vec2 x y) w)).
Proof.
  unfold updateInteraction, truthy_object.
  apply world_ext; try reflexivity.
  - cbn. unfold Ray_intersectPlane.
    destruct (Ray_distanceToPlane _ _); cbn; [reflexivity|]. f_equal; lra.
  - cbn. lra.
Qed.

(** C10.  [if (target)] tests an object, which is always truthy, so the
    branch of [updateInteraction] that sets [uHover] to [0] is never
    taken: every call sets [uHover] to [1] and copies [target] into
    [uMouse], which is the intersection point when the ray meets the plane
    and the zero vector of the fresh [Vector3] when it misses.  The same
    holds for the calls made by the pointer and touch listeners. *)
Theorem updateInteraction_always_repels (ext : Externals R) (x y : R)
  (w : World R) (event touch : PointerInput R) (touches : list (PointerInput R)) :
  let ray := setFromCamera ext (vec2 x y) (cameraPosition w) in
  let w' := updateInteraction ext x y w in
  (forall target : Vector3 R, truthy_object target = true) /\
  uHover w' = 1 /\
  uHover w' <> 0 /\
  uMouse w' = match Ray_distanceToPlane ray plane with
              | Some t => Ray_at ray t
              | None => vec3 0 0 0
              end /\
  uHover (mousemove ext event w) = 1 /\
  uHover (Legacy.mousemove ext event w) = 1 /\
  uHover (Legacy.onTouch ext (touch :: touches) w) = 1.
Proof.
  intros ray w'. subst ray w'.
  unfold mousemove, Legacy.mousemove, Legacy.onTouch, Legacy.handleInput.
  rewrite !updateInteraction_run. cbn [uHover uMouse set_uHover set_uMouse].
  repeat split; try reflexivity; try lra.
  unfold Ray_intersectPlane. cbn.
  destruct (Ray_distanceToPlane _ _); reflexivity.
Qed.

(** A ray that looks away from the plane misses it: [uMouse] becomes the
    zero vector and the repulsion stays on. *)
Lemma updateInteraction_always_repels_witness :
  let w' := updateInteraction missExternals 0.2 0.4 initialWorld in
  Ray_distanceToPlane
    (setFromCamera missExternals (vec2 0.2 0.4) (cameraPosition initialWorld))
    plane = None /\
  uHover w' = 1 /\ uMouse w' = vec3 0 0 0.
Proof.
  assert (Hmiss : Ray_distanceToPlane
    (setFromCamera missExternals (vec2 0.2 0.4) (cameraPosition (initialWorld (num := R))))
    plane = None).
  { unfold Ray_distanceToPlane. cbn.
    rewrite Req_bool_false by lra. rewrite Rle_bool_false by lra. reflexivity. }
  destruct (updateInteraction_always_repels missExternals 0.2 0.4 initialWorld
              (mkPointer 0 0 1 1) (mkPointer 0 0 1 1) [])
    as (_ & Hh & _ & Hm & _).
  cbn zeta. rewrite Hmiss in Hm. auto.
Defined.

(** The landmark path ends in the same state: a tracked hand leaves the
    repulsion on. *)
Lemma onResults_hand_repels (ext : Externals R) (hand : list (Landmark R))
  (w : World R) (wrist c m tip : Landmark R) :
  drawable ext hand = true ->
  hand !! 0%nat = Some wrist -> hand !! 5%nat = Some c ->
  hand !! 12%nat = Some m -> hand !! 8%nat = Some tip ->
  uHover (snd (onResults ext (mkResults (Some [hand])) w)) = 1.
Proof.
  intros Hd H0 H5 H12 H8.
  destruct (onResults_hand_run ext hand w wrist c m tip Hd H0 H5 H12 H8)
    as [ops ->].
  cbn [snd]. rewrite updateInteraction_run. reflexivity.
Qed.

End Interaction.

(** ** Smoothing: what [animate] does to the zoom and the rotation speed *)

Section Smoothing.
Local Open Scope R_scope.

Lemma animate_zoom (t : R) (w : World R) (tz : R) :
  targetZoom w = Some tz ->
  targetZoom (animate t w) = Some tz /\
  currentZoom (animate t w) =
    Some (default 0 (currentZoom w) + (tz - default 0 (currentZoom w)) * 0.1) /\
  z3 (cameraPosition (animate t w)) =
    Spec.cameraDistance
      (default 0 (currentZoom w) + (tz - default 0 (currentZoom w)) * 0.1).
Proof.
  intros Ht. unfold animate, Spec.cameraDistance. cbn. rewrite Ht. cbn.
  repeat split.
  - destruct (currentZoom w); cbn; f_equal; lra.
  - destruct (currentZoom w); cbn; lra.
Qed.


Lemma animate_zoom_undefined (t : R) (w : World R) :
  targetZoom w = None ->
  targetZoom (animate t w) = Some 0 /\ currentZoom (animate t w) = Some 0.
Proof.
  intros Ht. unfold animate. cbn. rewrite Ht. cbn. split; f_equal; lra.
Qed.

Lemma animate_rotation (t : R) (w : World R) :
  let ts := default 0.002 (targetRotationSpeed w) in
  let cs := default 0.002 (currentRotationSpeed w) in
  targetRotationSpeed (animate t w) = Some ts /\
  currentRotationSpeed (animate t w) = Some (cs + (ts - cs) * 0.05) /\
  rotationY (animate t w) = rotationY w + (cs + (ts - cs) * 0.05).
Proof.
  unfold animate. cbn.
  destruct (targetZoom w); cbn;
  destruct (targetRotationSpeed w), (currentRotationSpeed w); cbn;
    repeat split; try f_equal; lra.
Qed.

Lemma ticks_cons (t : R) (times : list R) (w : World R) :
  ticks (t :: times) w = ticks times (animate t w).
Proof. reflexivity. Qed.

Lemma ticks_app (times : list R) (t : R) (w : World R) :
  ticks (times ++ [t]) w = animate t (ticks times w).
Proof.
  revert w. induction times as [|t' times IH]; intros w.
  - reflexivity.
  - rewrite <- app_comm_cons, !ticks_cons. apply IH.
Qed.

Lemma ticks_closed_form (times : list R) (w : World R) (tz cz ts cs : R) :
  targetZoom w = Some tz -> currentZoom w = Some cz ->
  targetRotationSpeed w = Some ts -> currentRotationSpeed w = Some cs ->
  targetZoom (ticks times w) = Some tz /\
  targetRotationSpeed (ticks times w) = Some ts /\
  currentZoom (ticks times w) = Some (tz + (cz - tz) * 0.9 ^ length times) /\
  currentRotationSpeed (ticks times w) = Some (ts + (cs - ts) * 0.95 ^ length times).
Proof.
  revert w cz cs. induction times as [|t times IH]; intros w cz cs Htz Hcz Hts Hcs.
  - cbn [ticks length pow]. repeat split; try assumption;
      [rewrite Hcz | rewrite Hcs]; f_equal; lra.
  - rewrite ticks_cons. cbn [length].
    destruct (animate_zoom t w tz Htz) as (Htz' & Hcz' & _).
    destruct (animate_rotation t w) as (Hts' & Hcs' & _).
    rewrite Hcz in Hcz'. rewrite Hts in Hts'. rewrite Hts, Hcs in Hcs'.
    cbn in Hcz', Hts', Hcs'.
    destruct (IH _ _ _ Htz' Hcz' Hts' Hcs') as (E1 & E2 & E3 & E4).
    repeat split; try assumption; [rewrite E3 | rewrite E4]; f_equal; cbn [pow]; lra.
Qed.

Lemma pow_09_pos (n : nat) : 0 < 0.9 ^ n <= 1.
Proof.
  induction n as [|n IH]; cbn [pow]; lra.
Qed.

Lemma pow_095_pos (n : nat) : 0 < 0.95 ^ n <= 1.
Proof.
  induction n as [|n IH]; cbn [pow]; lra.
Qed.

Lemma between_closed_form (t c q : R) :
  0 < q <= 1 ->
  (c <= t -> c <= t + (c - t) * q <= t) /\
  (t <= c -> t <= t + (c - t) * q <= c).
Proof. intros Hq. split; intros Hc; nra. Qed.

Lemma geometric_vanishes (q d eps : R) :
  0 <= q < 1 -> 0 < eps ->
  exists N : nat, forall n : nat, (N <= n)%nat -> Rabs (d * q ^ n) < eps.
Proof.
  intros Hq Heps.
  destruct (Req_dec_T d 0) as [->|Hd].
  - exists 0%nat. intros n _. rewrite Rmult_0_l, Rabs_R0. exact Heps.
  - assert (Hd' : 0 < Rabs d) by (apply Rabs_pos_lt; exact Hd).
    destruct (pow_lt_1_zero q) with (y := eps / Rabs d) as [N HN].
    + rewrite Rabs_pos_eq; lra.
    + apply Rdiv_lt_0_compat; assumption.
    + exists N. intros n Hn. rewrite Rabs_mult.
      specialize (HN n Hn).
      apply Rmult_lt_compat_l with (r := Rabs d) in HN; [|exact Hd'].
      replace (Rabs d * (eps / Rabs d)) with eps in HN by (field; lra).
      exact HN.
Qed.

(** C3.  With the targets held, [n] ticks of [animate] take the smoothed
    zoom from [cz] to [tz + (cz - tz) * 0.9^n] and the smoothed rotation
    speed from [cs] to [ts + (cs - ts) * 0.95^n].  From 0 towards 1 that is
    [1 - 0.9^n], below 1 and strictly larger after one more tick.  Each
    value lies between the start and the target (no overshoot), each tick
    multiplies the distance to the target by 0.9 (by 0.95), an interval
    that holds the target and the start holds every later value, and the
    values converge to the targets. *)
Theorem smoothing_converges (times : list R) (w : World R) (tz cz ts cs : R) :
  targetZoom w = Some tz -> currentZoom w = Some cz ->
  targetRotationSpeed w = Some ts -> currentRotationSpeed w = Some cs ->
  let n := length times in
  exists z s : R,
    (* the targets are held, the smoothed values follow the closed form *)
    targetZoom (ticks times w) = Some tz /\
    targetRotationSpeed (ticks times w) = Some ts /\
    currentZoom (ticks times w) = Some z /\
    currentRotationSpeed (ticks times w) = Some s /\
    z = tz + (cz - tz) * 0.9 ^ n /\
    s = ts + (cs - ts) * 0.95 ^ n /\
    (* from 0 towards 1 with alpha = 0.1 *)
    (tz = 1 -> cz = 0 ->
       z = 1 - 0.9 ^ n /\ z < 1 /\
       forall t, exists z', currentZoom (ticks (times ++ [t]) w) = Some z' /\
                            z' = 1 - 0.9 ^ S n /\ z < z') /\
    (* towards the target, never past it *)
    (cz <= tz -> cz <= z <= tz) /\ (tz <= cz -> tz <= z <= cz) /\
    (cs <= ts -> cs <= s <= ts) /\ (ts <= cs -> ts <= s <= cs) /\
    (* one more tick shrinks the distance to the target by 0.9, by 0.95 *)
    (forall t, exists z' s',
        currentZoom (ticks (times ++ [t]) w) = Some z' /\
        currentRotationSpeed (ticks (times ++ [t]) w) = Some s' /\
        z' = z + (tz - z) * 0.1 /\ s' = s + (ts - s) * 0.05 /\
        Rabs (tz - z') = 0.9 * Rabs (tz - z) /\
        Rabs (ts - s') = 0.95 * Rabs (ts - s)) /\
    (* an interval that holds target and current holds every later value *)
    (forall lo hi, lo <= tz <= hi -> lo <= cz <= hi -> lo <= z <= hi) /\
    (forall lo hi, lo <= ts <= hi -> lo <= cs <= hi -> lo <= s <= hi) /\
    (* convergence *)
    (forall eps, 0 < eps -> exists N : nat, forall times' : list R,
        (N <= length times')%nat ->
        exists z' s',
          currentZoom (ticks times' w) = Some z' /\
          currentRotationSpeed (ticks times' w) = Some s' /\
          Rabs (z' - tz) < eps /\ Rabs (s' - ts) < eps).
Proof.
  intros Htz Hcz Hts Hcs n.
  destruct (ticks_closed_form times w tz cz ts cs Htz Hcz Hts Hcs)
    as (E1 & E2 & E3 & E4). fold n in E3, E4.
  pose proof (pow_09_pos n) as P9. pose proof (pow_095_pos n) as P95.
  assert (Hnext : forall t,
    currentZoom (ticks (times ++ [t]) w) = Some (tz + (cz - tz) * 0.9 ^ S n) /\
    currentRotationSpeed (ticks (times ++ [t]) w) = Some (ts + (cs - ts) * 0.95 ^ S n)).
  { intros t.
    destruct (ticks_closed_form (times ++ [t]) w tz cz ts cs Htz Hcz Hts Hcs)
      as (_ & _ & F3 & F4).
    rewrite length_app in F3, F4. cbn [length] in F3, F4.
    replace (length times + 1)%nat with (S n) in F3, F4 by (subst n; lia).
    split; assumption. }
  exists (tz + (cz - tz) * 0.9 ^ n), (ts + (cs - ts) * 0.95 ^ n).
  repeat match goal with |- _ /\ _ => split end; try assumption; try reflexivity.
  - intros -> ->. repeat split; try lra.
    intros t. destruct (Hnext t) as [F3 _].
    eexists. split; [exact F3|]. cbn [pow]. split; lra.
  - apply between_closed_form, P9.
  - apply between_closed_form, P9.
  - apply between_closed_form, P95.
  - apply between_closed_form, P95.
  - intros t. destruct (Hnext t) as [F3 F4].
    eexists _, _. split; [exact F3|]. split; [exact F4|].
    cbn [pow]. repeat split; try lra.
    + replace (tz - (tz + (cz - tz) * (0.9 * 0.9 ^ n)))
        with (0.9 * (tz - (tz + (cz - tz) * 0.9 ^ n))) by lra.
      rewrite Rabs_mult, (Rabs_pos_eq 0.9) by lra. reflexivity.
    + replace (ts - (ts + (cs - ts) * (0.95 * 0.95 ^ n)))
        with (0.95 * (ts - (ts + (cs - ts) * 0.95 ^ n))) by lra.
      rewrite Rabs_mult, (Rabs_pos_eq 0.95) by lra. reflexivity.
  - intros lo hi Ht Hc.
    destruct (between_closed_form tz cz (0.9 ^ n) P9) as [A B].
    destruct (Rle_dec cz tz); [specialize (A ltac:(lra)) | specialize (B ltac:(lra))]; lra.
  - intros lo hi Ht Hc.
    destruct (between_closed_form ts cs (0.95 ^ n) P95) as [A B].
    destruct (Rle_dec cs ts); [specialize (A ltac:(lra)) | specialize (B ltac:(lra))]; lra.
  - intros eps Heps.
    destruct (geometric_vanishes 0.9 (cz - tz) eps ltac:(lra) Heps) as [N1 H1].
    destruct (geometric_vanishes 0.95 (cs - ts) eps ltac:(lra) Heps) as [N2 H2].
    exists (Nat.max N1 N2). intros times' Hlen.
    destruct (ticks_closed_form times' w tz cz ts cs Htz Hcz Hts Hcs)
      as (_ & _ & F3 & F4).
    eexists _, _. split; [exact F3|]. split; [exact F4|].
    split.
    + replace (tz + (cz - tz) * 0.9 ^ length times' - tz)
        with ((cz - tz) * 0.9 ^ length times') by lra.
      apply H1. lia.
    + replace (ts + (cs - ts) * 0.95 ^ length times' - ts)
        with ((cs - ts) * 0.95 ^ length times') by lra.
      apply H2. lia.
Qed.

Lemma smoothing_converges_witness :
  currentZoom (ticks [0; 0; 0] smoothingStart) = Some (1 - 0.9 ^ 3).
Proof.
  destruct (smoothing_converges [0; 0; 0] smoothingStart 1 0 0.05 0.002
              eq_refl eq_refl eq_refl eq_refl)
    as (z & s & _ & _ & Hz & _ & Ez & _).
  rewrite Hz, Ez. f_equal. cbn [length]. lra.
Defined.

End Smoothing.

(** ** End to end: a hand closing over 50 ticks *)

Section ClosingHand.
Local Open Scope R_scope.










End ClosingHand.

(** ** Repulsion: the displacement the vertex shader applies *)

Section Repulsion.
Local Open Scope R_scope.

Lemma sum_sq_nonneg (a b c : R) : 0 <= a * a + b * b + c * c.
Proof.
  pose proof (Rle_0_sqr a). pose proof (Rle_0_sqr b). pose proof (Rle_0_sqr c).
  unfold Rsqr in *. lra.
Qed.

Lemma distance_sq (a b : Vector3 R) :
  distance a b * distance a b =
  (x3 a - x3 b) ^ 2 + (y3 a - y3 b) ^ 2 + (z3 a - z3 b) ^ 2.
Proof.
  unfold distance, vec3_length, vec3_sub. cbn.
  rewrite sqrt_sqrt; [ring|]. apply sum_sq_nonneg.
Qed.

Lemma distance_nonneg (a b : Vector3 R) : 0 <= distance a b.
Proof. unfold distance, vec3_length. cbn. apply sqrt_pos. Qed.

Lemma norm_scale (v : Vector3 R) (s : R) :
  0 <= s -> Spec.norm (vec3_scale v s) = Spec.norm v * s.
Proof.
  intros Hs. unfold Spec.norm, vec3_scale. cbn [x3 y3 z3].
  transitivity (sqrt ((x3 v ^ 2 + y3 v ^ 2 + z3 v ^ 2) * (s * s))).
  - f_equal. cbn [jmul R_arith]. ring.
  - rewrite sqrt_mult_alt.
    + rewrite (sqrt_square s Hs). reflexivity.
    + pose proof (pow2_ge_0 (x3 v)). pose proof (pow2_ge_0 (y3 v)).
      pose proof (pow2_ge_0 (z3 v)). lra.
Qed.

Lemma repel_run (uMouse : Vector3 R) (uHover : R) (pos : Vector3 R) :
  let d := distance pos uMouse in
  repel uMouse uHover pos =
  if Rlt_dec d 4 then
    vec3_add pos
      (vec3_scale (vec3_scale (vec3_sub pos uMouse) (/ d)) (Spec.falloff d uHover))
  else pos.
Proof.
  intros d. unfold repel. fold d. cbn -[distance].
  replace (4 / 1) with 4 by lra. unfold Rlt_bool.
  destruct (Rlt_dec d 4) as [Hd|Hd]; [|reflexivity].
  unfold Spec.falloff. destruct (Rlt_dec d 4.0) as [_|Hd']; [|lra].
  unfold normalize, vec3_add, vec3_scale, vec3_sub, distance in *. cbn in *.
  fold d. f_equal; unfold Rdiv; lra.
Qed.

Lemma norm_sub_distance (a b : Vector3 R) :
  Spec.norm (vec3_sub a b) = distance a b.
Proof.
  unfold Spec.norm, distance, vec3_length, vec3_sub. cbn [x3 y3 z3].
  f_equal. cbn [jmul jadd jsub R_arith]. ring.
Qed.

Lemma norm_sub_self (v : Vector3 R) : Spec.norm (vec3_sub v v) = 0.
Proof.
  unfold Spec.norm, vec3_sub. cbn [x3 y3 z3 jsub R_arith].
  rewrite <- sqrt_0. f_equal. ring.
Qed.

Lemma vec3_add_sub (p v : Vector3 R) : vec3_sub (vec3_add p v) p = v.
Proof. destruct p, v. unfold vec3_sub, vec3_add. cbn. f_equal; lra. Qed.

Lemma falloff_inside (d uHover : R) :
  d < 4 -> Spec.falloff d uHover = (1 - d / 4) * 3 * uHover.
Proof.
  intros Hd. unfold Spec.falloff. destruct (Rlt_dec d 4.0); lra.
Qed.

Lemma falloff_outside (d uHover : R) : 4 <= d -> Spec.falloff d uHover = 0.
Proof.
  intros Hd. unfold Spec.falloff. destruct (Rlt_dec d 4.0); lra.
Qed.

(** The noise of step 1 is a shift that does not depend on the position, so
    the jittered position can be any point. *)
Lemma jitter_reaches (uTime : R) (aRandom target : Vector3 R) :
  exists position, jitter uTime position aRandom = target.
Proof.
  exists (vec3 (x3 target - sin (uTime * (5 / 10) + x3 aRandom * (10 / 1)) * (5 / 100))
               (y3 target - cos (uTime * (5 / 10) + y3 aRandom * (10 / 1)) * (5 / 100))
               (z3 target - sin (uTime * (5 / 10) + z3 aRandom * (10 / 1)) * (5 / 100))).
  destruct target as [tx ty tz]. unfold jitter. cbn. f_equal; lra.
Qed.

(** The length of the displacement of step 2, by the distance. *)
Lemma repel_norm (uMouse : Vector3 R) (uHover : R) (pos : Vector3 R) :
  let d := distance pos uMouse in
  0 < d -> 0 <= uHover ->
  Spec.norm (vec3_sub (repel uMouse uHover pos) pos) = Spec.falloff d uHover.
Proof.
  intros d Hd Hh. rewrite repel_run. fold d.
  destruct (Rlt_dec d 4) as [Hd4|Hd4].
  - rewrite vec3_add_sub, norm_scale.
    + rewrite norm_scale by (left; apply Rinv_0_lt_compat, Hd).
      rewrite norm_sub_distance. fold d. field. lra.
    + rewrite falloff_inside by exact Hd4. nra.
  - rewrite norm_sub_self, falloff_outside by lra. reflexivity.
Qed.

(** C4.  The vertex shader displaces the jittered position [pos] only when
    its distance [d] to [uMouse] is below 4: at [d >= 4] the output is
    [pos]; at [0 < d < 4] the output is [pos] plus the unit vector from
    [uMouse] towards [pos] times [(1 - d/4) * 3 * uHover], which is the
    length of the displacement when [uHover >= 0].  Over all vertices,
    that length tends to [3 * uHover] as [d] tends to 0 and stays below it
    for [uHover > 0]; it is 0 from 4 on, does not increase with [d], and
    decreases on the way to 4.  Every distance occurs. *)
Theorem repulsion_falloff (uTime uHover : R) (uMouse position aRandom : Vector3 R) :
  let pos := jitter uTime position aRandom in
  let d := distance pos uMouse in
  let out := vertexShader uTime uMouse uHover position aRandom in
  let away := vec3_scale (vec3_sub pos uMouse) (/ d) in
  (* any other vertex: how far it is from [uMouse], how far it is moved *)
  let far (uTime' : R) (position' aRandom' : Vector3 R) :=
    distance (jitter uTime' position' aRandom') uMouse in
  let moved (uTime' : R) (position' aRandom' : Vector3 R) :=
    Spec.norm (vec3_sub (vertexShader uTime' uMouse uHover position' aRandom')
                        (jitter uTime' position' aRandom')) in
  (* outside the radius: no displacement *)
  (4 <= d -> out = pos /\ Spec.norm (vec3_sub out pos) = 0) /\
  (* inside: along the unit vector away from uMouse *)
  (0 < d < 4 ->
     Spec.norm away = 1 /\
     out = vec3_add pos (vec3_scale away ((1 - d / 4.0) * 3.0 * uHover)) /\
     (0 <= uHover ->
        Spec.norm (vec3_sub out pos) = (1 - d / 4.0) * 3.0 * uHover)) /\
  (* the length of the displacement is the formula of the specification *)
  (0 < d -> 0 <= uHover -> Spec.norm (vec3_sub out pos) = Spec.falloff d uHover) /\
  (* towards the centre it tends to 3 * uHover, and stays below it *)
  (0 <= uHover -> forall eps, 0 < eps -> exists delta, 0 < delta /\
     forall uTime' position' aRandom',
       0 < far uTime' position' aRandom' < delta ->
       Rabs (moved uTime' position' aRandom' - 3.0 * uHover) < eps) /\
  (0 < d -> 0 < uHover -> Spec.norm (vec3_sub out pos) < 3.0 * uHover) /\
  (* it does not increase with the distance, and decreases inside *)
  (0 < d -> 0 <= uHover -> forall uTime' position' aRandom',
     d <= far uTime' position' aRandom' ->
     moved uTime' position' aRandom' <= Spec.norm (vec3_sub out pos)) /\
  (0 < d -> 0 < uHover -> forall uTime' position' aRandom',
     d < far uTime' position' aRandom' <= 4.0 ->
     moved uTime' position' aRandom' < Spec.norm (vec3_sub out pos)) /\
  (* every distance occurs *)
  (forall r, 0 <= r -> exists position',
     far uTime position' aRandom = r).
Proof.
  intros pos d out away far moved.
  assert (Hmoved : forall t p a, 0 < far t p a -> 0 <= uHover ->
            moved t p a = Spec.falloff (far t p a) uHover).
  { intros t p a Hf Hh. unfold moved, far, vertexShader. apply repel_norm; assumption. }
  assert (Hout : out =
    if Rlt_dec d 4 then vec3_add pos (vec3_scale away (Spec.falloff d uHover))
    else pos).
  { subst out. unfold vertexShader. fold pos. apply repel_run. }
  assert (Haway : 0 < d -> Spec.norm away = 1).
  { intros Hd. subst away. rewrite norm_scale.
    - rewrite norm_sub_distance. fold d. field. lra.
    - left. apply Rinv_0_lt_compat, Hd. }
  assert (Hlen : 0 < d -> 0 <= uHover ->
            Spec.norm (vec3_sub out pos) = Spec.falloff d uHover).
  { intros Hd Hh. exact (Hmoved uTime position aRandom Hd Hh). }
  repeat match goal with |- _ /\ _ => split end.
  - intros Hd. rewrite Hout. destruct (Rlt_dec d 4); [lra|].
    split; [reflexivity | apply norm_sub_self].
  - intros [Hd0 Hd4]. split; [exact (Haway Hd0)|].
    split.
    + rewrite Hout. destruct (Rlt_dec d 4); [|lra].
      rewrite falloff_inside by exact Hd4. f_equal; f_equal; lra.
    + intros Hh. rewrite (Hlen Hd0 Hh), falloff_inside by exact Hd4. lra.
  - exact Hlen.
  - intros Hh eps Heps.
    assert (Hq : 0 < eps / (uHover + 1)) by (apply Rdiv_lt_0_compat; lra).
    exists (Rmin 4 (eps / (uHover + 1))). split; [apply Rmin_glb_lt; lra|].
    intros t p a [Hd0 Hdelta].
    assert (Hd4 : far t p a < 4) by (eapply Rlt_le_trans; [exact Hdelta | apply Rmin_l]).
    assert (Hde : far t p a < eps / (uHover + 1))
      by (eapply Rlt_le_trans; [exact Hdelta | apply Rmin_r]).
    rewrite (Hmoved t p a Hd0 Hh), falloff_inside by exact Hd4.
    assert (Hprod : far t p a * (uHover + 1) < eps).
    { apply Rmult_lt_compat_r with (r := uHover + 1) in Hde; [|lra].
      replace (eps / (uHover + 1) * (uHover + 1)) with eps in Hde by (field; lra).
      exact Hde. }
    apply Rabs_def1; nra.
  - intros Hd0 Hh. rewrite (Hlen Hd0 (Rlt_le _ _ Hh)).
    destruct (Rlt_dec d 4) as [Hd4|Hd4].
    + rewrite falloff_inside by exact Hd4. nra.
    + rewrite falloff_outside by lra. lra.
  - intros Hd0 Hh t p a Hfar.
    rewrite (Hlen Hd0 Hh), (Hmoved t p a) by lra.
    destruct (Rlt_dec (far t p a) 4) as [Hlt|Hge].
    + rewrite !falloff_inside by lra. nra.
    + rewrite (falloff_outside (far t p a)) by lra.
      destruct (Rlt_dec d 4) as [Hlt1|Hge1].
      * rewrite falloff_inside by lra. nra.
      * rewrite falloff_outside by lra. lra.
  - intros Hd0 Hh t p a [Hfar Hfar4].
    rewrite (Hlen Hd0 (Rlt_le _ _ Hh)), (Hmoved t p a) by lra.
    rewrite (falloff_inside d) by lra.
    destruct (Rlt_dec (far t p a) 4) as [Hlt|Hge].
    + rewrite falloff_inside by lra. nra.
    + rewrite falloff_outside by lra. nra.
  - intros r Hr.
    destruct (jitter_reaches uTime aRandom
                (vec3 (x3 uMouse + r) (y3 uMouse) (z3 uMouse))) as [p Hp].
    exists p. unfold far. rewrite Hp.
    unfold distance, vec3_length, vec3_sub. cbn.
    apply sqrt_of_square; [exact Hr | lra].
Qed.

(** A vertex one unit from [uMouse], with the repulsion on: it is pushed
    2.25 further along the same direction. *)
Lemma repulsion_falloff_witness :
  vertexShader 0 (vec3 0 0 0) 1 (vec3 1 (-0.05) 0) (vec3 0 0 0) = vec3 3.25 0 0.
Proof.
  assert (Hpos : jitter 0 (vec3 1 (-0.05) 0) (vec3 0 0 0) = vec3 1 0 0).
  { unfold jitter. cbn.
    replace (0 * (5 / 10) + 0 * (10 / 1)) with 0 by lra.
    rewrite sin_0, cos_0. f_equal; lra. }
  assert (Hd : distance (vec3 1 0 0) (vec3 0 0 0) = 1).
  { unfold distance, vec3_length, vec3_sub. cbn. apply sqrt_of_square; lra. }
  pose proof (repulsion_falloff 0 1 (vec3 0 0 0) (vec3 1 (-0.05) 0) (vec3 0 0 0))
    as Hthm.
  cbn zeta in Hthm. rewrite Hpos, Hd in Hthm.
  destruct Hthm as (_ & Hin & _).
  destruct (Hin ltac:(lra)) as (_ & -> & _).
  unfold vec3_add, vec3_scale, vec3_sub. cbn. f_equal; lra.
Defined.

(** C4, as stated, fails at [d = 0]: a vertex that the noise puts exactly
    on [uMouse] has no direction to be pushed along, and it is not moved:
    the length of its displacement is 0, not [3 * uHover]. *)
Lemma repulsion_at_centre :
  let uMouse := vec3 0 0.05 0 in
  let pos := jitter 0 (vec3 0 0 0) (vec3 0 0 0) in
  let out := vertexShader 0 uMouse 1 (vec3 0 0 0) (vec3 0 0 0) in
  distance pos uMouse = 0 /\
  out = pos /\
  Spec.norm (vec3_sub out pos) <> 3.0 * 1.
Proof.
  assert (Hpos : jitter 0 (vec3 0 0 0) (vec3 0 0 0) = vec3 0 0.05 0).
  { unfold jitter. cbn.
    replace (0 * (5 / 10) + 0 * (10 / 1)) with 0 by lra.
    rewrite sin_0, cos_0. f_equal; lra. }
  cbn zeta. unfold vertexShader. rewrite Hpos.
  assert (Hd : distance (vec3 0 0.05 0) (vec3 0 0.05 0) = 0).
  { rewrite <- norm_sub_distance. apply norm_sub_self. }
  assert (Hout : repel (vec3 0 0.05 0) 1 (vec3 0 0.05 0) = vec3 0 0.05 0).
  { rewrite repel_run, Hd. destruct (Rlt_dec 0 4); [|reflexivity].
    unfold vec3_add, vec3_scale, vec3_sub. cbn. f_equal; lra. }
  rewrite Hout. split; [exact Hd|]. split; [reflexivity|].
  rewrite norm_sub_self. lra.
Qed.

End Repulsion.

(** ** Particle layout: what [createParticles] stores *)

Section Layout.
Local Open Scope R_scope.
Variable rand : nat -> R.
Variable cfg : Config R.

Lemma write3_length idx x y z l : length (write3 idx x y z l) = length l.
Proof. unfold write3. by rewrite !length_insert. Qed.

Lemma write3_lookup idx x y z l :
  (idx + 2 < length l)%nat ->
  write3 idx x y z l !! idx = Some x /\
  write3 idx x y z l !! (idx + 1)%nat = Some y /\
  write3 idx x y z l !! (idx + 2)%nat = Some z.
Proof.
  intros Hl. unfold write3. repeat split.
  - rewrite !list_lookup_insert_ne by lia. apply list_lookup_insert_eq. lia.
  - rewrite list_lookup_insert_ne by lia. apply list_lookup_insert_eq.
    rewrite length_insert. lia.
  - apply list_lookup_insert_eq. rewrite !length_insert. lia.
Qed.

Lemma write3_other idx x y z l j :
  (j < idx \/ idx + 3 <= j)%nat -> write3 idx x y z l !! j = l !! j.
Proof. intros Hj. unfold write3. by rewrite !list_lookup_insert_ne by lia. Qed.

Lemma fill_randoms_positions idx b :
  positions (fill_randoms rand idx b) = positions b /\
  drawn (fill_randoms rand idx b) = (drawn b + 3)%nat.
Proof. unfold fill_randoms, random, set_random. cbn. split; [reflexivity | lia]. Qed.

Lemma sphereParticle_run i b :
  positions (sphereParticle rand cfg i b) =
    write3 (i * 3) (Spec.spherePoint cfg i).1.1 (Spec.spherePoint cfg i).1.2 (Spec.spherePoint cfg i).2 (positions b) /\
  drawn (sphereParticle rand cfg i b) = (drawn b + 3)%nat.
Proof.
  unfold sphereParticle.
  match goal with |- context [fill_randoms rand ?i ?b] =>
    destruct (fill_randoms_positions i b) as [-> ->] end.
  unfold set_position, write3, Spec.spherePoint, num_of_nat. cbn.
  rewrite <- INR_IZR_INZ. split; [|reflexivity].
  repeat f_equal; lra.
Qed.

Lemma ringParticle_run off i b :
  let p := Spec.ringPoint cfg (rand (drawn b)) (rand (drawn b + 1)) (rand (drawn b + 2)) in
  positions (ringParticle rand cfg off i b) =
    write3 (off + i * 3) p.1.1 p.1.2 p.2 (positions b) /\
  drawn (ringParticle rand cfg off i b) = (drawn b + 6)%nat.
Proof.
  unfold ringParticle, random. cbn [drawn positions randoms].
  match goal with |- context [fill_randoms rand ?i ?b] =>
    destruct (fill_randoms_positions i b) as [-> ->] end.
  unfold set_position, write3, Spec.ringPoint. cbn.
  replace (S (drawn b)) with (drawn b + 1)%nat by lia.
  replace (S (drawn b + 1)) with (drawn b + 2)%nat by lia.
  split; [|lia].
  repeat f_equal; lra.
Qed.

(** The first loop: after [n] particles. *)
Lemma sphere_loop n b :
  let b' := for_loop n (sphereParticle rand cfg) b in
  length (positions b') = length (positions b) /\
  drawn b' = (drawn b + 3 * n)%nat /\
  (forall i, (i < n)%nat -> (i * 3 + 2 < length (positions b))%nat ->
     positions b' !! (i * 3)%nat = Some (Spec.spherePoint cfg i).1.1 /\
     positions b' !! (i * 3 + 1)%nat = Some (Spec.spherePoint cfg i).1.2 /\
     positions b' !! (i * 3 + 2)%nat = Some (Spec.spherePoint cfg i).2) /\
  (forall j, (n * 3 <= j)%nat -> positions b' !! j = positions b !! j).
Proof.
  induction n as [|n IH]; cbn [for_loop].
  - repeat split; intros; solve [lia | reflexivity].
  - destruct IH as (Hlen & Hdr & Hin & Hout).
    destruct (sphereParticle_run n (for_loop n (sphereParticle rand cfg) b))
      as [-> ->].
    rewrite write3_length.
    repeat match goal with |- _ /\ _ => split end.
    + exact Hlen.
    + lia.
    + intros i Hi Hl. destruct (decide (i = n)) as [->|Hne].
      * apply write3_lookup. lia.
      * rewrite !write3_other by lia. apply Hin; lia.
    + intros j Hj. rewrite write3_other by lia. apply Hout. lia.
Qed.

(** The second loop: after [n] particles, writing from [off]. *)
Lemma ring_loop off n b :
  let b' := for_loop n (ringParticle rand cfg off) b in
  length (positions b') = length (positions b) /\
  drawn b' = (drawn b + 6 * n)%nat /\
  (forall i, (i < n)%nat -> (off + i * 3 + 2 < length (positions b))%nat ->
     let d := (drawn b + 6 * i)%nat in
     let p := Spec.ringPoint cfg (rand d) (rand (d + 1)) (rand (d + 2)) in
     positions b' !! (off + i * 3)%nat = Some p.1.1 /\
     positions b' !! (off + i * 3 + 1)%nat = Some p.1.2 /\
     positions b' !! (off + i * 3 + 2)%nat = Some p.2) /\
  (forall j, (j < off)%nat -> positions b' !! j = positions b !! j).
Proof.
  induction n as [|n IH]; cbn [for_loop].
  - repeat split; intros; solve [lia | reflexivity].
  - destruct IH as (Hlen & Hdr & Hin & Hout).
    destruct (ringParticle_run off n (for_loop n (ringParticle rand cfg off) b))
      as [-> ->].
    rewrite write3_length.
    repeat match goal with |- _ /\ _ => split end.
    + exact Hlen.
    + lia.
    + intros i Hi Hl. destruct (decide (i = n)) as [->|Hne].
      * rewrite Hdr. apply write3_lookup. lia.
      * cbn zeta. rewrite !write3_other by lia. apply Hin; lia.
    + intros j Hj. rewrite write3_other by lia. apply Hout. lia.
Qed.

Lemma createParticles_run :
  let sphere := Z.to_nat (particleCountSphere cfg) in
  let ring := Z.to_nat (particleCountRing cfg) in
  let b := createParticles rand cfg in
  length (positions b) = ((sphere + ring) * 3)%nat /\
  (forall i, (i < sphere)%nat ->
     positions b !! (i * 3)%nat = Some (Spec.spherePoint cfg i).1.1 /\
     positions b !! (i * 3 + 1)%nat = Some (Spec.spherePoint cfg i).1.2 /\
     positions b !! (i * 3 + 2)%nat = Some (Spec.spherePoint cfg i).2) /\
  (forall i, (i < ring)%nat ->
     let d := (3 * sphere + 6 * i)%nat in
     let p := Spec.ringPoint cfg (rand d) (rand (d + 1)) (rand (d + 2)) in
     positions b !! (sphere * 3 + i * 3)%nat = Some p.1.1 /\
     positions b !! (sphere * 3 + i * 3 + 1)%nat = Some p.1.2 /\
     positions b !! (sphere * 3 + i * 3 + 2)%nat = Some p.2).
Proof.
  intros sphere ring b. subst b. unfold createParticles. fold sphere ring.
  set (b0 := mkBuffers _ _ _).
  assert (Hb0 : length (positions b0) = ((sphere + ring) * 3)%nat)
    by (subst b0; cbn [positions]; apply length_replicate).
  destruct (sphere_loop sphere b0) as (Hlen1 & Hdr1 & Hin1 & _).
  set (b1 := for_loop sphere (sphereParticle rand cfg) b0) in *.
  destruct (ring_loop (sphere * 3) ring b1) as (Hlen2 & Hdr2 & Hin2 & Hout2).
  set (b2 := for_loop ring (ringParticle rand cfg (sphere * 3)) b1) in *.
  repeat match goal with |- _ /\ _ => split end.
  - lia.
  - intros i Hi. rewrite !Hout2 by lia. apply Hin1; lia.
  - intros i Hi. cbn zeta.
    replace (3 * sphere + 6 * i)%nat with (drawn b1 + 6 * i)%nat
      by (rewrite Hdr1; subst b0; cbn [drawn]; lia).
    apply Hin2; lia.
Qed.

End Layout.

Section LayoutClaims.
Local Open Scope R_scope.

(** C7.  Sphere particle [i] is stored at [positions[3i .. 3i+2]] as
    [(R cos(theta) sin(phi), R sin(theta) sin(phi), R cos(phi))] with
    [phi = acos(-1 + 2i/Ns)] and [theta = sqrt(Ns * pi) * phi]; the point
    is at distance [R] from the origin, and it is the same whatever
    [Math.random()] returns. *)
Theorem sphere_particles_on_sphere (rand rand' : nat -> R) (cfg : Config R)
  (i : nat) :
  (i < Z.to_nat (particleCountSphere cfg))%nat ->
  let Ns := IZR (particleCountSphere cfg) in
  let radius := planetRadius cfg in
  let phi := acos (- 1 + 2 * INR i / Ns) in
  let theta := sqrt (Ns * PI) * phi in
  let x := radius * cos theta * sin phi in
  let y := radius * sin theta * sin phi in
  let z := radius * cos phi in
  let b := createParticles rand cfg in
  let b' := createParticles rand' cfg in
  positions b !! (i * 3)%nat = Some x /\
  positions b !! (i * 3 + 1)%nat = Some y /\
  positions b !! (i * 3 + 2)%nat = Some z /\
  x ^ 2 + y ^ 2 + z ^ 2 = radius ^ 2 /\
  sqrt (x ^ 2 + y ^ 2 + z ^ 2) = Rabs radius /\
  positions b' !! (i * 3)%nat = positions b !! (i * 3)%nat /\
  positions b' !! (i * 3 + 1)%nat = positions b !! (i * 3 + 1)%nat /\
  positions b' !! (i * 3 + 2)%nat = positions b !! (i * 3 + 2)%nat.
Proof.
  intros Hi Ns radius phi theta x y z b b'.
  destruct (createParticles_run rand cfg) as (_ & Hs & _).
  destruct (createParticles_run rand' cfg) as (_ & Hs' & _).
  destruct (Hs i Hi) as (Hx & Hy & Hz).
  destruct (Hs' i Hi) as (Hx' & Hy' & Hz').
  fold b in Hx, Hy, Hz. fold b' in Hx', Hy', Hz'.
  assert (Hsq : x ^ 2 + y ^ 2 + z ^ 2 = radius ^ 2).
  { subst x y z.
    pose proof (sin2_cos2 theta) as Ht. pose proof (sin2_cos2 phi) as Hp.
    unfold Rsqr in Ht, Hp.
    replace ((radius * cos theta * sin phi) ^ 2 + (radius * sin theta * sin phi) ^ 2
             + (radius * cos phi) ^ 2)
      with (radius ^ 2 * ((sin theta * sin theta + cos theta * cos theta)
                          * (sin phi * sin phi) + cos phi * cos phi)) by ring.
    rewrite Ht, Rmult_1_l, Hp. ring. }
  repeat match goal with |- _ /\ _ => split end.
  - rewrite Hx. reflexivity.
  - rewrite Hy. reflexivity.
  - rewrite Hz. reflexivity.
  - exact Hsq.
  - rewrite Hsq. replace (radius ^ 2) with (Rsqr radius) by (unfold Rsqr; ring).
    apply sqrt_Rsqr_abs.
  - rewrite Hx, Hx'. reflexivity.
  - rewrite Hy, Hy'. reflexivity.
  - rewrite Hz, Hz'. reflexivity.
Qed.

Lemma sphere_particles_on_sphere_witness :
  exists x y z : R,
    positions (createParticles (fun _ => 0.5) CONFIG) !! (3 * 3)%nat = Some x /\
    positions (createParticles (fun _ => 0.5) CONFIG) !! (3 * 3 + 1)%nat = Some y /\
    positions (createParticles (fun _ => 0.5) CONFIG) !! (3 * 3 + 2)%nat = Some z /\
    x ^ 2 + y ^ 2 + z ^ 2 = 25.
Proof.
  assert (Hi : (3 < Z.to_nat (particleCountSphere (CONFIG (num := R))))%nat)
    by (cbn [particleCountSphere CONFIG]; lia).
  destruct (sphere_particles_on_sphere (fun _ => 0.5) (fun _ => 0) CONFIG 3 Hi)
    as (Hx & Hy & Hz & Hsq & _).
  eexists _, _, _. split; [exact Hx|]. split; [exact Hy|]. split; [exact Hz|].
  rewrite Hsq. cbn [planetRadius CONFIG dec R_arith]. lra.
Defined.

(** C8.  Ring particle [j] is stored after the sphere particles as
    [(r cos(angle), yoff, r sin(angle))], from the three draws [u], [u'],
    [v] that [Math.random()] returns for it.  Whatever these values in
    [0, 1) are: [r = sqrt(u' (Ro^2 - Ri^2) + Ri^2)] lies between [Ri] and
    [Ro], its square is affine in the draw (uniform on [Ri^2, Ro^2] when
    the draw is uniform), the angle [u * pi * 2] lies in [0, 2 pi), and
    the offset [(v - 0.5) * 0.2] in [-0.1, 0.1]. *)
Theorem ring_particles_in_annulus (rand : nat -> R) (cfg : Config R) (j : nat) :
  (forall k, 0 <= rand k < 1) ->
  0 <= ringInnerRadius cfg <= ringOuterRadius cfg ->
  (j < Z.to_nat (particleCountRing cfg))%nat ->
  let sphere := Z.to_nat (particleCountSphere cfg) in
  let Ri := ringInnerRadius cfg in
  let Ro := ringOuterRadius cfg in
  let d := (3 * sphere + 6 * j)%nat in
  let u := rand d in
  let u' := rand (d + 1)%nat in
  let v := rand (d + 2)%nat in
  let angle := u * PI * 2 in
  let r := sqrt (u' * (Ro * Ro - Ri * Ri) + Ri * Ri) in
  let yoff := (v - 0.5) * 0.2 in
  let idx := (sphere * 3 + j * 3)%nat in
  let b := createParticles rand cfg in
  positions b !! idx = Some (r * cos angle) /\
  positions b !! (idx + 1)%nat = Some yoff /\
  positions b !! (idx + 2)%nat = Some (r * sin angle) /\
  Ri <= r <= Ro /\
  r * r = Ri * Ri + u' * (Ro * Ro - Ri * Ri) /\
  Ri * Ri <= r * r <= Ro * Ro /\
  (r * cos angle) ^ 2 + (r * sin angle) ^ 2 = r * r /\
  0 <= angle < 2 * PI /\
  - 0.1 <= yoff <= 0.1.
Proof.
  intros Hrand HR Hj sphere Ri Ro d u u' v angle r yoff idx b.
  destruct (createParticles_run rand cfg) as (_ & _ & Hring).
  destruct (Hring j Hj) as (Hx & Hy & Hz).
  pose proof (Hrand d) as Hu. pose proof (Hrand (d + 1)%nat) as Hu'.
  pose proof (Hrand (d + 2)%nat) as Hv. fold u in Hu. fold u' in Hu'. fold v in Hv.
  fold Ri Ro in HR.
  assert (HD : 0 <= Ro * Ro - Ri * Ri) by nra.
  pose proof (Rmult_le_pos u' _ ltac:(lra) HD) as Hlo.
  pose proof (Rmult_le_pos (1 - u') _ ltac:(lra) HD) as Hhi.
  assert (Hsum : Ri * Ri <= u' * (Ro * Ro - Ri * Ri) + Ri * Ri <= Ro * Ro) by lra.
  assert (Hrr : r * r = u' * (Ro * Ro - Ri * Ri) + Ri * Ri).
  { subst r. apply sqrt_sqrt. pose proof (Rle_0_sqr Ri) as Hq. unfold Rsqr in Hq. lra. }
  assert (Hr : Ri <= r <= Ro).
  { split.
    - rewrite <- (sqrt_square Ri) by lra. apply sqrt_le_1_alt. lra.
    - rewrite <- (sqrt_square Ro) by lra. apply sqrt_le_1_alt. lra. }
  pose proof PI_RGT_0 as Hpi.
  repeat match goal with |- _ /\ _ => split end.
  - exact Hx.
  - exact Hy.
  - exact Hz.
  - apply Hr.
  - apply Hr.
  - lra.
  - lra.
  - lra.
  - pose proof (sin2_cos2 angle) as Ha. unfold Rsqr in Ha.
    replace ((r * cos angle) ^ 2 + (r * sin angle) ^ 2)
      with (r * r * (sin angle * sin angle + cos angle * cos angle)) by ring.
    rewrite Ha. ring.
  - subst angle. nra.
  - subst angle. nra.
  - subst yoff. lra.
  - subst yoff. lra.
Qed.

Lemma ring_particles_in_annulus_witness :
  let sphere := Z.to_nat (particleCountSphere (CONFIG (num := R))) in
  let r := sqrt (0.5 * (12 / 1 * (12 / 1) - 7 / 1 * (7 / 1)) + 7 / 1 * (7 / 1)) in
  positions (createParticles (fun _ => 0.5) CONFIG) !! (sphere * 3 + 0 * 3 + 1)%nat
    = Some ((0.5 - 0.5) * 0.2) /\
  7 / 1 <= r <= 12 / 1.
Proof.
  assert (Hj : (0 < Z.to_nat (particleCountRing (CONFIG (num := R))))%nat)
    by (cbn [particleCountRing CONFIG]; lia).
  assert (HR : 0 <= ringInnerRadius (CONFIG (num := R))
               <= ringOuterRadius (CONFIG (num := R)))
    by (cbn [ringInnerRadius ringOuterRadius CONFIG dec R_arith]; lra).
  destruct (ring_particles_in_annulus (fun _ => 0.5) CONFIG 0
              (fun _ => ltac:(lra)) HR Hj)
    as (_ & Hy & _ & Hr & _).
  split; [exact Hy | exact Hr].
Defined.

End LayoutClaims.

(** ** Frame loop: when detection is invoked *)

Section FrameLoop.
Local Open Scope R_scope.

Lemma keeps_ret {A : Type} (a : A) : keeps_loop_state (ret a).
Proof. intros w. cbn. repeat split. Qed.

Lemma keeps_throw {A : Type} (e : string) : keeps_loop_state (throw (A := A) e).
Proof. intros w. cbn. repeat split. Qed.

Lemma keeps_modify (f : World R -> World R) :
  keeps_loop_state_fun f -> keeps_loop_state (modify f).
Proof. intros Hf w. cbn. apply Hf. Qed.

Lemma keeps_bind {A B : Type} (m : JS R A) (k : A -> JS R B) :
  keeps_loop_state m -> (forall a, keeps_loop_state (k a)) ->
  keeps_loop_state (bind m k).
Proof.
  intros Hm Hk w. unfold bind. specialize (Hm w).
  destruct (m w) as [[a|e] w1]; cbn [snd] in *.
  - specialize (Hk a w1).
    destruct Hm as (M1 & M2 & M3 & M4 & M5 & M6).
    destruct Hk as (K1 & K2 & K3 & K4 & K5 & K6).
    repeat split; congruence.
  - exact Hm.
Qed.

Lemma keeps_prop {A B : Type} (f : A -> B) (o : option A) :
  keeps_loop_state (prop f o).
Proof. destruct o; [apply keeps_ret | apply keeps_throw]. Qed.

Lemma keeps_draw (ops : list (CanvasOp R)) : keeps_loop_state (draw ops).
Proof. apply keeps_modify. intros w. repeat split. Qed.

Lemma keeps_for_of {A : Type} (l : list A) (body : A -> JS R unit) :
  (forall a, keeps_loop_state (body a)) -> keeps_loop_state (for_of l body).
Proof.
  intros Hb. induction l as [|a l IH]; cbn [for_of].
  - apply keeps_ret.
  - apply keeps_bind; [apply Hb | intros _; exact IH].
Qed.

Ltac keeps :=
  repeat first
    [ apply keeps_ret | apply keeps_throw | apply keeps_draw | apply keeps_prop
    | apply keeps_bind; [|intros ?]
    | apply keeps_for_of; intros ?
    | match goal with
      | |- keeps_loop_state (if ?c then _ else _) => destruct c
      | |- keeps_loop_state (modify _) =>
          apply keeps_modify; intros ?; repeat split
      end ].

Lemma keeps_drawHand ext hand : keeps_loop_state (drawHand ext hand).
Proof.
  unfold drawHand. destruct (HAND_CONNECTIONS ext); keeps.
Qed.

Lemma keeps_onHand ext hand : keeps_loop_state (onHand ext hand).
Proof.
  unfold onHand, dist.
  apply keeps_bind; [apply keeps_drawHand | intros _].
  keeps.
Qed.

Lemma keeps_onResults ext results : keeps_loop_state (onResults ext results).
Proof.
  unfold onResults.
  apply keeps_bind; [apply keeps_draw | intros _].
  apply keeps_bind; [|intros _; apply keeps_draw].
  destruct (landmarks results) as [[|hand hands]|]; [keeps | | keeps].
  apply keeps_bind; [apply keeps_draw | intros _].
  apply keeps_for_of. intros h. apply keeps_onHand.
Qed.

Lemma predictWebcam_head (ext : Externals R) (currentTime now : R) (w : World R) :
  let w0 := if webcamRunning w then requestAnimationFrame CbPredictWebcam w else w in
  predictWebcam ext currentTime now w =
  when (currentTime !== lastVideoTime w)%js
    (bind (modify (set_lastVideoTime currentTime)) (fun _ =>
     bind (gets handLandmarker) (fun loaded =>
     when loaded
       (try_catch
          (bind (detect ext currentTime now) (fun results => onResults ext results))
          (fun err => modify (console_error ("Detection error: " +:+ err))))))) w0.
Proof.
  intros w0. unfold predictWebcam.
  unfold bind at 1, gets at 1. unfold bind at 1.
  assert (Hwhen : when (webcamRunning w) (modify (requestAnimationFrame CbPredictWebcam)) w
                  = (Normal tt, w0)).
  { subst w0. unfold when. destruct (webcamRunning w); reflexivity. }
  rewrite Hwhen. unfold bind at 1, gets at 1.
  replace (lastVideoTime w0) with (lastVideoTime w)
    by (subst w0; destruct (webcamRunning w); reflexivity).
  reflexivity.
Qed.

(** An iteration on the frame already processed: nothing but the next
    animation-frame request. *)
Lemma predictWebcam_same (ext : Externals R) (currentTime now : R) (w : World R) :
  currentTime = lastVideoTime w ->
  predictWebcam ext currentTime now w =
  (Normal tt,
   if webcamRunning w then requestAnimationFrame CbPredictWebcam w else w).
Proof.
  intros Heq. rewrite predictWebcam_head. cbn [jsame R_arith].
  rewrite Heq, Req_bool_true. reflexivity.
Qed.

(** An iteration on a new frame. *)
Lemma predictWebcam_new (ext : Externals R) (currentTime now : R) (w : World R) :
  currentTime <> lastVideoTime w ->
  exists w',
    predictWebcam ext currentTime now w = (Normal tt, w') /\
    lastVideoTime w' = currentTime /\
    handLandmarker w' = handLandmarker w /\
    webcamRunning w' = webcamRunning w /\
    detectLog w' =
      if handLandmarker w then detectLog w ++ [currentTime] else detectLog w.
Proof.
  intros Hne. rewrite predictWebcam_head. cbn [jsame R_arith].
  rewrite Req_bool_false by exact Hne. cbn [negb when].
  set (w0 := if webcamRunning w then requestAnimationFrame CbPredictWebcam w else w).
  assert (Hw0 : handLandmarker w0 = handLandmarker w
                /\ webcamRunning w0 = webcamRunning w /\ detectLog w0 = detectLog w).
  { subst w0. destruct (webcamRunning w) eqn:E; repeat split; exact E. }
  destruct Hw0 as (Hh0 & Hr0 & Hd0).
  unfold bind at 1, modify at 1. unfold bind at 1, gets at 1.
  cbn [handLandmarker set_lastVideoTime]. rewrite Hh0.
  destruct (handLandmarker w) eqn:Hh; cbn [when].
  - unfold try_catch, bind at 1, detect.
    destruct (detectForVideo ext currentTime now) as [results|e].
    + set (w1 := set_detectLog _ _).
      assert (Hw1 : lastVideoTime w1 = currentTime /\ handLandmarker w1 = true /\
                    webcamRunning w1 = webcamRunning w /\
                    detectLog w1 = detectLog w ++ [currentTime]).
      { subst w1. cbn. rewrite Hd0. repeat split; assumption. }
      destruct Hw1 as (L1 & L2 & L3 & L4).
      destruct (keeps_onResults ext results w1) as (K1 & K2 & K3 & K4 & K5 & K6).
      destruct (onResults ext results w1) as [[[]|e] w2]; cbn [fst snd] in *.
      * exists w2. repeat split; congruence.
      * eexists. split; [reflexivity|]. cbn. repeat split; congruence.
    + eexists. split; [reflexivity|]. cbn. rewrite Hd0. repeat split; assumption.
  - eexists. split; [reflexivity|]. cbn. repeat split; assumption.
Qed.

Lemma noRepeat_nil : noRepeat [].
Proof. intros i a b H. discriminate. Qed.

Lemma noRepeat_snoc (l : list R) (t : R) :
  noRepeat l -> (forall a, last l = Some a -> a <> t) -> noRepeat (l ++ [t]).
Proof.
  intros Hl Hlast i a b Ha Hb.
  destruct (decide (S i < length l)%nat) as [Hi|Hi].
  - rewrite lookup_app_l in Ha, Hb by lia. eauto.
  - assert (Hlen : (S i < length (l ++ [t]))%nat) by (eapply lookup_lt_Some; eauto).
    rewrite length_app in Hlen. cbn in Hlen.
    assert (S i = length l) as Hi' by lia.
    rewrite lookup_app_l in Ha by lia.
    rewrite lookup_app_r in Hb by lia.
    replace (S i - length l)%nat with 0%nat in Hb by lia. injection Hb as <-.
    apply Hlast. rewrite last_lookup.
    replace (Nat.pred (length l)) with i by lia. exact Ha.
Qed.

Lemma frameLoop_cons (ext : Externals R) (t now : R) (frames : list (R * R)) (w : World R) :
  frameLoop ext ((t, now) :: frames) w =
  frameLoop ext frames (snd (predictWebcam ext t now w)).
Proof. reflexivity. Qed.

Lemma frameLoop_unloaded (ext : Externals R) (frames : list (R * R)) (w : World R) :
  handLandmarker w = false ->
  detectLog (frameLoop ext frames w) = detectLog w.
Proof.
  revert w. induction frames as [|[t now] frames IH]; intros w Hh; [reflexivity|].
  rewrite frameLoop_cons.
  destruct (Req_dec_T t (lastVideoTime w)) as [Heq|Hne].
  - rewrite (predictWebcam_same ext t now w Heq). cbn [snd].
    rewrite IH; destruct (webcamRunning w); try reflexivity; exact Hh.
  - destruct (predictWebcam_new ext t now w Hne) as (w' & -> & _ & Hh' & _ & Hd).
    cbn [snd]. rewrite IH by congruence. rewrite Hd, Hh. reflexivity.
Qed.

Lemma frameLoop_noRepeat (ext : Externals R) (frames : list (R * R)) (w : World R) :
  noRepeat (detectLog w) ->
  (forall a, last (detectLog w) = Some a -> a = lastVideoTime w) ->
  noRepeat (detectLog (frameLoop ext frames w)).
Proof.
  destruct (handLandmarker w) eqn:Hh;
    [|intros Hn _; rewrite frameLoop_unloaded by exact Hh; exact Hn].
  revert w Hh. induction frames as [|[t now] frames IH]; intros w Hh Hn Hlast;
    [exact Hn|].
  rewrite frameLoop_cons.
  destruct (Req_dec_T t (lastVideoTime w)) as [Heq|Hne].
  - rewrite (predictWebcam_same ext t now w Heq). cbn [snd].
    apply IH; destruct (webcamRunning w); assumption.
  - destruct (predictWebcam_new ext t now w Hne) as (w' & -> & Hl & Hh' & _ & Hd).
    cbn [snd]. rewrite Hh in Hd. apply IH.
    + congruence.
    + rewrite Hd. apply noRepeat_snoc; [exact Hn|].
      intros a Ha ->. apply Hne, Hlast, Ha.
    + intros a. rewrite Hd, last_snoc, Hl. congruence.
Qed.

Lemma frameLoop_increasing (ext : Externals R) (frames : list (R * R)) (w : World R) :
  nondecreasing_from (lastVideoTime w) (map fst frames) ->
  StronglySorted Rlt (detectLog w) ->
  Forall (fun a => a <= lastVideoTime w) (detectLog w) ->
  StronglySorted Rlt (detectLog (frameLoop ext frames w)).
Proof.
  destruct (handLandmarker w) eqn:Hh;
    [|intros _ Hs _; rewrite frameLoop_unloaded by exact Hh; exact Hs].
  revert w Hh. induction frames as [|[t now] frames IH]; intros w Hh Hmono Hs Hle;
    [exact Hs|].
  rewrite frameLoop_cons. cbn [map fst nondecreasing_from] in Hmono.
  destruct Hmono as [Ht Hmono].
  destruct (Req_dec_T t (lastVideoTime w)) as [Heq|Hne].
  - rewrite (predictWebcam_same ext t now w Heq). cbn [snd].
    apply IH; destruct (webcamRunning w); try assumption; cbn; congruence.
  - destruct (predictWebcam_new ext t now w Hne) as (w' & -> & Hl & Hh' & _ & Hd).
    cbn [snd]. rewrite Hh in Hd.
    assert (Hlt : lastVideoTime w < t)
      by (destruct Ht as [Ht|Ht]; [exact Ht | congruence]).
    apply IH.
    + congruence.
    + rewrite Hl. exact Hmono.
    + rewrite Hd. clear -Hs Hle Hlt.
      induction Hs as [|a l Hs IHs Ha]; cbn.
      * repeat constructor.
      * inversion Hle as [|? ? Hale Hle']; subst.
        constructor; [apply IHs, Hle'|].
        apply Forall_app. split; [exact Ha|]. repeat constructor.
        eapply Rle_lt_trans; [exact Hale | exact Hlt].
    + rewrite Hd, Hl. apply Forall_app. split.
      * eapply Forall_impl; [exact Hle|]. cbn. intros a Ha. lra.
      * constructor; [lra | constructor].
Qed.

Lemma StronglySorted_Rlt_NoDup (l : list R) : StronglySorted Rlt l -> NoDup l.
Proof.
  induction 1 as [|a l Hs IH Ha]; constructor; [|exact IH].
  intros Hin. rewrite Forall_forall in Ha. specialize (Ha a Hin). lra.
Qed.

(** C9, as the program behaves.  In script.js, an iteration of
    [predictWebcam] while the video still shows the frame last processed
    ([currentTime = lastVideoTime]) makes no detect call and changes no
    gesture state: it only requests the next animation frame.  On a new
    frame it records the time and, when the landmarker is loaded, calls
    detect exactly once.  Over the whole loop no two consecutive detect
    calls carry the same time, and when the video time never goes back
    every time is detected at most once.  The loop of the legacy build,
    [sendFrame], has no such check: it sends the frame whenever
    [readyState >= 2]. *)
Theorem predictWebcam_once_per_frame (ext : Externals R) (currentTime now : R)
  (w : World R) (frames : list (R * R)) :
  let result := predictWebcam ext currentTime now w in
  let w' := snd result in
  (* an iteration on the frame already processed *)
  (currentTime = lastVideoTime w ->
     fst result = Normal tt /\
     detectLog w' = detectLog w /\
     lastVideoTime w' = lastVideoTime w /\
     uMouse w' = uMouse w /\ uHover w' = uHover w /\ mouse w' = mouse w /\
     targetZoom w' = targetZoom w /\ currentZoom w' = currentZoom w /\
     targetRotationSpeed w' = targetRotationSpeed w /\
     currentRotationSpeed w' = currentRotationSpeed w /\
     cameraPosition w' = cameraPosition w /\ rotationY w' = rotationY w /\
     uTime w' = uTime w /\
     canvas w' = canvas w /\ console w' = console w) /\
  (* an iteration on a new frame *)
  (currentTime <> lastVideoTime w ->
     fst result = Normal tt /\
     lastVideoTime w' = currentTime /\
     detectLog w' =
       if handLandmarker w then detectLog w ++ [currentTime] else detectLog w) /\
  (* the whole loop *)
  noRepeat (detectLog (frameLoop ext frames startedWorld)) /\
  (nondecreasing_from (-1) (map fst frames) ->
     StronglySorted Rlt (detectLog (frameLoop ext frames startedWorld)) /\
     NoDup (detectLog (frameLoop ext frames startedWorld))) /\
  (* the legacy loop *)
  (forall readyState : Z,
     detectLog (Legacy.sendFrame readyState currentTime w) =
       if (2 <=? readyState)%Z then detectLog w ++ [currentTime] else detectLog w).
Proof.
  intros result w'. subst w' result.
  repeat match goal with |- _ /\ _ => split end.
  - intros Heq. rewrite (predictWebcam_same ext currentTime now w Heq). cbn [fst snd].
    destruct (webcamRunning w); repeat split.
  - intros Hne.
    destruct (predictWebcam_new ext currentTime now w Hne)
      as (w' & -> & Hl & _ & _ & Hd).
    cbn [fst snd]. repeat split; assumption.
  - apply frameLoop_noRepeat.
    + apply noRepeat_nil.
    + intros a Ha. discriminate.
  - intros Hmono.
    assert (Hs : StronglySorted Rlt (detectLog (frameLoop ext frames startedWorld))).
    { apply frameLoop_increasing.
      - cbn [lastVideoTime startedWorld initialWorld jneg dec R_arith].
        replace (- (1 / 1)) with (-1) by lra. exact Hmono.
      - constructor.
      - constructor. }
    split; [exact Hs | apply StronglySorted_Rlt_NoDup, Hs].
  - intros readyState. unfold Legacy.sendFrame.
    destruct (2 <=? readyState)%Z; reflexivity.
Qed.

(** The loop sees the frame of time 0 twice: the second iteration makes
    no detect call. *)
Lemma predictWebcam_once_per_frame_witness :
  let w1 := snd (predictWebcam hitExternals 0 0 startedWorld) in
  detectLog w1 = [0] /\
  detectLog (snd (predictWebcam hitExternals 0 16 w1)) = detectLog w1.
Proof.
  assert (Hne : 0 <> lastVideoTime (startedWorld (num := R)))
    by (cbn; lra).
  destruct (predictWebcam_new hitExternals 0 0 startedWorld Hne)
    as (w1 & -> & Hl & _ & _ & Hd).
  cbn [snd]. split; [exact Hd|].
  exact (proj1 (proj2 (proj1 (predictWebcam_once_per_frame hitExternals 0 16 w1 [])
                         (eq_sym Hl)))).
Defined.

(** C9, as stated for every frame loop, fails in the legacy build: two
    iterations of [sendFrame] on the same video frame (time 1, with
    [readyState = 4]) start two detections. *)
Lemma legacy_sendFrame_repeats :
  let w1 := Legacy.sendFrame 4 1 initialWorld in
  let w2 := Legacy.sendFrame 4 1 w1 in
  last (detectLog w1) = Some 1 /\
  detectLog w2 = [1; 1] /\
  detectLog w2 <> detectLog w1.
Proof.
  cbn. repeat split. discriminate.
Qed.

End FrameLoop.

(** * Edges, invariants and the rest of the page *)

(** ** What every state of the page satisfies

    Relations between the state before and after a statement, carried
    through every construct of the monad; the invariant of the page; how
    [onResults] ends; the depth of the canvas state stack. *)

Section StepsIn.
Local Open Scope R_scope.
Variable Rel : World R -> World R -> Prop.
Hypothesis Rel_refl : forall w, Rel w w.
Hypothesis Rel_trans : forall w1 w2 w3, Rel w1 w2 -> Rel w2 w3 -> Rel w1 w3.

Lemma steps_ret {A : Type} (a : A) : steps_in Rel (ret a).
Proof using Rel_refl. intros w. apply Rel_refl. Qed.

Lemma steps_throw {A : Type} (e : string) : steps_in Rel (throw (A := A) e).
Proof using Rel_refl. intros w. apply Rel_refl. Qed.

Lemma steps_gets {A : Type} (f : World R -> A) : steps_in Rel (gets f).
Proof using Rel_refl. intros w. apply Rel_refl. Qed.

Lemma steps_prop {A B : Type} (f : A -> B) (o : option A) : steps_in Rel (prop f o).
Proof using Rel_refl. destruct o; [apply steps_ret | apply steps_throw]. Qed.

Lemma steps_modify (f : World R -> World R) :
  (forall w, Rel w (f w)) -> steps_in Rel (modify f).
Proof. intros Hf w. apply Hf. Qed.

Lemma steps_bind {A B : Type} (m : JS R A) (k : A -> JS R B) :
  steps_in Rel m -> (forall a, steps_in Rel (k a)) -> steps_in Rel (bind m k).
Proof using Rel_trans.
  intros Hm Hk w. unfold bind. specialize (Hm w).
  destruct (m w) as [[a|e] w1]; cbn [snd] in *; [|exact Hm].
  eapply Rel_trans; [exact Hm | apply Hk].
Qed.

Lemma steps_for_of {A : Type} (l : list A) (body : A -> JS R unit) :
  (forall a, steps_in Rel (body a)) -> steps_in Rel (for_of l body).
Proof using Rel_refl Rel_trans.
  intros Hb. induction l as [|a l IH]; cbn [for_of].
  - apply steps_ret.
  - apply steps_bind; [apply Hb | intros _; exact IH].
Qed.

Lemma steps_when (c : bool) (m : JS R unit) :
  steps_in Rel m -> steps_in Rel (when c m).
Proof using Rel_refl. intros Hm. destruct c; [exact Hm | apply steps_ret]. Qed.

Lemma steps_try_catch (m : JS R unit) (handler : string -> JS R unit) :
  steps_in Rel m -> (forall e, steps_in Rel (handler e)) ->
  steps_in Rel (try_catch m handler).
Proof using Rel_trans.
  intros Hm Hh w. unfold try_catch. specialize (Hm w).
  destruct (m w) as [[a|e] w1]; cbn [snd] in *; [exact Hm|].
  eapply Rel_trans; [exact Hm | apply Hh].
Qed.

Variable ext : Externals R.

(** The writes of the gesture logic. *)
Hypothesis Rel_draw : forall w ops,
  canvasDepth ops = 0%Z -> Rel w (set_canvas (canvas w ++ ops) w).
Hypothesis Rel_interaction : forall w x y, Rel w (updateInteraction ext x y w).
Hypothesis Rel_targetZoom : forall w z,
  0 <= z <= 1 -> Rel w (set_targetZoom (Some z) w).
Hypothesis Rel_targetRotationSpeed : forall w s,
  zone_speed s -> Rel w (set_targetRotationSpeed (Some s) w).

Lemma steps_draw (ops : list (CanvasOp R)) :
  canvasDepth ops = 0%Z -> steps_in Rel (draw ops).
Proof using Rel_draw. intros Hops w. apply Rel_draw, Hops. Qed.

Lemma steps_drawHand (hand : list (Landmark R)) : steps_in Rel (drawHand ext hand).
Proof using Rel_refl Rel_trans Rel_draw.
  unfold drawHand.
  apply steps_bind; [|intros _; apply steps_bind; [by apply steps_draw | intros _]].
  - destruct (HAND_CONNECTIONS ext) as [cs|]; [|apply steps_ret].
    apply steps_bind; [by apply steps_draw | intros _].
    apply steps_for_of. intros c.
    repeat first [ apply steps_prop | by apply steps_draw
                 | apply steps_bind; [|intros ?] ].
  - apply steps_for_of. intros a. by apply steps_draw.
Qed.

Lemma zone_speed_rotation (x : R) : zone_speed (Spec.rotation x).
Proof.
  unfold zone_speed, Spec.rotation.
  destruct (Rlt_dec x 0.2); [auto|]. destruct (Rlt_dec 0.8 x); auto.
Qed.

Lemma steps_onHand (hand : list (Landmark R)) : steps_in Rel (onHand ext hand).
Proof using All.
  unfold onHand, dist.
  apply steps_bind; [apply steps_drawHand | intros _].
  apply steps_bind; [apply steps_prop | intros tipx].
  apply steps_bind; [apply steps_prop | intros tipy].
  apply steps_bind; [apply steps_modify; intros w; apply Rel_interaction | intros _].
  apply steps_bind.
  { repeat first [ apply steps_prop | apply steps_ret | apply steps_bind; [|intros ?] ]. }
  intros currentDist.
  apply steps_bind.
  { repeat first [ apply steps_prop | apply steps_ret | apply steps_bind; [|intros ?] ]. }
  intros refScale.
  apply steps_bind.
  { apply steps_modify. intros w. apply Rel_targetZoom.
    cbn [jmax jmin R_arith dec]. replace (0 / 1) with 0 by lra.
    replace (1 / 1) with 1 by lra. rewrite clamp_code. apply clamp_bounds. }
  intros _. apply steps_bind; [apply steps_prop | intros x].
  intros w. rewrite rotation_run. cbn [snd].
  apply Rel_targetRotationSpeed, zone_speed_rotation.
Qed.

End StepsIn.

Section StepsThroughFrame.
Local Open Scope R_scope.
Variable Rel : World R -> World R -> Prop.
Hypothesis Rel_refl : forall w, Rel w w.
Hypothesis Rel_trans : forall w1 w2 w3, Rel w1 w2 -> Rel w2 w3 -> Rel w1 w3.
Variable ext : Externals R.
Hypothesis Rel_canvas : forall w c, Rel w (set_canvas c w).
Hypothesis Rel_interaction : forall w x y, Rel w (updateInteraction ext x y w).
Hypothesis Rel_targetZoom : forall w z,
  0 <= z <= 1 -> Rel w (set_targetZoom (Some z) w).
Hypothesis Rel_targetRotationSpeed : forall w s,
  zone_speed s -> Rel w (set_targetRotationSpeed (Some s) w).
Hypothesis Rel_uHover : forall w, Rel w (set_uHover (dec 0 1) w).

Lemma steps_onResults (results : Results R) : steps_in Rel (onResults ext results).
Proof using All.
  assert (Hdraw : forall ops, steps_in Rel (draw ops)).
  { intros ops w. apply Rel_canvas. }
  unfold onResults.
  apply steps_bind; [exact Rel_trans | apply Hdraw | intros _].
  apply steps_bind; [exact Rel_trans | | intros _; apply Hdraw].
  destruct (landmarks results) as [[|hand hands]|].
  - repeat (apply steps_bind; [exact Rel_trans | | intros _]); try apply Hdraw;
      apply steps_modify; intros w; [apply Rel_uHover|].
    apply Rel_targetRotationSpeed. unfold zone_speed. cbn. lra.
  - apply steps_bind; [exact Rel_trans | apply Hdraw | intros _].
    apply steps_for_of; try assumption. intros h.
    apply steps_onHand; try assumption.
    intros w ops _. apply Rel_canvas.
  - repeat (apply steps_bind; [exact Rel_trans | | intros _]); try apply Hdraw;
      apply steps_modify; intros w; [apply Rel_uHover|].
    apply Rel_targetRotationSpeed. unfold zone_speed. cbn. lra.
Qed.

Hypothesis Rel_rafQueue : forall w q, Rel w (set_rafQueue q w).
Hypothesis Rel_lastVideoTime : forall w t, Rel w (set_lastVideoTime t w).
Hypothesis Rel_detectLog : forall w l, Rel w (set_detectLog l w).
Hypothesis Rel_console : forall w l, Rel w (set_console l w).

Lemma steps_predictWebcam (currentTime now : R) :
  steps_in Rel (predictWebcam ext currentTime now).
Proof using All.
  unfold predictWebcam.
  apply steps_bind; [exact Rel_trans | by apply steps_gets | intros running].
  apply steps_bind; [exact Rel_trans | | intros _].
  { apply steps_when; [exact Rel_refl|]. apply steps_modify. intros w. apply Rel_rafQueue. }
  apply steps_bind; [exact Rel_trans | by apply steps_gets | intros last].
  apply steps_when; [exact Rel_refl|].
  apply steps_bind; [exact Rel_trans | | intros _].
  { apply steps_modify. intros w. apply Rel_lastVideoTime. }
  apply steps_bind; [exact Rel_trans | by apply steps_gets | intros loaded].
  apply steps_when; [exact Rel_refl|].
  apply steps_try_catch; [exact Rel_trans | |].
  - apply steps_bind; [exact Rel_trans | | intros results; apply steps_onResults].
    intros w. unfold detect. cbn [snd]. apply Rel_detectLog.
  - intros e. apply steps_modify. intros w. apply Rel_console.
Qed.

End StepsThroughFrame.

Section Reachable.
Local Open Scope R_scope.

(** Whatever the ray, the point [updateInteraction] copies into [uMouse]
    has [z = 0]: the point of the plane on a hit, the zero vector on a
    miss. *)
Lemma intersectPlane_in_plane (ray : Ray R) :
  z3 (snd (Ray_intersectPlane ray plane (vec3 0 0 0))) = 0.
Proof.
  unfold Ray_intersectPlane, Ray_distanceToPlane, Plane_distanceToPoint,
    Vector3_dot, plane, Ray_at.
  cbn [normal constant x3 y3 z3 jsame jle jadd jmul jdiv jneg dec R_arith].
  destruct ray as [[ox oy oz] [dx dy dz]]. cbn [origin direction x3 y3 z3].
  unfold Req_bool.
  destruct (Req_dec_T _ _) as [Hden|Hden].
  - destruct (Req_dec_T _ _) as [Hor|Hor]; cbn [snd z3]; lra.
  - unfold Rle_bool. destruct (Rle_dec _ _); cbn [snd z3]; [|reflexivity].
    assert (Hdz : dz <> 0) by lra.
    replace (0 / 1 * dx + 0 / 1 * dy + 1 / 1 * dz) with dz by lra.
    field. exact Hdz.
Qed.

Lemma updateInteraction_in_plane (ext : Externals R) (x y : R) (w : World R) :
  z3 (uMouse (updateInteraction ext x y w)) = 0 /\
  uHover (updateInteraction ext x y w) = 1.
Proof.
  rewrite updateInteraction_run. cbn [uMouse uHover set_uHover set_uMouse].
  split; [apply intersectPlane_in_plane | reflexivity].
Qed.

Lemma page_inv_interaction (ext : Externals R) (x y : R) (w : World R) :
  page_inv w -> page_inv (updateInteraction ext x y w).
Proof.
  intros (Htz & Hcz & Hts & Hcs & _).
  destruct (updateInteraction_in_plane ext x y w) as [Hz Hh].
  rewrite updateInteraction_run in *.
  repeat split; try assumption. right. split; assumption.
Qed.

Lemma page_inv_animate (t : R) (w : World R) : page_inv w -> page_inv (animate t w).
Proof.
  intros (Htz & Hcz & Hts & Hcs & Hm).
  destruct (animate_rotation t w) as (Ets & Ecs & _).
  unfold page_inv. rewrite Ets, Ecs.
  assert (Hzoom : in_unit (targetZoom (animate t w)) /\ in_unit (currentZoom (animate t w))).
  { destruct (targetZoom w) as [tz|] eqn:Etz.
    - destruct (animate_zoom t w tz Etz) as (-> & -> & _). cbn [in_unit] in *.
      split; [exact Htz|]. destruct (currentZoom w) as [cz|]; cbn in *; lra.
    - destruct (animate_zoom_undefined t w Etz) as (-> & ->). cbn. lra. }
  destruct Hzoom as [Hz1 Hz2].
  repeat match goal with |- _ /\ _ => split end; try assumption.
  - destruct (targetRotationSpeed w); cbn; [exact Hts|]. unfold zone_speed. lra.
  - assert (Hts' : -0.05 <= default 0.002 (targetRotationSpeed w) <= 0.05).
    { destruct (targetRotationSpeed w) as [s|]; cbn in *; [|lra].
      destruct Hts as [->|[->| ->]]; lra. }
    assert (Hcs' : -0.05 <= default 0.002 (currentRotationSpeed w) <= 0.05).
    { destruct (currentRotationSpeed w) as [s|]; cbn in *; lra. }
    cbn [speed_ok]. lra.
  - unfold animate. destruct (targetZoom w); exact Hm.
Qed.

Lemma page_inv_startup (env : Startup) (w : World R) :
  page_inv w -> page_inv (world (createHandLandmarker env (freshPage w))).
Proof.
  intros Hinv. unfold createHandLandmarker, enableCam.
  destruct (forVisionTasks env); [|exact Hinv].
  destruct (createFromOptions env); [|exact Hinv].
  cbn. destruct (mediaDevices env); [|exact Hinv].
  destruct (getUserMedia env); exact Hinv.
Qed.

Lemma page_inv_predictWebcam (ext : Externals R) (currentTime now : R) (w : World R) :
  page_inv w -> page_inv (snd (predictWebcam ext currentTime now w)).
Proof.
  revert w.
  apply (steps_predictWebcam (fun w w' => page_inv w -> page_inv w')); auto.
  - intros w x y. apply page_inv_interaction.
  - intros w z Hz (_ & Hcz & Hts & Hcs & Hm). split; [exact Hz|]. repeat split; assumption.
  - intros w s Hs (Htz & Hcz & _ & Hcs & Hm). repeat split; assumption.
  - intros w (Htz & Hcz & Hts & Hcs & Hm). repeat split; try assumption.
    left. split; [cbn; lra|]. destruct Hm as [[_ Hm]|[_ Hm]]; auto.
Qed.

Lemma page_inv_initial : page_inv initialWorld.
Proof.
  unfold page_inv. cbn. repeat split; auto. left. split; [lra|].
  left. f_equal; lra.
Qed.

Lemma page_inv_step (ext : Externals R) (e : Event R) (w : World R) :
  page_inv w -> page_inv (step ext e w).
Proof.
  destruct e; cbn [step].
  - apply page_inv_animate.
  - apply page_inv_predictWebcam.
  - apply page_inv_interaction.
  - auto.
  - apply page_inv_startup.
Qed.

Lemma page_inv_run (ext : Externals R) (events : list (Event R)) (w : World R) :
  page_inv w -> page_inv (run ext events w).
Proof.
  revert w. induction events as [|e events IH]; intros w Hinv; [exact Hinv|].
  cbn [run]. apply IH, page_inv_step, Hinv.
Qed.

End Reachable.

Section Outcomes.
Local Open Scope R_scope.

Lemma bind_fst {A B : Type} (m : JS R A) (k : A -> JS R B) (w : World R) :
  fst (bind m k w) =
  match fst (m w) with
  | Normal a => fst (k a (snd (m w)))
  | Throw e => Throw e
  end.
Proof. unfold bind. destruct (m w) as [[a|e] w']; reflexivity. Qed.

Lemma for_of_fst {A : Type} (good : A -> bool) (E : string) (l : list A)
  (body : A -> JS R unit) :
  (forall a w, fst (body a w) = if good a then Normal tt else Throw E) ->
  forall w, fst (for_of l body w) = if forallb good l then Normal tt else Throw E.
Proof.
  intros Hb. induction l as [|a l IH]; intros w; cbn [for_of forallb]; [reflexivity|].
  rewrite bind_fst, Hb. destruct (good a); cbn [andb]; [apply IH | reflexivity].
Qed.

Lemma for_of_app {A : Type} (l1 l2 : list A) (body : A -> JS R unit) (w : World R) :
  for_of (l1 ++ l2) body w = bind (for_of l1 body) (fun _ => for_of l2 body) w.
Proof.
  revert w. induction l1 as [|a l1 IH]; intros w; cbn [for_of app]; [reflexivity|].
  unfold bind. destruct (body a w) as [[[]|e] w']; [|reflexivity].
  rewrite IH. reflexivity.
Qed.

Lemma drawHand_fst (ext : Externals R) (hand : list (Landmark R)) (w : World R) :
  fst (drawHand ext hand w) =
  if drawable ext hand then Normal tt else Throw TypeError.
Proof.
  destruct (drawable ext hand) eqn:Hd.
  - destruct (drawHand_draws_only ext hand Hd w) as [ops ->]. reflexivity.
  - unfold drawable in Hd. unfold drawHand.
    destruct (HAND_CONNECTIONS ext) as [cs|]; [|discriminate].
    rewrite bind_fst, bind_fst. cbn [draw modify fst snd].
    rewrite (for_of_fst
      (fun c => (fst c <? length hand)%nat && (snd c <? length hand)%nat) TypeError).
    + rewrite Hd. reflexivity.
    + intros [i j] w0. cbn [fst snd].
      destruct (i <? length hand)%nat eqn:Hi.
      * apply Nat.ltb_lt, lookup_lt_is_Some_2 in Hi as [a ->].
        destruct (j <? length hand)%nat eqn:Hj.
        -- apply Nat.ltb_lt, lookup_lt_is_Some_2 in Hj as [b ->]. reflexivity.
        -- apply Nat.ltb_ge, lookup_ge_None_2 in Hj as ->. reflexivity.
      * apply Nat.ltb_ge, lookup_ge_None_2 in Hi as ->. reflexivity.
Qed.

(** The landmarks the gestures read exist exactly in a hand of more than
    12 landmarks. *)
Lemma gesture_landmarks (hand : list (Landmark R)) :
  (12 < length hand)%nat ->
  exists wrist c m tip,
    hand !! 0%nat = Some wrist /\ hand !! 5%nat = Some c /\
    hand !! 12%nat = Some m /\ hand !! 8%nat = Some tip.
Proof.
  intros Hl.
  destruct (lookup_lt_is_Some_2 hand 0) as [a Ha]; [lia|].
  destruct (lookup_lt_is_Some_2 hand 5) as [b Hb]; [lia|].
  destruct (lookup_lt_is_Some_2 hand 12) as [c Hc]; [lia|].
  destruct (lookup_lt_is_Some_2 hand 8) as [d Hd]; [lia|].
  eauto 10.
Qed.

Lemma complete_spec (ext : Externals R) (hand : list (Landmark R)) :
  complete ext hand = true ->
  drawable ext hand = true /\
  exists wrist c m tip,
    hand !! 0%nat = Some wrist /\ hand !! 5%nat = Some c /\
    hand !! 12%nat = Some m /\ hand !! 8%nat = Some tip.
Proof.
  unfold complete. intros [Hd Hl]%andb_true_iff. split; [exact Hd|].
  apply gesture_landmarks, Nat.ltb_lt, Hl.
Qed.

Lemma onHand_fst (ext : Externals R) (hand : list (Landmark R)) (w : World R) :
  fst (onHand ext hand w) = if complete ext hand then Normal tt else Throw TypeError.
Proof.
  destruct (complete ext hand) eqn:Hc.
  - destruct (complete_spec ext hand Hc) as (Hd & wrist & c & m & tip & H0 & H5 & H12 & H8).
    destruct (onHand_run ext hand w wrist c m tip Hd H0 H5 H12 H8) as [ops ->].
    reflexivity.
  - unfold complete in Hc. unfold onHand. rewrite bind_fst, drawHand_fst.
    destruct (drawable ext hand) eqn:Hd; [|reflexivity].
    cbn [andb] in Hc. apply Nat.ltb_ge in Hc.
    assert (H12 : hand !! 12%nat = None) by (apply lookup_ge_None_2; lia).
    unfold dist. rewrite H12.
    destruct (hand !! 8%nat) as [tip|]; [|reflexivity].
    destruct (hand !! 0%nat) as [wrist|]; reflexivity.
Qed.

Lemma onResults_fst (ext : Externals R) (results : Results R) (w : World R) :
  fst (onResults ext results w) =
  if forallb (complete ext) (default [] (landmarks results))
  then Normal tt else Throw TypeError.
Proof.
  unfold onResults. rewrite bind_fst. cbn [draw modify fst snd].
  rewrite bind_fst.
  destruct (landmarks results) as [[|hand hands]|]; cbn [default from_option]; try reflexivity.
  rewrite bind_fst. cbn [draw modify fst snd].
  rewrite (for_of_fst (complete ext) TypeError) by (intros; apply onHand_fst).
  destruct (forallb _ _); reflexivity.
Qed.

End Outcomes.

Section CanvasState.
Local Open Scope R_scope.

Lemma canvasDepth_app (a b : list (CanvasOp R)) :
  canvasDepth (a ++ b) = (canvasDepth a + canvasDepth b)%Z.
Proof.
  induction a as [|op a IH]; [reflexivity|].
  destruct op; cbn [app canvasDepth]; rewrite IH; lia.
Qed.

Lemma canvasDepth_status (status : string) (msg : option string) :
  canvasDepth (drawStatusIndicator (num := R) status msg) = 0%Z.
Proof.
  unfold drawStatusIndicator. rewrite !canvasDepth_app.
  destruct (String.eqb status "loading"); [reflexivity|].
  destruct (String.eqb status "active"); [reflexivity|].
  destruct (String.eqb status "tracking"); [reflexivity|].
  destruct (String.eqb status "error"); reflexivity.
Qed.

Lemma appends_level_refl (w : World R) : appends_level w w.
Proof. exists []. split; [by rewrite app_nil_r | reflexivity]. Qed.

Lemma appends_level_trans (w1 w2 w3 : World R) :
  appends_level w1 w2 -> appends_level w2 w3 -> appends_level w1 w3.
Proof.
  intros (o1 & E1 & D1) (o2 & E2 & D2). exists (o1 ++ o2). split.
  - rewrite E2, E1. by rewrite app_assoc.
  - rewrite canvasDepth_app. lia.
Qed.

Lemma appends_level_same (w w' : World R) :
  canvas w' = canvas w -> appends_level w w'.
Proof. intros E. exists []. split; [by rewrite app_nil_r | reflexivity]. Qed.

Lemma onHand_appends_level (ext : Externals R) (hand : list (Landmark R)) :
  steps_in appends_level (onHand ext hand).
Proof.
  apply steps_onHand.
  - apply appends_level_refl.
  - apply appends_level_trans.
  - intros w ops Hops. exists ops. split; [reflexivity | exact Hops].
  - intros w x y. apply appends_level_same. rewrite updateInteraction_run. reflexivity.
  - intros w z _. by apply appends_level_same.
  - intros w s _. by apply appends_level_same.
Qed.

Lemma onResults_canvas (ext : Externals R) (results : Results R) (w : World R) :
  exists ops,
    canvas (snd (onResults ext results w)) = canvas w ++ ops /\
    canvasDepth ops =
      match fst (onResults ext results w) with Normal _ => 0 | Throw _ => 1 end%Z.
Proof.
  unfold onResults.
  set (inner := match landmarks results with
                | Some (hand :: hands) => _
                | _ => _
                end).
  assert (Hinner : steps_in appends_level inner).
  { subst inner. destruct (landmarks results) as [[|hand hands]|].
    - repeat (apply steps_bind; [apply appends_level_trans | | intros _]);
        try (apply steps_modify; intros w0; by apply appends_level_same).
      intros w0. eexists. split; [reflexivity | apply canvasDepth_status].
    - apply steps_bind; [apply appends_level_trans | | intros _].
      + intros w0. eexists. split; [reflexivity | apply canvasDepth_status].
      + apply steps_for_of; [apply appends_level_refl | apply appends_level_trans |].
        intros h. apply onHand_appends_level.
    - repeat (apply steps_bind; [apply appends_level_trans | | intros _]);
        try (apply steps_modify; intros w0; by apply appends_level_same).
      intros w0. eexists. split; [reflexivity | apply canvasDepth_status]. }
  set (pre := [CSave; CClearRect (dec 0 1) (dec 0 1) (canvasWidth ext) (canvasHeight ext)]).
  set (w1 := set_canvas (canvas w ++ pre) w).
  assert (E : bind (draw pre) (fun _ => bind inner (fun _ => draw [CRestore])) w =
              match inner w1 with
              | (Normal _, w2) => (Normal tt, set_canvas (canvas w2 ++ [CRestore]) w2)
              | (Throw e, w2) => (Throw e, w2)
              end) by reflexivity.
  rewrite E. clear E.
  destruct (Hinner w1) as (ops & Eops & Dops).
  destruct (inner w1) as [[[]|e] w2]; cbn [fst snd canvas set_canvas] in *.
  - exists (pre ++ ops ++ [CRestore]). split.
    + rewrite Eops. subst w1. cbn [canvas set_canvas]. rewrite <- !app_assoc. reflexivity.
    + rewrite !canvasDepth_app, Dops. reflexivity.
  - exists (pre ++ ops). split.
    + rewrite Eops. subst w1. cbn [canvas set_canvas]. rewrite <- !app_assoc. reflexivity.
    + rewrite !canvasDepth_app, Dops. reflexivity.
Qed.

End CanvasState.

(** ** Gestures and frames at the edges *)

Section GestureEdges.
Local Open Scope R_scope.

(** A hand that can be drawn and has its index fingertip, but not its
    middle fingertip: [onResults] throws after [updateInteraction]. *)
Lemma onResults_short_hand_run (ext : Externals R) (hand : list (Landmark R))
  (tip : Landmark R) (w : World R) :
  drawable ext hand = true -> hand !! 8%nat = Some tip -> (length hand <= 12)%nat ->
  exists ops,
    onResults ext (mkResults (Some [hand])) w =
    (Throw TypeError,
     updateInteraction ext (lx tip * 2 - 1) (- (ly tip * 2 - 1))
       (set_canvas (canvas w ++ ops) w)).
Proof.
  intros Hd H8 Hlen.
  assert (H12 : hand !! 12%nat = None) by (apply lookup_ge_None_2; lia).
  assert (Hw : exists wrist, hand !! 0%nat = Some wrist).
  { apply lookup_lt_is_Some_2. apply lookup_lt_Some in H8. lia. }
  destruct Hw as [wrist H0].
  unfold onResults. cbn [landmarks for_of].
  unfold bind at 1. cbn [draw modify].
  unfold bind at 1. unfold bind at 1. cbn [draw modify].
  unfold bind at 1. unfold onHand. unfold bind at 1.
  match goal with |- context [drawHand ext hand ?w0] =>
    destruct (drawHand_draws_only ext hand Hd w0) as [ops ->] end.
  unfold dist. rewrite H8, H0, H12.
  cbn [prop bind ret modify throw fst snd].
  exists ([CSave; CClearRect (dec 0 1) (dec 0 1) (canvasWidth ext) (canvasHeight ext)]
          ++ drawStatusIndicator "tracking" None ++ ops).
  unfold TypeError. apply (f_equal (pair (Throw _))).
  rewrite !updateInteraction_run.
  apply world_ext; try reflexivity.
  - cbn. repeat f_equal; lra.
  - cbn. f_equal; lra.
  - lazy [canvas set_canvas set_uHover set_uMouse set_mouse].
    rewrite <- !app_assoc. reflexivity.
Qed.

(** X1.  [onResults] returns normally exactly when every hand of the frame
    is complete: every landmark a connection of the skeleton names exists
    and the hand has more than 12 landmarks. Otherwise it throws the
    TypeError of a read through [undefined]: a hand of at most 12 landmarks
    throws, and so does a hand whose skeleton cannot be drawn. A single
    drawable hand that has its index fingertip but at most 12 landmarks has
    by then switched the repulsion on at the fingertip, while the zoom and
    rotation targets are left as they were. *)
Theorem onResults_throws_on_incomplete_hand (ext : Externals R)
  (results : Results R) (w : World R) :
  let result := onResults ext results w in
  let hands := default [] (landmarks results) in
  fst result =
    (if forallb (complete ext) hands then Normal tt else Throw TypeError) /\
  (forall hand, hand ∈ hands -> (length hand <= 12)%nat ->
     fst result = Throw TypeError) /\
  (forall hand, hand ∈ hands -> drawable ext hand = false ->
     fst result = Throw TypeError) /\
  (forall hand tip, landmarks results = Some [hand] ->
     drawable ext hand = true -> hand !! 8%nat = Some tip ->
     (length hand <= 12)%nat ->
     uHover (snd result) = 1 /\
     mouse (snd result) = vec2 (lx tip * 2 - 1) (- (ly tip * 2 - 1)) /\
     targetZoom (snd result) = targetZoom w /\
     targetRotationSpeed (snd result) = targetRotationSpeed w).
Proof.
  intros result hands. subst result.
  pose proof (onResults_fst ext results w) as Hfst. fold hands in Hfst.
  assert (Hbad : forall hand, hand ∈ hands -> complete ext hand = false ->
                 fst (onResults ext results w) = Throw TypeError).
  { intros hand Hin Hc. rewrite Hfst.
    destruct (forallb (complete ext) hands) eqn:Hall; [|reflexivity].
    rewrite forallb_forall in Hall. rewrite list_elem_of_In in Hin.
    rewrite (Hall hand Hin) in Hc. discriminate. }
  repeat match goal with |- _ /\ _ => split end.
  - exact Hfst.
  - intros hand Hin Hlen. apply (Hbad hand Hin). unfold complete.
    apply andb_false_iff. right. apply Nat.ltb_ge. lia.
  - intros hand Hin Hd. apply (Hbad hand Hin). unfold complete. rewrite Hd. reflexivity.
  - intros hand tip Hres Hd H8 Hlen.
    destruct results as [l]. cbn [landmarks] in Hres. subst l.
    destruct (onResults_short_hand_run ext hand tip w Hd H8 Hlen) as [ops ->].
    cbn [snd]. rewrite updateInteraction_run. repeat split.
Qed.


(** The hands of a frame, processed in order: the state the loop of
    [onResults] ends in when every hand is complete. *)
Lemma for_of_onHand_run (ext : Externals R) (hands : list (list (Landmark R)))
  (w : World R) :
  forallb (complete ext) hands = true ->
  exists w', for_of hands (onHand ext) w = (Normal tt, w') /\
             cameraPosition w' = cameraPosition w.
Proof.
  intros Hall.
  pose proof (for_of_fst (complete ext) TypeError hands (onHand ext)
                (onHand_fst ext) w) as Hfst.
  rewrite Hall in Hfst.
  assert (Hcam : steps_in (fun w w' => cameraPosition w' = cameraPosition w)
                   (for_of hands (onHand ext))).
  { apply steps_for_of; [reflexivity | intros; congruence |].
    intros h. apply steps_onHand; try reflexivity; try (intros; congruence).
    all: intros w0 x y; rewrite updateInteraction_run; reflexivity. }
  specialize (Hcam w).
  destruct (for_of hands (onHand ext) w) as [[[]|e] w']; [|discriminate].
  exists w'. split; [reflexivity | exact Hcam].
Qed.

(** A frame of complete hands: the gesture state comes from the last hand
    and from where the camera is. *)
Lemma onResults_hands_run (ext : Externals R) (hands : list (list (Landmark R)))
  (hand : list (Landmark R)) (w : World R) (wrist c m tip : Landmark R) :
  forallb (complete ext) hands = true -> drawable ext hand = true ->
  hand !! 0%nat = Some wrist -> hand !! 5%nat = Some c ->
  hand !! 12%nat = Some m -> hand !! 8%nat = Some tip ->
  let result := onResults ext (mkResults (Some (hands ++ [hand]))) w in
  let w0 := updateInteraction ext (lx tip * 2 - 1) (- (ly tip * 2 - 1)) w in
  fst result = Normal tt /\
  targetZoom (snd result) = Some (Spec.zoom wrist m c) /\
  targetRotationSpeed (snd result) = Some (Spec.rotation (lx tip)) /\
  mouse (snd result) = mouse w0 /\ uMouse (snd result) = uMouse w0 /\
  uHover (snd result) = uHover w0.
Proof.
  intros Hall Hd H0 H5 H12 H8 result w0.
  set (pre := [CSave; CClearRect (dec 0 1) (dec 0 1) (canvasWidth ext) (canvasHeight ext)]).
  set (w1 := set_canvas (canvas (set_canvas (canvas w ++ pre) w)
                         ++ drawStatusIndicator "tracking" None)
               (set_canvas (canvas w ++ pre) w)).
  assert (E : result =
            match for_of (hands ++ [hand]) (onHand ext) w1 with
            | (Normal _, w2) => (Normal tt, set_canvas (canvas w2 ++ [CRestore]) w2)
            | (Throw e, w2) => (Throw e, w2)
            end).
  { subst result. unfold onResults. cbn [landmarks].
    destruct hands as [|h hands']; reflexivity. }
  rewrite for_of_app in E. unfold bind in E.
  destruct (for_of_onHand_run ext hands w1 Hall) as (w2 & E2 & Hcam).
  rewrite E2 in E. cbn [for_of] in E. unfold bind in E.
  destruct (onHand_run ext hand w2 wrist c m tip Hd H0 H5 H12 H8) as [ops E3].
  rewrite E3 in E. cbn [ret] in E. rewrite E. cbn [fst snd].
  subst w0. rewrite !updateInteraction_run.
  cbn [targetZoom targetRotationSpeed mouse uMouse uHover set_canvas
       set_targetRotationSpeed set_targetZoom set_uHover set_uMouse set_mouse
       cameraPosition].
  rewrite Hcam. subst w1. cbn [cameraPosition set_canvas].
  repeat split.
Qed.


(** X3.  When a frame holds several complete hands, [onResults] returns
    normally and the gesture state it leaves (zoom target, rotation target,
    [mouse], [uMouse], [uHover]) is the one the last hand alone would have
    left. *)
Theorem onResults_last_hand_wins (ext : Externals R)
  (hands : list (list (Landmark R))) (hand : list (Landmark R)) (w : World R) :
  forallb (complete ext) hands = true -> complete ext hand = true ->
  let many := onResults ext (mkResults (Some (hands ++ [hand]))) w in
  let one := onResults ext (mkResults (Some [hand])) w in
  fst many = Normal tt /\
  targetZoom (snd many) = targetZoom (snd one) /\
  targetRotationSpeed (snd many) = targetRotationSpeed (snd one) /\
  mouse (snd many) = mouse (snd one) /\
  uMouse (snd many) = uMouse (snd one) /\
  uHover (snd many) = uHover (snd one).
Proof.
  intros Hall Hc many one. subst many one.
  destruct (complete_spec ext hand Hc) as (Hd & wrist & c & m & tip & H0 & H5 & H12 & H8).
  destruct (onResults_hands_run ext hands hand w wrist c m tip Hall Hd H0 H5 H12 H8)
    as (Hn & -> & -> & -> & -> & ->).
  pose proof (onResults_hands_run ext [] hand w wrist c m tip eq_refl Hd H0 H5 H12 H8)
    as Hone.
  cbn [app] in Hone. destruct Hone as (_ & -> & -> & -> & -> & ->).
  repeat split. exact Hn.
Qed.

Lemma onResults_last_hand_wins_witness :
  targetZoom
    (snd (onResults hitExternals
            (mkResults (Some [handWithRatio 1.8 (landmark 0.1 0.3);
                              handWithRatio 1.3 (landmark 0.5 0.3)]))
            initialWorld)) =
  targetZoom
    (snd (onResults hitExternals
            (mkResults (Some [handWithRatio 1.3 (landmark 0.5 0.3)]))
            initialWorld)).
Proof.
  exact (proj1 (proj2 (onResults_last_hand_wins hitExternals
                         [handWithRatio 1.8 (landmark 0.1 0.3)]
                         (handWithRatio 1.3 (landmark 0.5 0.3))
                         initialWorld eq_refl eq_refl))).
Defined.

(** X5.  The index fingertip acts as a pointer: a complete hand with its
    fingertip at (x, y) of the image sets [mouse] to (2x - 1, 1 - 2y), and
    leaves [mouse], [uMouse] and [uHover] as a mouse event at the same
    relative place of a window of non-zero size does. *)
Theorem fingertip_acts_as_pointer (ext : Externals R) (hand : list (Landmark R))
  (tip : Landmark R) (width height : R) (w : World R) :
  complete ext hand = true -> hand !! 8%nat = Some tip ->
  width <> 0 -> height <> 0 ->
  let byHand := snd (onResults ext (mkResults (Some [hand])) w) in
  let byPointer :=
    mousemove ext (mkPointer (lx tip * width) (ly tip * height) width height) w in
  mouse byHand = vec2 (2 * lx tip - 1) (1 - 2 * ly tip) /\
  mouse byHand = mouse byPointer /\
  uMouse byHand = uMouse byPointer /\
  uHover byHand = uHover byPointer.
Proof.
  intros Hc H8 Hw Hh byHand byPointer.
  destruct (complete_spec ext hand Hc) as (Hd & wrist & c & m & tip' & H0 & H5 & H12 & H8').
  rewrite H8 in H8'. injection H8' as <-.
  pose proof (onResults_hands_run ext [] hand w wrist c m tip eq_refl Hd H0 H5 H12 H8)
    as Hone.
  cbn [app] in Hone. destruct Hone as (_ & _ & _ & Em & Eu & Eh).
  subst byHand byPointer. rewrite Em, Eu, Eh.
  unfold mousemove. cbn [clientX clientY innerWidth innerHeight].
  cbn [jadd jsub jmul jdiv jneg dec R_arith].
  replace (lx tip * width / width * (2 / 1) - 1 / 1) with (lx tip * 2 - 1)
    by (field; exact Hw).
  replace (- (ly tip * height / height) * (2 / 1) + 1 / 1) with (- (ly tip * 2 - 1))
    by (field; exact Hh).
  rewrite updateInteraction_run. cbn [mouse set_uHover set_uMouse set_mouse].
  repeat split. f_equal; lra.
Qed.

Lemma fingertip_acts_as_pointer_witness :
  mouse (snd (onResults hitExternals
                (mkResults (Some [handWithRatio 1.3 (landmark 0.5 0.25)]))
                initialWorld)) =
  mouse (mousemove hitExternals (mkPointer (0.5 * 640) (0.25 * 480) 640 480) initialWorld).
Proof.
  refine (proj1 (proj2 (fingertip_acts_as_pointer hitExternals
                          (handWithRatio 1.3 (landmark 0.5 0.25))
                          (landmark 0.5 0.25) 640 480 initialWorld
                          eq_refl eq_refl _ _))); lra.
Defined.

(** X6.  For a pointer inside a window of positive size, the [mousemove]
    listener maps the window onto the square from -1 to 1 with the vertical
    axis flipped: the left edge goes to -1, the right edge to 1, the top to
    1 and the bottom to -1. The legacy mouse handler does the same; the
    legacy touch handler does it with the first touch, and does nothing when
    there is no touch. *)
Theorem pointer_maps_window_to_square (ext : Externals R) (event : PointerInput R)
  (touches : list (PointerInput R)) (w : World R) :
  0 < innerWidth event -> 0 < innerHeight event ->
  0 <= clientX event <= innerWidth event ->
  0 <= clientY event <= innerHeight event ->
  let m := mouse (mousemove ext event w) in
  x2 m = 2 * (clientX event / innerWidth event) - 1 /\
  y2 m = 1 - 2 * (clientY event / innerHeight event) /\
  -1 <= x2 m <= 1 /\ -1 <= y2 m <= 1 /\
  (clientX event = 0 -> x2 m = -1) /\
  (clientX event = innerWidth event -> x2 m = 1) /\
  (clientY event = 0 -> y2 m = 1) /\
  (clientY event = innerHeight event -> y2 m = -1) /\
  Legacy.mousemove ext event w = mousemove ext event w /\
  Legacy.onTouch ext (event :: touches) w = mousemove ext event w /\
  Legacy.onTouch ext [] w = w.
Proof.
  intros HW HH HX HY m. subst m.
  unfold Legacy.mousemove, Legacy.onTouch, Legacy.handleInput, mousemove.
  rewrite updateInteraction_run. cbn [mouse set_uHover set_uMouse set_mouse x2 y2].
  cbn [jadd jsub jmul jdiv jneg dec R_arith].
  set (u := clientX event / innerWidth event).
  set (v := clientY event / innerHeight event).
  assert (Hu : u * innerWidth event = clientX event) by (subst u; field; lra).
  assert (Hv : v * innerHeight event = clientY event) by (subst v; field; lra).
  assert (Hu01 : 0 <= u <= 1) by nra.
  assert (Hv01 : 0 <= v <= 1) by nra.
  repeat match goal with |- _ /\ _ => split end; try reflexivity; try lra.
  - intros E. assert (u = 0) by nra. lra.
  - intros E. assert (u = 1) by nra. lra.
  - intros E. assert (v = 0) by nra. lra.
  - intros E. assert (v = 1) by nra. lra.
Qed.

Lemma pointer_maps_window_to_square_witness :
  mouse (mousemove hitExternals (mkPointer 0 480 640 480) initialWorld) =
  vec2 (2 * (0 / 640) - 1) (1 - 2 * (480 / 480)).
Proof.
  pose proof (pointer_maps_window_to_square hitExternals (mkPointer 0 480 640 480) []
                initialWorld) as Hthm.
  cbn [clientX clientY innerWidth innerHeight] in Hthm.
  destruct (Hthm ltac:(lra) ltac:(lra) ltac:(lra) ltac:(lra)) as (Hx & Hy & _).
  destruct (mouse _) as [mx my]. cbn [x2 y2] in Hx, Hy. rewrite Hx, Hy. reflexivity.
Defined.

End GestureEdges.

Section FrameErrors.
Local Open Scope R_scope.

(** An iteration of [predictWebcam] on a new frame with the landmarker
    loaded, statement by statement. *)
Lemma predictWebcam_detects (ext : Externals R) (currentTime now : R) (w : World R) :
  currentTime <> lastVideoTime w -> handLandmarker w = true ->
  let w0 := if webcamRunning w then requestAnimationFrame CbPredictWebcam w else w in
  let w1 := set_detectLog (detectLog w0 ++ [currentTime])
              (set_lastVideoTime currentTime w0) in
  predictWebcam ext currentTime now w =
  (Normal tt,
   match detectForVideo ext currentTime now with
   | Throw e => console_error ("Detection error: " +:+ e) w1
   | Normal results =>
       match onResults ext results w1 with
       | (Normal _, w2) => w2
       | (Throw e, w2) => console_error ("Detection error: " +:+ e) w2
       end
   end).
Proof.
  intros Hne Hh w0 w1. rewrite predictWebcam_head. fold w0.
  cbn [jsame R_arith]. rewrite Req_bool_false by exact Hne. cbn [negb when].
  assert (Hh0 : handLandmarker w0 = true)
    by (subst w0; destruct (webcamRunning w); exact Hh).
  unfold bind at 1, modify at 1. unfold bind at 1, gets at 1.
  cbn [handLandmarker set_lastVideoTime]. rewrite Hh0. cbn [when].
  unfold try_catch, bind, detect.
  change (detectLog (set_lastVideoTime currentTime w0)) with (detectLog w0). fold w1.
  destruct (detectForVideo ext currentTime now) as [results|e]; [|reflexivity].
  destruct (onResults ext results w1) as [[[]|e] w2]; reflexivity.
Qed.


Lemma predictWebcam_unloaded (ext : Externals R) (currentTime now : R) (w : World R) :
  currentTime <> lastVideoTime w -> handLandmarker w = false ->
  predictWebcam ext currentTime now w =
  (Normal tt,
   set_lastVideoTime currentTime
     (if webcamRunning w then requestAnimationFrame CbPredictWebcam w else w)).
Proof.
  intros Hne Hh. rewrite predictWebcam_head.
  cbn [jsame R_arith]. rewrite Req_bool_false by exact Hne. cbn [negb when].
  unfold bind at 1, modify at 1. unfold bind at 1, gets at 1.
  cbn [handLandmarker set_lastVideoTime].
  replace (handLandmarker (if webcamRunning w
                           then requestAnimationFrame CbPredictWebcam w else w))
    with false by (destruct (webcamRunning w); symmetry; exact Hh).
  reflexivity.
Qed.

(** X12.  On a new video frame with the model loaded, [predictWebcam]
    returns normally and records the frame time whatever the detection does.
    When [detectForVideo] throws, the error is logged as a detection error
    and the canvas and the gesture state stay as they were; when it returns,
    an error is logged exactly when a hand of the result is incomplete. *)
Theorem predictWebcam_logs_detection_errors (ext : Externals R)
  (currentTime now : R) (w : World R) :
  currentTime <> lastVideoTime w -> handLandmarker w = true ->
  let w' := snd (predictWebcam ext currentTime now w) in
  fst (predictWebcam ext currentTime now w) = Normal tt /\
  lastVideoTime w' = currentTime /\
  match detectForVideo ext currentTime now with
  | Throw e =>
      console w' = console w ++ ["Detection error: " +:+ e] /\
      canvas w' = canvas w /\
      uHover w' = uHover w /\ uMouse w' = uMouse w /\ mouse w' = mouse w /\
      targetZoom w' = targetZoom w /\
      targetRotationSpeed w' = targetRotationSpeed w
  | Normal results =>
      console w' = console w ++
        (if forallb (complete ext) (default [] (landmarks results)) then []
         else ["Detection error: " +:+ TypeError])
  end.
Proof.
  intros Hne Hh w'. subst w'.
  rewrite (predictWebcam_detects ext currentTime now w Hne Hh). cbn [fst snd].
  set (w0 := if webcamRunning w then requestAnimationFrame CbPredictWebcam w else w).
  set (w1 := set_detectLog _ _).
  assert (Hw1 : console w1 = console w /\ canvas w1 = canvas w /\
                uHover w1 = uHover w /\ uMouse w1 = uMouse w /\ mouse w1 = mouse w /\
                targetZoom w1 = targetZoom w /\
                targetRotationSpeed w1 = targetRotationSpeed w /\
                lastVideoTime w1 = currentTime).
  { subst w1 w0. destruct (webcamRunning w); repeat split. }
  destruct Hw1 as (E1 & E2 & E3 & E4 & E5 & E6 & E7 & E8).
  split; [reflexivity|].
  destruct (detectForVideo ext currentTime now) as [results|e].
  - pose proof (onResults_fst ext results w1) as Hfst.
    destruct (keeps_onResults ext results w1) as (_ & K2 & _ & _ & _ & K6).
    destruct (onResults ext results w1) as [[[]|e] w2]; cbn [fst snd] in *.
    + split; [congruence|].
      destruct (forallb _ _); [|discriminate]. rewrite app_nil_r. congruence.
    + unfold console_error. cbn [lastVideoTime console set_console].
      split; [congruence|].
      destruct (forallb _ _); [discriminate|]. injection Hfst as ->.
      congruence.
  - unfold console_error.
    cbn [lastVideoTime console canvas uHover uMouse mouse targetZoom
         targetRotationSpeed set_console].
    repeat split; congruence.
Qed.

Lemma predictWebcam_logs_detection_errors_witness :
  console (snd (predictWebcam
                  (sampleExternals (-1) (fun _ _ => Throw "context lost"))
                  0 0 startedWorld))
    = ["Detection error: context lost"].
Proof.
  assert (Hne : 0 <> lastVideoTime (startedWorld (num := R))) by (cbn; lra).
  exact (proj1 (proj2 (proj2
    (predictWebcam_logs_detection_errors
       (sampleExternals (-1) (fun _ _ => Throw "context lost"))
       0 0 startedWorld Hne eq_refl)))).
Defined.

Lemma predictWebcam_canvas (ext : Externals R) (currentTime now : R) (w : World R) :
  exists ops,
    canvas (snd (predictWebcam ext currentTime now w)) = canvas w ++ ops /\
    (0 <= canvasDepth ops <= 1)%Z.
Proof.
  set (w0 := if webcamRunning w then requestAnimationFrame CbPredictWebcam w else w).
  assert (Hc0 : canvas w0 = canvas w) by (subst w0; destruct (webcamRunning w); reflexivity).
  destruct (Req_dec_T currentTime (lastVideoTime w)) as [Heq|Hne].
  - rewrite (predictWebcam_same ext currentTime now w Heq). cbn [snd]. fold w0.
    exists []. rewrite app_nil_r. split; [exact Hc0 | cbn; lia].
  - destruct (handLandmarker w) eqn:Hh.
    + rewrite (predictWebcam_detects ext currentTime now w Hne Hh). cbn [snd]. fold w0.
      set (w1 := set_detectLog _ _).
      assert (Hc1 : canvas w1 = canvas w) by exact Hc0.
      destruct (detectForVideo ext currentTime now) as [results|e].
      * destruct (onResults_canvas ext results w1) as (ops & Eops & Dops).
        exists ops. rewrite <- Hc1.
        destruct (onResults ext results w1) as [[[]|e] w2]; cbn [fst snd] in *;
          (split; [exact Eops | lia]).
      * exists []. rewrite app_nil_r. split; [exact Hc1 | cbn; lia].
    + rewrite (predictWebcam_unloaded ext currentTime now w Hne Hh). cbn [snd]. fold w0.
      exists []. rewrite app_nil_r. split; [exact Hc0 | cbn; lia].
Qed.

(** X2.  The calls [onResults] appends to the canvas balance their saves and
    restores when it returns normally, and leave one save unrestored when it
    throws. So over any run of the frame loop the depth of the canvas state
    stack never shrinks, and grows by at most one per frame. *)
Theorem onResults_throw_skips_restore (ext : Externals R) (results : Results R)
  (w : World R) (frames : list (R * R)) :
  let result := onResults ext results w in
  (exists ops,
     canvas (snd result) = canvas w ++ ops /\
     canvasDepth ops = match fst result with Normal _ => 0 | Throw _ => 1 end%Z) /\
  (canvasDepth (canvas w) <= canvasDepth (canvas (frameLoop ext frames w))
   <= canvasDepth (canvas w) + Z.of_nat (length frames))%Z.
Proof.
  intros result. split; [apply onResults_canvas|]. clear result.
  revert w. induction frames as [|[t now] frames IH]; intros w.
  - cbn [frameLoop length]. lia.
  - rewrite frameLoop_cons. cbn [length].
    destruct (predictWebcam_canvas ext t now w) as (ops & Eops & Dops).
    specialize (IH (snd (predictWebcam ext t now w))).
    rewrite Eops, canvasDepth_app in IH. lia.
Qed.

End FrameErrors.

(** ** The zoom gesture and the size of the hand *)

Section HandSize.
Local Open Scope R_scope.

Lemma dist_resize (k dx dy : R) (a b : Landmark R) :
  Spec.dist (landmark (k * lx a + dx) (k * ly a + dy))
            (landmark (k * lx b + dx) (k * ly b + dy)) = Rabs k * Spec.dist a b.
Proof.
  unfold Spec.dist. cbn [lx ly].
  rewrite <- sqrt_Rsqr_abs, <- sqrt_mult_alt by apply Rle_0_sqr.
  f_equal. unfold Rsqr. ring.
Qed.

Lemma zoom_resize (k dx dy : R) (wrist m c : Landmark R) :
  k <> 0 ->
  Spec.zoom (landmark (k * lx wrist + dx) (k * ly wrist + dy))
            (landmark (k * lx m + dx) (k * ly m + dy))
            (landmark (k * lx c + dx) (k * ly c + dy)) = Spec.zoom wrist m c.
Proof.
  intros Hk. unfold Spec.zoom, Spec.ratio. rewrite !dist_resize.
  assert (Hak : 0 < Rabs k) by (apply Rabs_pos_lt; exact Hk).
  destruct (Req_dec_T (Rabs k * Spec.dist wrist c) 0) as [E|E],
           (Req_dec_T (Spec.dist wrist c) 0) as [E'|E']; try reflexivity.
  - exfalso. apply E'. nra.
  - exfalso. apply E. rewrite E'. lra.
  - f_equal. field. split; lra.
Qed.

Lemma complete_resize (ext : Externals R) (k dx dy : R) (hand : list (Landmark R)) :
  complete ext (resizeHand k dx dy hand) = complete ext hand.
Proof.
  unfold complete, drawable, resizeHand. rewrite length_map. reflexivity.
Qed.

(** X4.  The zoom gesture depends on the shape of the hand only: a complete
    hand scaled by a non-zero factor and shifted in the image gives the same
    zoom target, and both frames go through. *)
Theorem zoom_ignores_hand_size (ext : Externals R) (hand : list (Landmark R))
  (k dx dy : R) (w : World R) :
  complete ext hand = true -> k <> 0 ->
  let near := onResults ext (mkResults (Some [resizeHand k dx dy hand])) w in
  let far := onResults ext (mkResults (Some [hand])) w in
  fst near = Normal tt /\ fst far = Normal tt /\
  targetZoom (snd near) = targetZoom (snd far).
Proof.
  intros Hc Hk near far. subst near far.
  destruct (complete_spec ext hand Hc) as (Hd & wrist & c & m & tip & H0 & H5 & H12 & H8).
  pose proof (onResults_hands_run ext [] hand w wrist c m tip eq_refl Hd H0 H5 H12 H8)
    as Hfar.
  assert (Hc' : complete ext (resizeHand k dx dy hand) = true)
    by (rewrite complete_resize; exact Hc).
  destruct (complete_spec ext _ Hc') as (Hd' & _).
  assert (Hget : forall i p, hand !! i = Some p ->
            resizeHand k dx dy hand !! i = Some (landmark (k * lx p + dx) (k * ly p + dy))).
  { intros i p Hp. unfold resizeHand. rewrite list_lookup_fmap, Hp. reflexivity. }
  pose proof (onResults_hands_run ext [] (resizeHand k dx dy hand) w _ _ _ _ eq_refl Hd'
                (Hget _ _ H0) (Hget _ _ H5) (Hget _ _ H12) (Hget _ _ H8)) as Hnear.
  cbn [app] in Hfar, Hnear.
  destruct Hfar as (F1 & F2 & _). destruct Hnear as (N1 & N2 & _).
  repeat split; try assumption.
  rewrite N2, F2, zoom_resize by exact Hk. reflexivity.
Qed.

Lemma zoom_ignores_hand_size_witness :
  targetZoom
    (snd (onResults hitExternals
            (mkResults (Some [resizeHand 0.5 0.25 0.125
                                (handWithRatio 1.3 (landmark 0.5 0.3))]))
            initialWorld)) =
  targetZoom
    (snd (onResults hitExternals
            (mkResults (Some [handWithRatio 1.3 (landmark 0.5 0.3)]))
            initialWorld)).
Proof.
  refine (proj2 (proj2 (zoom_ignores_hand_size hitExternals
                          (handWithRatio 1.3 (landmark 0.5 0.3)) 0.5 0.25 0.125
                          initialWorld eq_refl _))).
  lra.
Defined.

End HandSize.

(** ** Reachable states *)

Section ReachableClaims.
Local Open Scope R_scope.

(** A whole render tick is a run of two events: the writes of [animate],
    then the camera move of [controls.update()]. *)
Lemma animateFrame_events (ext : Externals R) (update : Vector3 R -> Vector3 R)
  (elapsedTime : R) (w : World R) :
  animateFrame update elapsedTime w =
  run ext [EvAnimate elapsedTime;
           EvControls (update (cameraPosition (animate elapsedTime w)))] w.
Proof. reflexivity. Qed.

Lemma run_app (ext : Externals R) (events events' : list (Event R)) (w : World R) :
  run ext (events ++ events') w = run ext events' (run ext events w).
Proof.
  revert w. induction events as [|e es IH]; intros w; [reflexivity|].
  cbn [app run]. apply IH.
Qed.

(** X8.  In every state the page can reach, the zoom target and the smoothed
    zoom lie between 0 and 1 when they are set.  A render tick then sets the
    smoothed zoom to some z between 0 and 1 and writes the camera's z as
    25 - 17 z, between 8 and 25, keeping x and y; [controls.update()] is
    handed that position and the camera ends where it moves it.  So the
    camera's z is 25 - 17 z after the tick whenever the orbit controls
    leave that position alone, and the state after the tick is again one
    the page can reach. *)
Theorem camera_stays_in_range (ext : Externals R) (events : list (Event R))
  (update : Vector3 R -> Vector3 R) (elapsedTime : R) :
  let w := run ext events initialWorld in
  let w' := animateFrame update elapsedTime w in
  in_unit (targetZoom w) /\ in_unit (currentZoom w) /\
  exists z,
    let written :=
      vec3 (x3 (cameraPosition w)) (y3 (cameraPosition w)) (25 - z * (25 - 8)) in
    currentZoom w' = Some z /\ 0 <= z <= 1 /\
    in_unit (targetZoom w') /\
    (* the camera write of [animate], and what [controls.update()] is handed *)
    cameraPosition (animate elapsedTime w) = written /\
    8 <= z3 written <= 25 /\
    cameraPosition w' = update written /\
    (* with no orbit input or damping pending *)
    (update written = written ->
       z3 (cameraPosition w') = 25 - z * (25 - 8) /\
       8 <= z3 (cameraPosition w') <= 25) /\
    (* a frame is a run of events, so what it leads to is reachable too *)
    w' = run ext (events ++
           [EvAnimate elapsedTime; EvControls (update written)]) initialWorld.
Proof.
  intros w w'.
  pose proof (page_inv_run ext events initialWorld page_inv_initial) as Hinv.
  fold w in Hinv. destruct Hinv as (Htz & Hcz & _).
  split; [exact Htz|]. split; [exact Hcz|].
  pose proof (fun evs => run_app ext events evs (initialWorld (num := R))) as Hrun.
  fold w in Hrun.
  assert (Hcam : exists z,
            currentZoom (animate elapsedTime w) = Some z /\ 0 <= z <= 1 /\
            in_unit (targetZoom (animate elapsedTime w)) /\
            cameraPosition (animate elapsedTime w) =
              vec3 (x3 (cameraPosition w)) (y3 (cameraPosition w)) (25 - z * (25 - 8))).
  { destruct (targetZoom w) as [tz|] eqn:Etz.
    - destruct (animate_zoom elapsedTime w tz Etz) as (Et & Ez & _).
      eexists. split; [exact Ez|]. cbn [in_unit] in Htz.
      assert (Hc : 0 <= default 0 (currentZoom w) <= 1)
        by (destruct (currentZoom w); cbn in *; lra).
      split; [lra|]. split; [rewrite Et; exact Htz|].
      unfold animate. rewrite Etz. cbn.
      destruct (currentZoom w); cbn; f_equal; lra.
    - destruct (animate_zoom_undefined elapsedTime w Etz) as (Et & Ez).
      exists 0. split; [exact Ez|]. split; [lra|]. split; [rewrite Et; cbn; lra|].
      unfold animate. rewrite Etz. cbn. f_equal; lra. }
  destruct Hcam as (z & Ez & Hz & Ht & Ecam).
  exists z. cbn zeta.
  assert (Ew' : cameraPosition w' = update (cameraPosition (animate elapsedTime w)))
    by reflexivity.
  split; [exact Ez|]. split; [exact Hz|]. split; [exact Ht|]. split; [exact Ecam|].
  split; [cbn [z3]; lra|].
  split; [rewrite Ew', Ecam; reflexivity|].
  split.
  - intros Hfix. rewrite Ew', Ecam, Hfix. cbn [z3]. lra.
  - rewrite Hrun. subst w'. rewrite (animateFrame_events ext), Ecam. reflexivity.
Qed.

(** X9.  In every state the page can reach, the rotation target is one of
    -0.05, 0.002 and 0.05 when it is set, and the smoothed speed lies
    between -0.05 and 0.05 when it is set; it still does after a further
    render tick, which turns the planet by at most 0.05. *)
Theorem rotation_speed_stays_bounded (ext : Externals R) (events : list (Event R))
  (elapsedTime : R) :
  let w := run ext events initialWorld in
  let w' := animate elapsedTime w in
  target_speed_ok (targetRotationSpeed w) /\
  speed_ok (currentRotationSpeed w) /\
  speed_ok (currentRotationSpeed w') /\
  Rabs (rotationY w' - rotationY w) <= 0.05.
Proof.
  intros w w'.
  pose proof (page_inv_run ext events initialWorld page_inv_initial) as Hinv.
  fold w in Hinv.
  pose proof (page_inv_animate elapsedTime w Hinv) as Hinv'. fold w' in Hinv'.
  destruct Hinv as (_ & _ & Hts & Hcs & _). destruct Hinv' as (_ & _ & _ & Hcs' & _).
  repeat split; try assumption.
  destruct (animate_rotation elapsedTime w) as (_ & Ecs & Erot). fold w' in Ecs, Erot.
  rewrite Ecs in Hcs'. cbn [speed_ok] in Hcs'. rewrite Erot.
  apply Rabs_le. lra.
Qed.

Lemma distance_ge_dz (a b : Vector3 R) : Rabs (z3 a - z3 b) <= distance a b.
Proof.
  unfold distance, vec3_length, vec3_sub. cbn [x3 y3 z3 jsqrt jadd jsub jmul R_arith].
  rewrite <- sqrt_Rsqr_abs. apply sqrt_le_1_alt. unfold Rsqr.
  pose proof (Rle_0_sqr (x3 a - x3 b)). pose proof (Rle_0_sqr (y3 a - y3 b)).
  unfold Rsqr in *. lra.
Qed.

Lemma vec3_add_zero (p v : Vector3 R) : vec3_add p (vec3_scale v 0) = p.
Proof. destruct p, v. unfold vec3_add, vec3_scale. cbn. f_equal; lra. Qed.

(** X7.  The point [updateInteraction] hands to the shader always lies in
    the plane z = 0. In every state the page can reach, [uHover] is 0 or 1,
    [uMouse] is the initial far point or lies in that plane, and it lies in
    the plane whenever [uHover] is 1. A vertex is then left where the jitter
    put it when the repulsion is off (and the vertex is not at [uMouse]),
    and when it is at least 4 away from the plane. *)
Theorem repulsion_centre_stays_in_plane (ext : Externals R) (events : list (Event R))
  (x y : R) (w0 : World R) (uTime : R) (position aRandom : Vector3 R) :
  let w := run ext events initialWorld in
  let pos := jitter uTime position aRandom in
  let out := vertexShader uTime (uMouse w) (uHover w) position aRandom in
  z3 (uMouse (updateInteraction ext x y w0)) = 0 /\
  (uHover w = 0 \/ uHover w = 1) /\
  (uMouse w = vec3 9999 9999 9999 \/ z3 (uMouse w) = 0) /\
  (uHover w = 1 -> z3 (uMouse w) = 0) /\
  (uHover w = 0 -> pos <> uMouse w -> out = pos) /\
  (uHover w = 1 -> 4 <= Rabs (z3 pos) -> out = pos).
Proof.
  intros w pos out.
  pose proof (page_inv_run ext events initialWorld page_inv_initial) as Hinv.
  fold w in Hinv. destruct Hinv as (_ & _ & _ & _ & Hm).
  assert (Hout : out = if Rlt_dec (distance pos (uMouse w)) 4
                       then vec3_add pos
                              (vec3_scale (vec3_scale (vec3_sub pos (uMouse w))
                                             (/ distance pos (uMouse w)))
                                 (Spec.falloff (distance pos (uMouse w)) (uHover w)))
                       else pos).
  { subst out. unfold vertexShader. fold pos. apply repel_run. }
  repeat match goal with |- _ /\ _ => split end.
  - apply updateInteraction_in_plane.
  - destruct Hm as [[H _]|[H _]]; auto.
  - destruct Hm as [[_ H]|[_ H]]; auto.
  - intros H1. destruct Hm as [[H _]|[_ H]]; [lra | exact H].
  - intros H0 _. rewrite Hout, H0.
    destruct (Rlt_dec _ 4) as [Hd|Hd]; [|reflexivity].
    rewrite falloff_inside by exact Hd.
    replace ((1 - distance pos (uMouse w) / 4) * 3 * 0) with 0 by lra.
    apply vec3_add_zero.
  - intros H1 Hz. rewrite Hout.
    destruct (Rlt_dec _ 4) as [Hd|Hd]; [|reflexivity].
    assert (Hz0 : z3 (uMouse w) = 0) by (destruct Hm as [[H _]|[_ H]]; [lra | exact H]).
    pose proof (distance_ge_dz pos (uMouse w)) as Hge. rewrite Hz0 in Hge.
    replace (z3 pos - 0) with (z3 pos) in Hge by lra. lra.
Qed.

End ReachableClaims.

(** ** Rotation over many ticks, and the idle page *)

Section Turning.
Local Open Scope R_scope.

Lemma ticks_rotation (times : list R) (w : World R) (ts cs : R) :
  targetRotationSpeed w = Some ts -> currentRotationSpeed w = Some cs ->
  let n := length times in
  targetRotationSpeed (ticks times w) = Some ts /\
  currentRotationSpeed (ticks times w) = Some (ts + (cs - ts) * 0.95 ^ n) /\
  rotationY (ticks times w) =
    rotationY w + INR n * ts + 19 * (cs - ts) * (1 - 0.95 ^ n).
Proof.
  revert w cs. induction times as [|t times IH]; intros w cs Hts Hcs.
  - cbn [ticks length pow INR]. rewrite Hts, Hcs. repeat split; try f_equal; lra.
  - rewrite ticks_cons.
    destruct (animate_rotation t w) as (Ets & Ecs & Erot).
    rewrite Hts in Ets. rewrite Hts, Hcs in Ecs, Erot.
    cbn [default from_option Datatypes.id] in Ets, Ecs, Erot.
    destruct (IH _ _ Ets Ecs) as (F1 & F2 & F3).
    cbn zeta. cbn [length]. rewrite S_INR. cbn [pow].
    split; [exact F1|]. split.
    + rewrite F2. f_equal. lra.
    + rewrite F3, Erot. lra.
Qed.

(** X10.  With both speeds set and the target ts held, n render ticks turn
    the planet by n ts + 19 (cs - ts) (1 - 0.95^n), where cs is the smoothed
    speed before the first tick: the transient never exceeds 19 |cs - ts|,
    and there is none when the speed already equals the target. *)
Theorem rotation_accumulates (times : list R) (w : World R) (ts cs : R) :
  targetRotationSpeed w = Some ts -> currentRotationSpeed w = Some cs ->
  let n := length times in
  let angle := rotationY (ticks times w) in
  angle = rotationY w + INR n * ts + 19 * (cs - ts) * (1 - 0.95 ^ n) /\
  Rabs (angle - (rotationY w + INR n * ts)) <= 19 * Rabs (cs - ts) /\
  (cs = ts -> angle = rotationY w + INR n * ts).
Proof.
  intros Hts Hcs n angle.
  destruct (ticks_rotation times w ts cs Hts Hcs) as (_ & _ & E). fold n angle in E.
  pose proof (pow_095_pos n) as P.
  split; [exact E|]. split.
  - replace (angle - (rotationY w + INR n * ts))
      with (19 * (1 - 0.95 ^ n) * (cs - ts)) by lra.
    rewrite Rabs_mult, (Rabs_pos_eq (19 * (1 - 0.95 ^ n))) by lra.
    pose proof (Rabs_pos (cs - ts)). nra.
  - intros ->. rewrite E. lra.
Qed.

Lemma rotation_accumulates_witness :
  rotationY (ticks [0; 0] smoothingStart) =
  0 / 1 + INR 2 * 0.05 + 19 * (0.002 - 0.05) * (1 - 0.95 ^ 2).
Proof.
  exact (proj1 (rotation_accumulates [0; 0] smoothingStart 0.05 0.002 eq_refl eq_refl)).
Defined.

(** X11.  A render tick replaces an unset zoom target by 0, and the smoothed
    zoom with it, which puts the camera at z = 25; it replaces unset
    rotation speeds by 0.002. So a page that gets no input stays zoomed out
    at (0, 5, 25), turns by 0.002 per tick, and keeps the repulsion off. *)
Theorem idle_page_rests_far_out (times : list R) (t : R) (w : World R) :
  let idle := ticks (t :: times) initialWorld in
  (targetZoom w = None ->
     targetZoom (animate t w) = Some 0 /\ currentZoom (animate t w) = Some 0 /\
     z3 (cameraPosition (animate t w)) = 25) /\
  (targetRotationSpeed w = None -> currentRotationSpeed w = None ->
     targetRotationSpeed (animate t w) = Some 0.002 /\
     currentRotationSpeed (animate t w) = Some 0.002 /\
     rotationY (animate t w) = rotationY w + 0.002) /\
  targetZoom idle = Some 0 /\ currentZoom idle = Some 0 /\
  cameraPosition idle = vec3 0 5 25 /\
  targetRotationSpeed idle = Some 0.002 /\ currentRotationSpeed idle = Some 0.002 /\
  rotationY idle = 0.002 * INR (S (length times)) /\
  uHover idle = 0 /\ uMouse idle = vec3 9999 9999 9999.
Proof.
  intros idle.
  assert (Hz : forall w0 t0, targetZoom w0 = None ->
            targetZoom (animate t0 w0) = Some 0 /\ currentZoom (animate t0 w0) = Some 0 /\
            z3 (cameraPosition (animate t0 w0)) = 25).
  { intros w0 t0 E. destruct (animate_zoom_undefined t0 w0 E) as [E1 E2].
    repeat split; try assumption. unfold animate. rewrite E. cbn. lra. }
  assert (Hr : forall w0 t0, targetRotationSpeed w0 = None -> currentRotationSpeed w0 = None ->
            targetRotationSpeed (animate t0 w0) = Some 0.002 /\
            currentRotationSpeed (animate t0 w0) = Some 0.002 /\
            rotationY (animate t0 w0) = rotationY w0 + 0.002).
  { intros w0 t0 E1 E2. destruct (animate_rotation t0 w0) as (F1 & F2 & F3).
    rewrite E1 in F1. rewrite E1, E2 in F2, F3. cbn in F1, F2, F3.
    repeat split; [exact F1 | rewrite F2; f_equal; lra | rewrite F3; lra]. }
  split; [apply Hz|]. split; [apply Hr|].
  set (w1 := animate t (initialWorld (num := R))).
  destruct (Hz initialWorld t eq_refl) as (Z1 & Z2 & Z3).
  destruct (Hr initialWorld t eq_refl eq_refl) as (R1 & R2 & R3).
  fold w1 in Z1, Z2, Z3, R1, R2, R3.
  destruct (ticks_closed_form times w1 0 0 0.002 0.002 Z1 Z2 R1 R2) as (C1 & C2 & C3 & C4).
  destruct (ticks_rotation times w1 0.002 0.002 R1 R2) as (_ & _ & C5).
  assert (Hkeep : forall (ts : list R) (w0 : World R),
            uHover (ticks ts w0) = uHover w0 /\ uMouse (ticks ts w0) = uMouse w0 /\
            x3 (cameraPosition (ticks ts w0)) = x3 (cameraPosition w0) /\
            y3 (cameraPosition (ticks ts w0)) = y3 (cameraPosition w0)).
  { induction ts as [|t0 ts IH]; intros w0; [repeat split|].
    rewrite ticks_cons. destruct (IH (animate t0 w0)) as (-> & -> & -> & ->).
    unfold animate. destruct (targetZoom w0); repeat split. }
  destruct (Hkeep (t :: times) initialWorld) as (K1 & K2 & K3 & K4).
  assert (Hcam : z3 (cameraPosition idle) = 25).
  { subst idle. rewrite ticks_cons. fold w1.
    destruct times as [|t' times'] using rev_ind; [exact Z3|].
    rewrite ticks_app.
    destruct (ticks_closed_form times' w1 0 0 0.002 0.002 Z1 Z2 R1 R2) as (D1 & _ & D3 & _).
    destruct (animate_zoom t' _ _ D1) as (_ & _ & ->). rewrite D3.
    unfold Spec.cameraDistance. cbn. lra. }
  subst idle. rewrite ticks_cons in *. fold w1 in Hcam, K1, K2, K3, K4 |- *.
  repeat match goal with |- _ /\ _ => split end.
  - exact C1.
  - rewrite C3. f_equal. lra.
  - destruct (cameraPosition (ticks times w1)) as [cx cy cz].
    cbn in K3, K4, Hcam. f_equal; lra.
  - exact C2.
  - rewrite C4. f_equal. lra.
  - rewrite C5, R3. rewrite S_INR. cbn. lra.
  - rewrite K1. cbn. lra.
  - rewrite K2. cbn. f_equal; lra.
Qed.

End Turning.

(** ** The loops keep themselves going *)

Section Loops.
Local Open Scope R_scope.

Lemma predictWebcam_rafQueue (ext : Externals R) (currentTime now : R) (w : World R) :
  let w' := snd (predictWebcam ext currentTime now w) in
  rafQueue w' = rafQueue w ++ (if webcamRunning w then [CbPredictWebcam] else []) /\
  webcamRunning w' = webcamRunning w.
Proof.
  set (w0 := if webcamRunning w then requestAnimationFrame CbPredictWebcam w else w).
  assert (H0 : rafQueue w0 = rafQueue w ++ (if webcamRunning w then [CbPredictWebcam] else [])
               /\ webcamRunning w0 = webcamRunning w).
  { subst w0. destruct (webcamRunning w) eqn:E; cbn; [auto|].
    rewrite app_nil_r. auto. }
  destruct H0 as [Hq Hr]. cbn zeta.
  destruct (Req_dec_T currentTime (lastVideoTime w)) as [Heq|Hne].
  - rewrite (predictWebcam_same ext currentTime now w Heq). cbn [snd]. fold w0. auto.
  - destruct (handLandmarker w) eqn:Hh.
    + rewrite (predictWebcam_detects ext currentTime now w Hne Hh). cbn [snd]. fold w0.
      set (w1 := set_detectLog _ _).
      destruct (detectForVideo ext currentTime now) as [results|e]; [|auto].
      destruct (keeps_onResults ext results w1) as (_ & _ & K3 & _ & K5 & _).
      destruct (onResults ext results w1) as [[[]|e] w2]; cbn [snd] in *;
        unfold console_error; cbn [rafQueue webcamRunning set_console];
        rewrite K3, K5; auto.
    + rewrite (predictWebcam_unloaded ext currentTime now w Hne Hh). cbn [snd]. fold w0.
      auto.
Qed.

(** X13.  Every render tick requests one more animation frame. Every run of
    [predictWebcam] requests one exactly when the webcam runs, which the
    loop never changes. The legacy [sendFrame] requests one on every run,
    and sends the video once for each frame whose [readyState] is at least
    2. *)
Theorem loops_reschedule_themselves (ext : Externals R) (times : list R)
  (frames : list (R * R)) (legacyFrames : list (Z * R)) (w : World R) :
  rafQueue (ticks times w) = rafQueue w ++ replicate (length times) CbAnimate /\
  rafQueue (frameLoop ext frames w) =
    rafQueue w ++
    (if webcamRunning w then replicate (length frames) CbPredictWebcam else []) /\
  webcamRunning (frameLoop ext frames w) = webcamRunning w /\
  rafQueue (legacyFrameLoop legacyFrames w) =
    rafQueue w ++ replicate (length legacyFrames) CbSendFrame /\
  length (detectLog (legacyFrameLoop legacyFrames w)) =
    (length (detectLog w) +
     length (filter (fun frame => (2 <= fst frame)%Z) legacyFrames))%nat.
Proof.
  repeat match goal with |- _ /\ _ => split end.
  - revert w. induction times as [|t times IH]; intros w.
    + cbn. by rewrite app_nil_r.
    + rewrite ticks_cons, IH. cbn [length replicate].
      replace (rafQueue (animate t w)) with (rafQueue w ++ [CbAnimate])
        by (unfold animate; destruct (targetZoom w); reflexivity).
      rewrite <- app_assoc. reflexivity.
  - revert w. induction frames as [|[t now] frames IH]; intros w.
    + cbn. destruct (webcamRunning w); by rewrite app_nil_r.
    + rewrite frameLoop_cons, IH.
      destruct (predictWebcam_rafQueue ext t now w) as [-> ->].
      cbn [length replicate]. destruct (webcamRunning w).
      * rewrite <- app_assoc. reflexivity.
      * rewrite !app_nil_r. reflexivity.
  - revert w. induction frames as [|[t now] frames IH]; intros w; [reflexivity|].
    rewrite frameLoop_cons, IH. apply predictWebcam_rafQueue.
  - revert w. induction legacyFrames as [|[rs t] fs IH]; intros w.
    + cbn. by rewrite app_nil_r.
    + cbn [legacyFrameLoop length replicate]. rewrite IH.
      unfold Legacy.sendFrame. destruct (2 <=? rs)%Z; cbn; rewrite <- app_assoc; reflexivity.
  - revert w. induction legacyFrames as [|[rs t] fs IH]; intros w.
    + cbn. lia.
    + cbn [legacyFrameLoop]. rewrite IH. rewrite filter_cons. cbn [fst].
      unfold Legacy.sendFrame.
      destruct (decide (2 <= rs)%Z) as [Hrs|Hrs].
      * apply Z.leb_le in Hrs. rewrite Hrs. cbn. rewrite length_app. cbn. lia.
      * apply Z.leb_nle in Hrs. rewrite Hrs. cbn. lia.
Qed.

End Loops.

(** ** Seeds of the particles *)

Section Seeds.
Local Open Scope R_scope.
Variable rand : nat -> R.
Variable cfg : Config R.

Lemma fill_randoms_run idx b :
  randoms (fill_randoms rand idx b) =
    write3 idx (rand (drawn b)) (rand (drawn b + 1)) (rand (drawn b + 2)) (randoms b).
Proof.
  unfold fill_randoms, random, set_random, write3. cbn.
  replace (S (drawn b)) with (drawn b + 1)%nat by lia.
  replace (S (drawn b + 1)) with (drawn b + 2)%nat by lia.
  reflexivity.
Qed.

Lemma sphereParticle_randoms i b :
  randoms (sphereParticle rand cfg i b) =
    write3 (i * 3) (rand (drawn b)) (rand (drawn b + 1)) (rand (drawn b + 2)) (randoms b).
Proof. unfold sphereParticle. rewrite fill_randoms_run. reflexivity. Qed.

Lemma ringParticle_randoms off i b :
  randoms (ringParticle rand cfg off i b) =
    write3 (off + i * 3) (rand (drawn b + 3)) (rand (drawn b + 4)) (rand (drawn b + 5))
      (randoms b).
Proof.
  unfold ringParticle, random. cbn [drawn positions randoms].
  rewrite fill_randoms_run. cbn [drawn randoms set_position].
  replace (S (S (S (drawn b)))) with (drawn b + 3)%nat by lia.
  replace (drawn b + 3 + 1)%nat with (drawn b + 4)%nat by lia.
  replace (drawn b + 3 + 2)%nat with (drawn b + 5)%nat by lia.
  reflexivity.
Qed.

Lemma write3_cell idx x y z l k :
  (idx + 2 < length l)%nat -> (k < 3)%nat ->
  write3 idx x y z l !! (idx + k)%nat =
    Some (match k with 0%nat => x | 1%nat => y | _ => z end).
Proof.
  intros Hl Hk. destruct (write3_lookup idx x y z l Hl) as (H0 & H1 & H2).
  destruct k as [|[|[|k]]]; [| | |lia].
  - rewrite Nat.add_0_r. exact H0.
  - exact H1.
  - exact H2.
Qed.

Lemma sphere_loop_randoms n b :
  let b' := for_loop n (sphereParticle rand cfg) b in
  length (randoms b') = length (randoms b) /\
  (forall i k, (i < n)%nat -> (k < 3)%nat -> (i * 3 + 2 < length (randoms b))%nat ->
     randoms b' !! (i * 3 + k)%nat = Some (rand (drawn b + 3 * i + k))) /\
  (forall j, (n * 3 <= j)%nat -> randoms b' !! j = randoms b !! j).
Proof.
  induction n as [|n IH]; cbn [for_loop].
  - repeat split; intros; solve [lia | reflexivity].
  - destruct IH as (Hlen & Hin & Hout).
    destruct (sphere_loop rand cfg n b) as (_ & Hdr & _).
    rewrite sphereParticle_randoms, Hdr, write3_length.
    repeat match goal with |- _ /\ _ => split end.
    + exact Hlen.
    + intros i k Hi Hk Hl. destruct (decide (i = n)) as [->|Hne].
      * rewrite write3_cell by lia.
        destruct k as [|[|[|k]]]; try lia; f_equal; f_equal; lia.
      * rewrite write3_other by lia. apply Hin; lia.
    + intros j Hj. rewrite write3_other by lia. apply Hout. lia.
Qed.

Lemma ring_loop_randoms off n b :
  let b' := for_loop n (ringParticle rand cfg off) b in
  length (randoms b') = length (randoms b) /\
  (forall i k, (i < n)%nat -> (k < 3)%nat -> (off + i * 3 + 2 < length (randoms b))%nat ->
     randoms b' !! (off + i * 3 + k)%nat = Some (rand (drawn b + 6 * i + 3 + k))) /\
  (forall j, (j < off)%nat -> randoms b' !! j = randoms b !! j).
Proof.
  induction n as [|n IH]; cbn [for_loop].
  - repeat split; intros; solve [lia | reflexivity].
  - destruct IH as (Hlen & Hin & Hout).
    destruct (ring_loop rand cfg off n b) as (_ & Hdr & _).
    rewrite ringParticle_randoms, Hdr, write3_length.
    repeat match goal with |- _ /\ _ => split end.
    + exact Hlen.
    + intros i k Hi Hk Hl. destruct (decide (i = n)) as [->|Hne].
      * rewrite write3_cell by lia.
        destruct k as [|[|[|k]]]; try lia; f_equal; f_equal; lia.
      * rewrite write3_other by lia. apply Hin; lia.
    + intros j Hj. rewrite write3_other by lia. apply Hout. lia.
Qed.

Lemma createParticles_randoms :
  let sphere := Z.to_nat (particleCountSphere cfg) in
  let ring := Z.to_nat (particleCountRing cfg) in
  let b := createParticles rand cfg in
  length (randoms b) = ((sphere + ring) * 3)%nat /\
  drawn b = (3 * sphere + 6 * ring)%nat /\
  (forall i k, (i < sphere)%nat -> (k < 3)%nat ->
     randoms b !! (i * 3 + k)%nat = Some (rand (3 * i + k))) /\
  (forall j k, (j < ring)%nat -> (k < 3)%nat ->
     randoms b !! (sphere * 3 + j * 3 + k)%nat =
       Some (rand (3 * sphere + 6 * j + 3 + k))).
Proof.
  intros sphere ring b. subst b. unfold createParticles. fold sphere ring.
  set (b0 := mkBuffers _ _ _).
  assert (Hb0 : length (randoms b0) = ((sphere + ring) * 3)%nat)
    by (subst b0; cbn [randoms]; apply length_replicate).
  destruct (sphere_loop rand cfg sphere b0) as (_ & Hdr1 & _).
  destruct (sphere_loop_randoms sphere b0) as (Hlen1 & Hin1 & _).
  set (b1 := for_loop sphere (sphereParticle rand cfg) b0) in *.
  destruct (ring_loop rand cfg (sphere * 3) ring b1) as (_ & Hdr2 & _).
  destruct (ring_loop_randoms (sphere * 3) ring b1) as (Hlen2 & Hin2 & Hout2).
  set (b2 := for_loop ring (ringParticle rand cfg (sphere * 3)) b1) in *.
  assert (Hd0 : drawn b0 = 0%nat) by reflexivity.
  repeat match goal with |- _ /\ _ => split end.
  - lia.
  - lia.
  - intros i k Hi Hk. rewrite Hout2 by lia. rewrite Hin1 by lia.
    rewrite Hd0. reflexivity.
  - intros j k Hj Hk. rewrite Hin2 by lia. rewrite Hdr1, Hd0.
    f_equal; f_equal; lia.
Qed.

End Seeds.

Section SeedClaims.
Local Open Scope R_scope.

(** X14.  For non-negative particle counts, [createParticles] fills both
    buffers with three entries per particle and draws three random numbers
    per sphere particle and six per ring particle. The seeds of sphere
    particle i are its three draws; those of ring particle j are the last
    three of its six draws. Every seed is one of the draws, hence lies in
    the range of [Math.random] when the draws do. *)
Theorem createParticles_seeds_every_particle (rand : nat -> R) (cfg : Config R) :
  (0 <= particleCountSphere cfg)%Z -> (0 <= particleCountRing cfg)%Z ->
  let sphere := Z.to_nat (particleCountSphere cfg) in
  let ring := Z.to_nat (particleCountRing cfg) in
  let b := createParticles rand cfg in
  length (positions b) = ((sphere + ring) * 3)%nat /\
  length (randoms b) = ((sphere + ring) * 3)%nat /\
  drawn b = (3 * sphere + 6 * ring)%nat /\
  (forall i k, (i < sphere)%nat -> (k < 3)%nat ->
     randoms b !! (i * 3 + k)%nat = Some (rand (3 * i + k)%nat)) /\
  (forall j k, (j < ring)%nat -> (k < 3)%nat ->
     randoms b !! (sphere * 3 + j * 3 + k)%nat =
       Some (rand (3 * sphere + 6 * j + 3 + k)%nat)) /\
  (forall idx, (idx < (sphere + ring) * 3)%nat ->
     exists n, (n < drawn b)%nat /\ randoms b !! idx = Some (rand n)) /\
  ((forall n, 0 <= rand n < 1) ->
     forall idx v, randoms b !! idx = Some v -> 0 <= v < 1).
Proof.
  intros _ _ sphere ring b.
  destruct (createParticles_run rand cfg) as (Hlenp & _).
  destruct (createParticles_randoms rand cfg) as (Hlen & Hdr & Hs & Hr).
  fold sphere ring b in Hlenp, Hlen, Hdr, Hs, Hr.
  assert (Hcell : forall idx, (idx < (sphere + ring) * 3)%nat ->
            exists n, (n < drawn b)%nat /\ randoms b !! idx = Some (rand n)).
  { intros idx Hidx.
    pose proof (Nat.div_mod_eq idx 3) as Hq.
    pose proof (Nat.mod_upper_bound idx 3 ltac:(lia)) as Hk.
    destruct (decide (idx < sphere * 3)%nat) as [Hlt|Hge].
    - exists (3 * (idx / 3) + idx mod 3)%nat. split; [lia|].
      rewrite <- Hs by lia. f_equal. lia.
    - pose proof (Nat.div_mod_eq (idx - sphere * 3) 3) as Hq'.
      pose proof (Nat.mod_upper_bound (idx - sphere * 3) 3 ltac:(lia)) as Hk'.
      exists (3 * sphere + 6 * ((idx - sphere * 3) / 3) + 3 + (idx - sphere * 3) mod 3)%nat.
      split; [lia|].
      rewrite <- Hr by lia. f_equal. lia. }
  repeat match goal with |- _ /\ _ => split end; try assumption.
  - intros Hrand idx v Hv.
    assert (Hidx : (idx < (sphere + ring) * 3)%nat)
      by (rewrite <- Hlen; eapply lookup_lt_Some; exact Hv).
    destruct (Hcell idx Hidx) as (n & _ & Hn). rewrite Hn in Hv. injection Hv as <-.
    apply Hrand.
Qed.

Lemma createParticles_seeds_every_particle_witness :
  randoms (createParticles (fun n => / (INR n + 2)) CONFIG) !! (0 * 3 + 1)%nat
    = Some (/ (INR (3 * 0 + 1) + 2)).
Proof.
  assert (Hs : (0 <= particleCountSphere (CONFIG (num := R)))%Z)
    by (cbn [particleCountSphere CONFIG]; lia).
  assert (Hr : (0 <= particleCountRing (CONFIG (num := R)))%Z)
    by (cbn [particleCountRing CONFIG]; lia).
  destruct (createParticles_seeds_every_particle (fun n => / (INR n + 2)) CONFIG Hs Hr)
    as (_ & _ & _ & Hcell & _).
  apply (Hcell 0%nat 1%nat); [cbn [particleCountSphere CONFIG] |]; lia.
Defined.

End SeedClaims.

(** ** Layers of the sphere *)

Section Poles.
Local Open Scope R_scope.

(** X15.  Sphere particle i (of N) lies at height radius (2 i / N - 1): the
    layers are 2 radius / N apart, they start at -radius, where particle 0
    sits on the axis, and stay below +radius, so that no particle lies on
    the opposite pole. *)
Theorem sphere_layers_evenly_spaced (rand : nat -> R) (cfg : Config R) (i : nat) :
  (i < Z.to_nat (particleCountSphere cfg))%nat ->
  let Ns := IZR (particleCountSphere cfg) in
  let radius := planetRadius cfg in
  let b := createParticles rand cfg in
  let z := radius * (2 * INR i / Ns - 1) in
  positions b !! (i * 3 + 2)%nat = Some z /\
  (0 <= radius -> - radius <= z /\ z <= radius - 2 * radius / Ns) /\
  (0 < radius -> z < radius) /\
  (i = 0%nat ->
     positions b !! 0%nat = Some 0 /\ positions b !! 1%nat = Some 0 /\
     positions b !! 2%nat = Some (- radius)) /\
  ((S i < Z.to_nat (particleCountSphere cfg))%nat ->
     positions b !! (S i * 3 + 2)%nat = Some (z + 2 * radius / Ns)).
Proof.
  intros Hi Ns radius b z.
  destruct (createParticles_run rand cfg) as (_ & Hs & _). fold b in Hs.
  assert (Hpos : forall j, (j < Z.to_nat (particleCountSphere cfg))%nat ->
                 0 <= INR j /\ INR j + 1 <= Ns).
  { intros j Hj. split; [apply pos_INR|].
    subst Ns. rewrite <- S_INR, INR_IZR_INZ. apply IZR_le. lia. }
  assert (Hz : forall j, (j < Z.to_nat (particleCountSphere cfg))%nat ->
               positions b !! (j * 3 + 2)%nat = Some (radius * (2 * INR j / Ns - 1))).
  { intros j Hj. destruct (Hs j Hj) as (_ & _ & ->).
    unfold Spec.spherePoint. cbn [fst snd]. fold Ns radius. f_equal. f_equal.
    destruct (Hpos j Hj) as [H0 H1].
    assert (Hq : 0 <= INR j / Ns < 1).
    { assert (HN : 0 < Ns) by lra.
      assert (E : INR j / Ns * Ns = INR j) by (field; lra).
      split; [apply Rmult_le_pos; [lra | left; apply Rinv_0_lt_compat; lra]|].
      nra. }
    replace (2 * INR j / Ns) with (2 * (INR j / Ns)) by (unfold Rdiv; ring).
    clear - Hq. rewrite cos_acos; lra. }
  destruct (Hpos i Hi) as [H0 H1].
  assert (HN : 0 < Ns) by lra.
  assert (Hq : 0 <= INR i / Ns /\ INR i / Ns <= 1 - / Ns).
  { assert (E : INR i / Ns * Ns = INR i) by (field; lra).
    assert (E' : / Ns * Ns = 1) by (field; lra).
    assert (0 < / Ns) by (apply Rinv_0_lt_compat; lra).
    split; [apply Rmult_le_pos; lra | nra]. }
  repeat match goal with |- _ /\ _ => split end.
  - apply Hz, Hi.
  - intros Hr. subst z.
    pose proof (Rmult_le_pos radius (INR i / Ns) Hr ltac:(lra)) as P1.
    pose proof (Rmult_le_pos radius (1 - / Ns - INR i / Ns) Hr ltac:(lra)) as P2.
    replace (2 * INR i / Ns) with (2 * (INR i / Ns)) by (unfold Rdiv; ring).
    unfold Rdiv in *. split; lra.
  - intros Hr. subst z.
    assert (HI : 0 < / Ns) by (apply Rinv_0_lt_compat; lra).
    pose proof (Rmult_lt_0_compat radius (1 - INR i / Ns) Hr ltac:(lra)) as P.
    replace (2 * INR i / Ns) with (2 * (INR i / Ns)) by (unfold Rdiv; ring).
    lra.
  - intros ->. destruct (Hs 0%nat Hi) as (E1 & E2 & _).
    pose proof (Hz 0%nat Hi) as E3.
    change (0 * 3)%nat with 0%nat in E1. change (0 * 3 + 1)%nat with 1%nat in E2.
    change (0 * 3 + 2)%nat with 2%nat in E3.
    rewrite E1, E2, E3. unfold Spec.spherePoint. cbn [fst snd INR].
    replace (-1 + 2 * 0 / IZR (particleCountSphere cfg)) with (- (1))
      by (unfold Rdiv; lra).
    rewrite acos_opp, acos_1, Rminus_0_r, sin_PI.
    repeat split; f_equal; unfold Rdiv; lra.
  - intros HS. rewrite (Hz (S i) HS). subst z. rewrite S_INR. f_equal. field. lra.
Qed.

Lemma sphere_layers_evenly_spaced_witness :
  positions (createParticles (fun _ => 0.5) CONFIG) !! (0 * 3 + 2)%nat
    = Some (5 / 1 * (2 * INR 0 / IZR 20000 - 1)).
Proof.
  assert (Hi : (0 < Z.to_nat (particleCountSphere (CONFIG (num := R))))%nat)
    by (cbn [particleCountSphere CONFIG]; lia).
  exact (proj1 (sphere_layers_evenly_spaced (fun _ => 0.5) CONFIG 0 Hi)).
Defined.

End Poles.

(** ** Shaders: jitter, lighting and the fragment *)

Section Shader.
Local Open Scope R_scope.

Lemma Rabs_le_between (a b : R) : Rabs a <= b -> - b <= a <= b.
Proof. unfold Rabs. destruct (Rcase_abs a); lra. Qed.

Lemma norm_le_of_components (v : Vector3 R) (a : R) :
  0 <= a -> Rabs (x3 v) <= a -> Rabs (y3 v) <= a -> Rabs (z3 v) <= a ->
  Spec.norm v <= a * sqrt 3.
Proof.
  intros Ha Hx Hy Hz. unfold Spec.norm.
  rewrite <- (sqrt_square a) at 1 by exact Ha. rewrite <- sqrt_mult_alt by nra.
  apply sqrt_le_1_alt.
  apply Rabs_le_between in Hx, Hy, Hz. nra.
Qed.

(** X16.  The jitter moves each coordinate of a vertex by at most 0.05,
    hence the vertex by at most 0.05 sqrt 3; it has period 4 pi in [uTime];
    at time 0 with zero seeds only the y coordinate moves, by 0.05. *)
Theorem jitter_is_small_and_periodic (uTime : R) (position aRandom : Vector3 R) :
  let pos := jitter uTime position aRandom in
  Rabs (x3 pos - x3 position) <= 0.05 /\
  Rabs (y3 pos - y3 position) <= 0.05 /\
  Rabs (z3 pos - z3 position) <= 0.05 /\
  Spec.norm (vec3_sub pos position) <= 0.05 * sqrt 3 /\
  jitter (uTime + 4 * PI) position aRandom = pos /\
  jitter 0 position (vec3 0 0 0) = vec3 (x3 position) (y3 position + 0.05) (z3 position).
Proof.
  intros pos.
  assert (Hx : Rabs (x3 pos - x3 position) <= 0.05).
  { subst pos. unfold jitter. cbn. pose proof (SIN_bound (uTime * (5 / 10) + x3 aRandom * (10 / 1))).
    apply Rabs_le. lra. }
  assert (Hy : Rabs (y3 pos - y3 position) <= 0.05).
  { subst pos. unfold jitter. cbn. pose proof (COS_bound (uTime * (5 / 10) + y3 aRandom * (10 / 1))).
    apply Rabs_le. lra. }
  assert (Hz : Rabs (z3 pos - z3 position) <= 0.05).
  { subst pos. unfold jitter. cbn. pose proof (SIN_bound (uTime * (5 / 10) + z3 aRandom * (10 / 1))).
    apply Rabs_le. lra. }
  repeat match goal with |- _ /\ _ => split end; try assumption.
  - apply norm_le_of_components; [lra | exact Hx | exact Hy | exact Hz].
  - subst pos. unfold jitter. cbn [jadd jmul jsin jcos dec R_arith R_trig x3 y3 z3].
    assert (E : forall c, (uTime + 4 * PI) * (5 / 10) + c = uTime * (5 / 10) + c + 2 * INR 1 * PI)
      by (intros c; cbn [INR]; lra).
    rewrite !E, !sin_period, cos_period. reflexivity.
  - unfold jitter. cbn [jadd jmul jsin jcos dec R_arith R_trig x3 y3 z3].
    replace (0 * (5 / 10) + 0 * (10 / 1)) with 0 by lra.
    rewrite sin_0, cos_0. f_equal; lra.
Qed.


Lemma glsl_max_Rmax (x y : R) : glsl_max x y = Rmax x y.
Proof.
  unfold glsl_max, Rmax. cbn [jlt R_arith]. unfold Rlt_bool.
  destruct (Rlt_dec x y), (Rle_dec x y); lra.
Qed.

Lemma norm_length (v : Vector3 R) : vec3_length v = Spec.norm v.
Proof.
  unfold vec3_length, Spec.norm. cbn [jsqrt jadd jmul R_arith]. f_equal. ring.
Qed.

Lemma norm_pos (v : Vector3 R) : v <> vec3 0 0 0 -> 0 < Spec.norm v.
Proof.
  intros Hv. unfold Spec.norm. apply sqrt_lt_R0.
  destruct v as [x y z]. cbn [x3 y3 z3].
  destruct (Req_dec_T x 0) as [->|Hx]; [|nra].
  destruct (Req_dec_T y 0) as [->|Hy]; [|nra].
  destruct (Req_dec_T z 0) as [->|Hz]; [contradiction | nra].
Qed.

Lemma sqrt3_sq : sqrt 3 * sqrt 3 = 3.
Proof. apply sqrt_sqrt. lra. Qed.

(** The cosine of the angle between [pos] and the light. *)
Lemma light_cosine (pos : Vector3 R) :
  pos <> vec3 0 0 0 ->
  let d := (x3 pos + y3 pos + z3 pos) / (sqrt 3 * Spec.norm pos) in
  Vector3_dot (normalize pos) (normalize (vec3 (dec 1 1) (dec 1 1) (dec 1 1))) = d /\
  -1 <= d <= 1.
Proof.
  intros Hpos d.
  pose proof (norm_pos pos Hpos) as Hn.
  assert (Hs : 0 < sqrt 3) by (apply sqrt_lt_R0; lra).
  assert (Hl : vec3_length (vec3 (dec 1 1) (dec 1 1) (dec 1 1)) = sqrt 3).
  { unfold vec3_length. cbn. f_equal. lra. }
  split.
  - unfold normalize, Vector3_dot. rewrite Hl, norm_length.
    cbn [x3 y3 z3 jadd jmul jdiv dec R_arith]. subst d. field. lra.
  - assert (Hnn : Spec.norm pos * Spec.norm pos = x3 pos ^ 2 + y3 pos ^ 2 + z3 pos ^ 2).
    { unfold Spec.norm. apply sqrt_sqrt.
      pose proof (pow2_ge_0 (x3 pos)). pose proof (pow2_ge_0 (y3 pos)).
      pose proof (pow2_ge_0 (z3 pos)). lra. }
    pose proof sqrt3_sq as H3.
    set (n := Spec.norm pos) in *. set (s := sqrt 3) in *.
    set (t := x3 pos + y3 pos + z3 pos).
    assert (Ht : t * t <= (s * n) * (s * n)).
    { replace ((s * n) * (s * n)) with ((s * s) * (n * n)) by ring.
      rewrite H3, Hnn. subst t.
      pose proof (pow2_ge_0 (x3 pos - y3 pos)). pose proof (pow2_ge_0 (y3 pos - z3 pos)).
      pose proof (pow2_ge_0 (x3 pos - z3 pos)). nra. }
    assert (Hsn : 0 < s * n) by (apply Rmult_lt_0_compat; assumption).
    assert (Hd : d * (s * n) = t) by (subst d; fold t n s; field; lra).
    set (p := s * n) in *.
    assert (Hdd : d * d <= 1).
    { apply Rmult_le_reg_r with (r := p * p); [nra|].
      replace (d * d * (p * p)) with (t * t) by (rewrite <- Hd; ring). lra. }
    clear - Hdd. split; nra.
Qed.

(** X17.  For a displaced vertex away from the origin, [vAlpha] is the
    cosine between the direction of the vertex and the light direction (1,
    1, 1), raised to the ambient 0.2 where it is less: it lies between 0.2
    and 1 and is 0.2 on the side facing away from the light. For a vertex in
    front of the camera the point size is 30 over its depth, and positive. *)
Theorem shading_between_ambient_and_full (modelViewMatrix projectionMatrix : Matrix4 R)
  (uTime : R) (uMouse : Vector3 R) (uHover : R) (position aRandom : Vector3 R) :
  let pos := vertexShader uTime uMouse uHover position aRandom in
  let out := vertexMain modelViewMatrix projectionMatrix uTime uMouse uHover
               position aRandom in
  let depth := - z4 (mat4_mul modelViewMatrix (vec4 (x3 pos) (y3 pos) (z3 pos) 1)) in
  pos <> vec3 0 0 0 ->
  vAlpha out = Rmax 0.2 ((x3 pos + y3 pos + z3 pos) / (sqrt 3 * Spec.norm pos)) /\
  0.2 <= vAlpha out <= 1 /\
  (x3 pos + y3 pos + z3 pos <= 0 -> vAlpha out = 0.2) /\
  (0 < depth -> gl_PointSize out = 30 / depth /\ 0 < gl_PointSize out).
Proof.
  intros pos out depth Hpos.
  destruct (light_cosine pos Hpos) as [Hdot Hd].
  assert (Ha : vAlpha out =
               Rmax 0.2 ((x3 pos + y3 pos + z3 pos) / (sqrt 3 * Spec.norm pos))).
  { subst out. unfold vertexMain. cbn [vAlpha]. fold pos.
    rewrite glsl_max_Rmax, Hdot. f_equal; try (cbn; lra). }
  pose proof (norm_pos pos Hpos) as Hn.
  assert (Hs : 0 < sqrt 3) by (apply sqrt_lt_R0; lra).
  repeat match goal with |- _ /\ _ => split end.
  - exact Ha.
  - rewrite Ha. apply Rmax_l.
  - rewrite Ha. apply Rmax_lub; lra.
  - intros Hsum. rewrite Ha. apply Rmax_left.
    assert (Hq : (x3 pos + y3 pos + z3 pos) / (sqrt 3 * Spec.norm pos) <= 0).
    { assert (Hsn : 0 < / (sqrt 3 * Spec.norm pos))
        by (apply Rinv_0_lt_compat, Rmult_lt_0_compat; assumption).
      unfold Rdiv. nra. }
    lra.
  - intros Hdepth. subst out. unfold vertexMain. cbn [gl_PointSize]. fold pos.
    cbn [jdiv jneg dec R_arith].
    replace (mat4_mul modelViewMatrix (vec4 (x3 pos) (y3 pos) (z3 pos) (1 / 1)))
      with (mat4_mul modelViewMatrix (vec4 (x3 pos) (y3 pos) (z3 pos) 1))
      by (do 2 f_equal; lra).
    fold depth. split; [f_equal; lra|].
    apply Rdiv_lt_0_compat; lra.
Qed.

(** A vertex one unit from [uMouse] with the repulsion on. *)
Lemma sample_vertex :
  vertexShader 0 (vec3 0 0 0) 1 (vec3 1 (-0.05) 0) (vec3 0 0 0) = vec3 3.25 0 0.
Proof.
  unfold vertexShader.
  assert (Hpos : jitter 0 (vec3 1 (-0.05) 0) (vec3 0 0 0) = vec3 1 0 0).
  { unfold jitter. cbn.
    replace (0 * (5 / 10) + 0 * (10 / 1)) with 0 by lra.
    rewrite sin_0, cos_0. f_equal; lra. }
  assert (Hd : distance (vec3 1 0 0) (vec3 0 0 0) = 1).
  { unfold distance, vec3_length, vec3_sub. cbn. apply sqrt_of_square; lra. }
  rewrite Hpos, repel_run. cbn zeta. rewrite Hd.
  destruct (Rlt_dec 1 4); [|lra]. rewrite falloff_inside by lra.
  unfold vec3_add, vec3_scale, vec3_sub. cbn. f_equal; lra.
Qed.

Lemma shading_between_ambient_and_full_witness :
  vAlpha (vertexMain (viewFrom 15) (viewFrom 0) 0 (vec3 0 0 0) 1
            (vec3 1 (-0.05) 0) (vec3 0 0 0))
    = Rmax 0.2 ((3.25 + 0 + 0) / (sqrt 3 * Spec.norm (vec3 3.25 0 0))).
Proof.
  pose proof (shading_between_ambient_and_full (viewFrom 15) (viewFrom 0) 0
                (vec3 0 0 0) 1 (vec3 1 (-0.05) 0) (vec3 0 0 0)) as Hthm.
  cbn zeta in Hthm. rewrite sample_vertex in Hthm.
  apply Hthm. intros E. injection E as E. lra.
Defined.

Lemma Rpower_1_l (c : R) : Rpower 1 c = 1.
Proof. unfold Rpower. rewrite ln_1, Rmult_0_r. apply exp_0. Qed.

Lemma glow_bounds (g : R) : 0 <= g <= 1 -> 0 <= jpow g (dec 15 10) <= 1.
Proof.
  intros Hg. cbn [jpow R_pow]. destruct (Rlt_dec 0 g) as [Hp|Hp]; [|lra].
  split.
  - left. apply exp_pos.
  - rewrite <- (Rpower_1_l (dec 15 10)). apply Rle_Rpower_l; [cbn; lra | lra].
Qed.

(** X18.  The fragment shader discards a fragment farther than 0.5 from the
    centre of its point. Otherwise it keeps the colour and multiplies the
    alpha by the glow (1 - 2 r)^1.5, which lies between 0 and 1, is 1 at the
    centre and 0 on the rim. The centre keeps its alpha; the corners of the
    point are discarded. *)
Theorem fragment_is_a_soft_disc (uColor : Vector3 R) (vAlpha : R)
  (gl_PointCoord : Vector2 R) :
  let r := sqrt ((x2 gl_PointCoord - 0.5) ^ 2 + (y2 gl_PointCoord - 0.5) ^ 2) in
  let out := fragmentMain uColor vAlpha gl_PointCoord in
  (0.5 < r -> out = None) /\
  (r <= 0.5 ->
     exists glow,
       out = Some (vec4 (x3 uColor) (y3 uColor) (z3 uColor) (vAlpha * glow)) /\
       glow = jpow (1 - 2 * r) 1.5 /\ 0 <= glow <= 1 /\
       (0 <= vAlpha -> 0 <= vAlpha * glow <= vAlpha) /\
       (r = 0 -> glow = 1) /\ (r = 0.5 -> glow = 0)) /\
  fragmentMain uColor vAlpha (vec2 0.5 0.5) =
    Some (vec4 (x3 uColor) (y3 uColor) (z3 uColor) vAlpha) /\
  fragmentMain uColor vAlpha (vec2 0 0) = None /\
  fragmentMain uColor vAlpha (vec2 1 1) = None.
Proof.
  intros r out.
  assert (Hr : distance2 gl_PointCoord (vec2 (dec 5 10) (dec 5 10)) = r).
  { unfold distance2. cbn. subst r. f_equal. lra. }
  assert (Hr0 : 0 <= r) by (subst r; apply sqrt_pos).
  assert (Hout : out =
    if Rlt_dec 0.5 r then None
    else Some (vec4 (x3 uColor) (y3 uColor) (z3 uColor) (vAlpha * jpow (1 - 2 * r) 1.5))).
  { subst out. unfold fragmentMain. rewrite Hr. cbn [jlt R_arith dec].
    unfold Rlt_bool. destruct (Rlt_dec (5 / 10) r), (Rlt_dec 0.5 r); try lra; [reflexivity|].
    do 3 f_equal. cbn [jsub jmul dec R_arith]. f_equal; lra. }
  assert (Hcorner : forall p : Vector2 R,
            (x2 p - 0.5) ^ 2 + (y2 p - 0.5) ^ 2 = 0.5 ->
            fragmentMain uColor vAlpha p = None).
  { intros p Hp. unfold fragmentMain, distance2.
    cbn [jlt jsub jmul jadd jsqrt dec R_arith x2 y2].
    replace ((x2 p - 5 / 10) * (x2 p - 5 / 10) + (y2 p - 5 / 10) * (y2 p - 5 / 10))
      with 0.5 by (rewrite <- Hp; lra).
    rewrite Rlt_bool_true; [reflexivity|].
    rewrite <- (sqrt_square (5 / 10)) by lra. apply sqrt_lt_1_alt. lra. }
  repeat match goal with |- _ /\ _ => split end.
  - intros H. rewrite Hout. destruct (Rlt_dec 0.5 r); [reflexivity | lra].
  - intros H. rewrite Hout. destruct (Rlt_dec 0.5 r); [lra|].
    eexists. split; [reflexivity|]. split; [reflexivity|].
    assert (Hg : 0 <= jpow (1 - 2 * r) 1.5 <= 1).
    { replace 1.5 with (dec 15 10 : R) by (cbn; lra). apply glow_bounds. lra. }
    split; [exact Hg|]. split; [intros Hv; nra|]. split.
    + intros ->. cbn [jpow R_pow]. destruct (Rlt_dec 0 (1 - 2 * 0)); [|lra].
      replace (1 - 2 * 0) with 1 by lra. apply Rpower_1_l.
    + intros ->. cbn [jpow R_pow]. destruct (Rlt_dec 0 (1 - 2 * 0.5)); [lra | reflexivity].
  - unfold fragmentMain, distance2.
    cbn [jlt jsub jmul jadd jsqrt dec R_arith x2 y2].
    replace ((0.5 - 5 / 10) * (0.5 - 5 / 10) + (0.5 - 5 / 10) * (0.5 - 5 / 10)) with 0 by lra.
    rewrite sqrt_0, Rlt_bool_false by lra.
    replace (1 / 1 - 0 * (2 / 1)) with 1 by lra.
    cbn [jpow R_pow]. destruct (Rlt_dec 0 1); [|lra].
    rewrite Rpower_1_l. do 2 f_equal. lra.
  - apply Hcorner. cbn. lra.
  - apply Hcorner. cbn. lra.
Qed.

End Shader.

(** ** Start-up *)

Section StartupClaims.
Local Open Scope R_scope.


(** X19.  From the initial page, [createHandLandmarker] turns
    [webcamRunning] on, attaches the stream and registers [predictWebcam] on
    [loadeddata] exactly when both loading promises and [getUserMedia] are
    fulfilled and the browser has [mediaDevices]; [handLandmarker] is set
    exactly when the model has loaded. On success the page is the started
    page with the loading indicator drawn and one line logged. When the
    model has not loaded, no run of the frame loop invokes detection. *)
Theorem startup_starts_the_frame_loop (env : Startup) (ext : Externals R)
  (frames : list (R * R)) :
  let p : Page R := createHandLandmarker env (freshPage initialWorld) in
  webcamRunning (world p) = startsCamera env /\
  loadeddata p = (if startsCamera env then [CbPredictWebcam] else []) /\
  srcObject p = startsCamera env /\
  handLandmarker (world p) = loadsModel env /\
  (startsCamera env = true ->
     world p = set_canvas (drawStatusIndicator "loading" None) startedWorld /\
     consoleLog p = ["HandLandmarker created successfully!"]) /\
  (loadsModel env = false -> detectLog (frameLoop ext frames (world p)) = []).
Proof.
  intros p.
  assert (Hflags : webcamRunning (world p) = startsCamera env /\
                   loadeddata p = (if startsCamera env then [CbPredictWebcam] else []) /\
                   srcObject p = startsCamera env /\
                   handLandmarker (world p) = loadsModel env).
  { subst p. unfold createHandLandmarker, enableCam, startsCamera, loadsModel.
    destruct (forVisionTasks env); [|repeat split].
    destruct (createFromOptions env); [|repeat split].
    cbn. destruct (mediaDevices env); [|destruct (getUserMedia env); repeat split].
    destruct (getUserMedia env); repeat split. }
  destruct Hflags as (H1 & H2 & H3 & H4).
  repeat match goal with |- _ /\ _ => split end; try assumption.
  - intros Hok. subst p. unfold createHandLandmarker, enableCam, startsCamera in *.
    destruct (forVisionTasks env); [|discriminate].
    destruct (createFromOptions env); [|discriminate].
    destruct (getUserMedia env); [|discriminate]. rewrite Hok. cbn.
    split; reflexivity.
  - intros Hno. rewrite frameLoop_unloaded by congruence.
    subst p. unfold createHandLandmarker, enableCam, loadsModel in *.
    destruct (forVisionTasks env); [|reflexivity].
    destruct (createFromOptions env); [discriminate | reflexivity].
Qed.


End StartupClaims.

(** ** The legacy build: gestures and document *)

Section LegacyGestures.
Local Open Scope R_scope.
Variable ext : Externals R.
Variable drawConnectors drawLandmarks : list (Landmark R) -> list (CanvasOp R).

Lemma legacy_onHand_run (hand : list (Landmark R)) (w : World R)
  (wrist c m tip : Landmark R) :
  hand !! 0%nat = Some wrist -> hand !! 5%nat = Some c ->
  hand !! 12%nat = Some m -> hand !! 8%nat = Some tip ->
  LegacyPage.onHand ext drawConnectors drawLandmarks hand w =
  (Normal tt,
   set_targetRotationSpeed (Some (Spec.rotation (lx tip)))
     (set_targetZoom (Some (Spec.zoom wrist m c))
        (updateInteraction ext (lx tip * 2 - 1) (- (ly tip * 2 - 1))
           (set_canvas (canvas w ++ drawConnectors hand ++ drawLandmarks hand) w)))).
Proof.
  intros H0 H5 H12 H8. unfold LegacyPage.onHand.
  unfold bind at 1. cbn [draw modify]. unfold bind at 1. cbn [draw modify].
  unfold dist, bind, prop, ret. rewrite H0, H5, H12, H8.
  rewrite zoom_code. unfold modify at 1 2.
  rewrite rotation_run.
  apply (f_equal (pair (Normal tt))).
  rewrite !updateInteraction_run.
  apply world_ext; try reflexivity.
  - cbn. repeat f_equal; lra.
  - cbn. f_equal; lra.
  - lazy [canvas set_canvas set_uHover set_uMouse set_mouse set_targetZoom
          set_targetRotationSpeed].
    rewrite <- !app_assoc. reflexivity.
Qed.

Lemma legacy_onHand_fst (hand : list (Landmark R)) (w : World R) :
  fst (LegacyPage.onHand ext drawConnectors drawLandmarks hand w) =
  if (12 <? length hand)%nat then Normal tt else Throw TypeError.
Proof.
  destruct (12 <? length hand)%nat eqn:Hl.
  - apply Nat.ltb_lt in Hl.
    destruct (gesture_landmarks hand Hl) as (wrist & c & m & tip & H0 & H5 & H12 & H8).
    rewrite (legacy_onHand_run hand w wrist c m tip H0 H5 H12 H8). reflexivity.
  - apply Nat.ltb_ge in Hl.
    assert (H12 : hand !! 12%nat = None) by (apply lookup_ge_None_2; lia).
    unfold LegacyPage.onHand. rewrite !bind_fst. cbn [draw modify fst snd].
    unfold dist. rewrite H12.
    destruct (hand !! 8%nat) as [tip|]; [|reflexivity].
    destruct (hand !! 0%nat) as [wrist|]; reflexivity.
Qed.

Lemma same_rest_interaction (x y : R) (w : World R) :
  same_rest w (updateInteraction ext x y w).
Proof. rewrite updateInteraction_run. repeat split. Qed.

(** The two loops over the hands of a frame, side by side. *)
Lemma loops_agree (hands : list (list (Landmark R))) (w1 w2 : World R) :
  forallb (complete ext) hands = true ->
  same_gestures w1 w2 -> same_rest w1 w2 ->
  exists w1' w2',
    for_of hands (onHand ext) w1 = (Normal tt, w1') /\
    for_of hands (LegacyPage.onHand ext drawConnectors drawLandmarks) w2 = (Normal tt, w2') /\
    same_gestures w1' w2' /\ same_rest w1' w2'.
Proof.
  revert w1 w2. induction hands as [|hand hands IH]; intros w1 w2 Hall Hg Hr.
  - exists w1, w2. repeat split; try apply Hg; apply Hr.
  - cbn [forallb] in Hall. apply andb_true_iff in Hall as [Hc Hall].
    destruct (complete_spec ext hand Hc) as (Hd & wrist & c & m & tip & H0 & H5 & H12 & H8).
    destruct (onHand_run ext hand w1 wrist c m tip Hd H0 H5 H12 H8) as [ops E1].
    pose proof (legacy_onHand_run hand w2 wrist c m tip H0 H5 H12 H8) as E2.
    cbn [for_of]. unfold bind. rewrite E1, E2.
    apply IH; [exact Hall | |].
    + rewrite !updateInteraction_run.
      destruct Hr as (_ & _ & _ & Hcam & _).
      unfold same_gestures.
      cbn [targetZoom targetRotationSpeed mouse uMouse uHover set_canvas
           set_targetRotationSpeed set_targetZoom set_uHover set_uMouse set_mouse
           cameraPosition].
      rewrite Hcam. repeat split.
    + rewrite !updateInteraction_run.
      destruct Hr as (R1 & R2 & R3 & R4 & R5 & R6 & R7 & R8 & R9 & R10 & R11).
      repeat split; assumption.
Qed.

End LegacyGestures.

Section LegacyClaims.
Local Open Scope R_scope.

(** X21.  The legacy [onResults] throws exactly when a hand of the frame has
    at most 12 landmarks. On a frame whose hands are all complete both
    builds return normally and leave the same gesture state, and the same
    state otherwise, the canvas aside. *)
Theorem legacy_onResults_agrees (ext : Externals R)
  (drawConnectors drawLandmarks : list (Landmark R) -> list (CanvasOp R))
  (hands : option (list (list (Landmark R)))) (w : World R) :
  let new := onResults ext (mkResults hands) w in
  let old := LegacyPage.onResults ext drawConnectors drawLandmarks
               (LegacyPage.mkResults hands) w in
  fst old =
    (if forallb (fun hand => (12 <? length hand)%nat) (default [] hands)
     then Normal tt else Throw TypeError) /\
  (forallb (complete ext) (default [] hands) = true ->
     fst new = Normal tt /\ fst old = Normal tt /\
     same_gestures (snd new) (snd old) /\ same_rest (snd new) (snd old)).
Proof.
  intros new old. split.
  - subst old. unfold LegacyPage.onResults. cbn [LegacyPage.multiHandLandmarks].
    rewrite bind_fst. cbn [draw modify fst snd]. rewrite bind_fst.
    destruct hands as [[|hand hands]|]; cbn [default from_option]; try reflexivity.
    rewrite (for_of_fst (fun hand => (12 <? length hand)%nat) TypeError)
      by (intros; apply legacy_onHand_fst).
    destruct (forallb _ _); reflexivity.
  - intros Hall. subst new old.
    unfold onResults, LegacyPage.onResults.
    cbn [landmarks LegacyPage.multiHandLandmarks].
    destruct hands as [[|hand hands]|]; cbn [default from_option] in Hall.
    + repeat split.
    + set (pre := [CSave; CClearRect (dec 0 1) (dec 0 1) (canvasWidth ext) (canvasHeight ext)]).
      set (w0 := set_canvas (canvas w ++ pre) w).
      set (w1 := set_canvas (canvas w0 ++ drawStatusIndicator "tracking" None) w0).
      destruct (loops_agree ext drawConnectors drawLandmarks (hand :: hands) w1 w0 Hall)
        as (w1' & w2' & E1 & E2 & Hg & Hr); [repeat split | repeat split |].
      assert (En : bind (draw pre)
                (fun _ => bind (bind (draw (drawStatusIndicator "tracking" None))
                                 (fun _ => for_of (hand :: hands) (onHand ext)))
                            (fun _ => draw [CRestore])) w =
              match for_of (hand :: hands) (onHand ext) w1 with
              | (Normal _, w2) => (Normal tt, set_canvas (canvas w2 ++ [CRestore]) w2)
              | (Throw e, w2) => (Throw e, w2)
              end) by reflexivity.
      assert (Eo : bind (draw pre)
                (fun _ => bind (for_of (hand :: hands)
                                  (LegacyPage.onHand ext drawConnectors drawLandmarks))
                            (fun _ => draw [CRestore])) w =
              match for_of (hand :: hands)
                      (LegacyPage.onHand ext drawConnectors drawLandmarks) w0 with
              | (Normal _, w2) => (Normal tt, set_canvas (canvas w2 ++ [CRestore]) w2)
              | (Throw e, w2) => (Throw e, w2)
              end) by reflexivity.
      rewrite En, Eo, E1, E2. cbn [fst snd].
      split; [reflexivity|]. split; [reflexivity|]. split; [exact Hg | exact Hr].
    + repeat split.
Qed.

Lemma legacy_onResults_agrees_witness :
  targetZoom
    (snd (onResults hitExternals
            (mkResults (Some [handWithRatio 1.3 (landmark 0.5 0.3)])) initialWorld)) =
  targetZoom
    (snd (LegacyPage.onResults hitExternals (fun _ => []) (fun _ => [])
            (LegacyPage.mkResults (Some [handWithRatio 1.3 (landmark 0.5 0.3)]))
            initialWorld)).
Proof.
  exact (proj1 (proj1 (proj2 (proj2 (proj2
    (legacy_onResults_agrees hitExternals (fun _ => []) (fun _ => [])
       (Some [handWithRatio 1.3 (landmark 0.5 0.3)]) initialWorld) eq_refl))))).
Defined.

End LegacyClaims.

Lemma filter_all_id {A : Type} (P : A -> Prop) `{forall a, Decision (P a)} (l : list A) :
  Forall P l -> filter P l = l.
Proof.
  induction 1 as [|a l Ha _ IH]; [reflexivity|].
  rewrite filter_cons_True by exact Ha. by rewrite IH.
Qed.

Section LegacyDocument.
Local Open Scope R_scope.
Import LegacyPage.







(** X22.  Once the results listener of the legacy build has run, hand
    tracking counts as active and the fallback does nothing. Otherwise the
    fallback warns, hides the error overlay if it is displayed as block,
    appends its toast and schedules the removal of the toast after 5000 ms;
    that removal takes away this toast and no other. *)
Theorem fallback_yields_to_hand_tracking (ext : Externals R)
  (drawConnectors drawLandmarks : list (Landmark R) -> list (CanvasOp R))
  (results : LegacyPage.Results R) (p : Page R) (d : Dom) :
  let shown := fallback d in
  handTrackingActive
    (dom (snd (resultsListener ext drawConnectors drawLandmarks results p))) = true /\
  fallback (dom (snd (resultsListener ext drawConnectors drawLandmarks results p))) =
    dom (snd (resultsListener ext drawConnectors drawLandmarks results p)) /\
  (handTrackingActive d = true -> shown = d) /\
  (handTrackingActive d = false ->
     warnings shown =
       warnings d ++ ["Hand tracking timed out. Switching to mouse/touch interaction."] /\
     toasts shown = toasts d ++ [(created d, fallbackToast)] /\
     timeouts shown = timeouts d ++ [(TimeoutRemoveToast (created d), 5000%Z)] /\
     overlayDisplay shown =
       (if decide (overlayDisplay d = Some "block") then Some "none"
        else overlayDisplay d) /\
     messageHTML shown = messageHTML d /\
     (Forall (fun entry => fst entry <> created d) (toasts d) ->
      toasts (fire (TimeoutRemoveToast (created d)) shown) = toasts d)).
Proof.
  intros shown.
  assert (Hactive : handTrackingActive
            (dom (snd (resultsListener ext drawConnectors drawLandmarks results p))) = true).
  { unfold resultsListener. cbn [on_dom dom state].
    destruct (LegacyPage.onResults _ _ _ _ _) as [c w]. reflexivity. }
  repeat match goal with |- _ /\ _ => split end.
  - exact Hactive.
  - unfold fallback. rewrite Hactive. reflexivity.
  - intros E. subst shown. unfold fallback. rewrite E. reflexivity.
  - subst shown. destruct d as [display html ts n tm active ws vs vp].
    cbn [handTrackingActive]. intros ->. unfold fallback.
    cbn [handTrackingActive negb console_warn overlayDisplay messageHTML toasts
         created timeouts warnings videoSource videoPlaying].
    assert (Hrest : filter (fun entry : nat * Toast => fst entry <> n) [(n, fallbackToast)] = [])
      by (rewrite filter_cons_False by (cbn; tauto); reflexivity).
    destruct display as [display|].
    + destruct (String.eqb display "block") eqn:Eb.
      * apply String.eqb_eq in Eb. subst display.
        rewrite decide_True by reflexivity. repeat split.
        intros Hfresh. lazy [fire removeToast setTimeout appendToast set_overlayDisplay console_warn
                             toasts created].
        rewrite filter_app, Hrest, app_nil_r. apply filter_all_id, Hfresh.
      * apply String.eqb_neq in Eb.
        rewrite decide_False by congruence. repeat split.
        intros Hfresh. lazy [fire removeToast setTimeout appendToast set_overlayDisplay console_warn
                             toasts created].
        rewrite filter_app, Hrest, app_nil_r. apply filter_all_id, Hfresh.
    + rewrite decide_False by discriminate. repeat split.
      intros Hfresh. lazy [fire removeToast setTimeout appendToast set_overlayDisplay console_warn
                             toasts created].
      rewrite filter_app, Hrest, app_nil_r. apply filter_all_id, Hfresh.
Qed.


End LegacyDocument.

(** * Runs in binary64

    The same embedding on the numbers a JavaScript engine computes with.
    The landmark distances go through [Math.hypot], so a ratio is met up
    to rounding; the thresholds and the clamps are exact. *)

Section Binary64.

Example binary64_zoom :
  fst (targets64 (dec 8 10) (dec 5 10)) = Some (dec 0 1) /\
  fst (targets64 (dec 5 10) (dec 5 10)) = Some (dec 0 1) /\
  fst (targets64 (dec 25 10) (dec 5 10)) = Some (dec 1 1) /\
  within64 (dec 4999999 10000000) (dec 5000001 10000000)
           (fst (targets64 (dec 13 10) (dec 5 10))) = true /\
  within64 (dec 9999999 10000000) (dec 10000001 10000000)
           (fst (targets64 (dec 18 10) (dec 5 10))) = true.
Proof. vm_compute. repeat split. Qed.

Example binary64_rotation :
  snd (targets64 (dec 13 10) (dec 1 10)) = Some (jneg (dec 5 100)) /\
  snd (targets64 (dec 13 10) (dec 2 10)) = Some (dec 2 1000) /\
  snd (targets64 (dec 13 10) (dec 5 10)) = Some (dec 2 1000) /\
  snd (targets64 (dec 13 10) (dec 8 10)) = Some (dec 2 1000) /\
  snd (targets64 (dec 13 10) (dec 9 10)) = Some (dec 5 100).
Proof. vm_compute. repeat split. Qed.

(** A hand with a single landmark: [drawHand] reads a missing landmark,
    [onResults] throws and no gesture target is written. *)
Example binary64_incomplete_hand :
  let result := onResults hitExternals64
                  (mkResults (Some [[landmark (dec 1 10) (dec 3 10)]]))
                  initialWorld in
  fst result = Throw "TypeError: Cannot read properties of undefined" /\
  targetZoom (snd result) = None /\
  targetRotationSpeed (snd result) = None.
Proof. vm_compute. repeat split. Qed.

(** The hand closing over 50 ticks: the target reaches 0, the smoothed
    zoom ends near 0.174 and the camera near 22.04. *)
Example binary64_closing_hand :
  let w := closingRun hitExternals64 50 50 initialWorld in
  targetZoom w = Some (dec 0 1) /\
  within64 (dec 1739 10000) (dec 1740 10000) (currentZoom w) = true /\
  within64 (dec 2204 100) (dec 2205 100) (Some (z3 (cameraPosition w))) = true.
Proof. vm_compute. repeat split. Qed.

(** Smoothing from 0 towards 1: three ticks give 0.271; the value stays
    below 1 and, in binary64, no longer moves after some 350 ticks. *)
Example binary64_smoothing :
  let start := set_currentZoom (Some (dec 0 1))
                 (set_targetZoom (Some (dec 1 1)) initialWorld) in
  currentZoom (ticks (idle64 3) start) = Some (dec 271 1000) /\
  within64 (dec 999999 1000000) (dec 1 1) (currentZoom (ticks (idle64 400) start)) = true /\
  currentZoom (ticks (idle64 401) start) = currentZoom (ticks (idle64 400) start).
Proof. vm_compute. repeat split. Qed.

(** The frame loop of script.js detects each new frame once; the legacy
    loop detects the same frame twice. *)
Example binary64_frame_loops :
  let frames := [(dec 0 1, dec 0 1); (dec 0 1, dec 16 1); (dec 33 1000, dec 33 1);
                 (dec 33 1000, dec 50 1); (dec 66 1000, dec 66 1)] in
  detectLog (frameLoop hitExternals64 frames startedWorld)
    = [dec 0 1; dec 33 1000; dec 66 1000] /\
  detectLog (legacyFrameLoop [(4%Z, dec 1 1); (4%Z, dec 1 1); (1%Z, dec 2 1)]
               initialWorld)
    = [dec 1 1; dec 1 1 : PrimFloat.float].
Proof. vm_compute. repeat split. Qed.

(** A ray that misses the plane leaves the repulsion on, at the origin. *)
Example binary64_miss :
  let w := updateInteraction missExternals64 (dec 2 10) (dec 4 10) initialWorld in
  uHover w = dec 1 1 /\ uMouse w = vec3 (dec 0 1) (dec 0 1) (dec 0 1).
Proof. vm_compute. repeat split. Qed.

(** A vertex exactly on [uMouse]: in binary64 the direction is 0/0 and
    the displaced position is not a number. *)
Example binary64_centre :
  let out := repel (vec3 (dec 0 1) (dec 5 100) (dec 0 1)) (dec 1 1)
               (vec3 (dec 0 1) (dec 5 100) (dec 0 1)) in
  PrimFloat.is_nan (x3 out) = true /\ PrimFloat.is_nan (y3 out) = true /\
  PrimFloat.is_nan (z3 out) = true.
Proof. vm_compute. repeat split. Qed.

(** A run of the page: the start-up, the frame-loop callback twice on the
    same video frame, a render tick and a pointer move to the bottom-left
    corner of the window. *)
Example binary64_page_run :
  let env := mkStartup Fulfilled Fulfilled true Fulfilled in
  let w := run hitExternals64
             [EvStartup env; EvPredictWebcam (dec 5 10) (dec 0 1);
              EvPredictWebcam (dec 5 10) (dec 16 1); EvAnimate (dec 0 1);
              EvMouseMove (mkPointer (dec 0 1) (dec 480 1) (dec 640 1) (dec 480 1))]
             initialWorld in
  webcamRunning w = true /\
  rafQueue w = [CbPredictWebcam; CbPredictWebcam; CbAnimate] /\
  detectLog w = [dec 5 10] /\
  mouse w = vec2 (jneg (dec 1 1)) (jneg (dec 1 1)) /\
  canvasDepth (canvas w) = 0%Z /\
  console w = [] /\
  within64 (dec 2414 100) (dec 2416 100) (Some (z3 (cameraPosition w))) = true.
Proof. vm_compute. repeat split. Qed.

(** The legacy error handler on a script two directories down. *)
Example legacy_onerror_run :
  let p := LegacyPage.mkPage (initialWorld (num := PrimFloat.float))
             (LegacyPage.initialDom (Some "none") (Some EmptyString)) in
  let result := LegacyPage.onerror "boom" "https://host/js/app.js" 12 p in
  LegacyPage.overlayDisplay (LegacyPage.dom (snd result)) = Some "block" /\
  console (LegacyPage.state (snd result)) =
    ["Global Error: boom https://host/js/app.js 12"] /\
  LegacyPage.pop (LegacyPage.split LegacyPage.slash "https://host/js/app.js") = "app.js" /\
  LegacyPage.pop (LegacyPage.split LegacyPage.slash "dir/") = EmptyString.
Proof. vm_compute. repeat split. Qed.

End Binary64.
